(** * A shallow embedding of the ZMs mini spreadsheet engine

    The development follows the three engine modules of the repository:
    - [FormulaParser]   (engine/FormulaParser.ts): reference extraction,
      validation and evaluation of formula text;
    - [DependencyGraph] (engine/DependencyGraph.ts): the forward and reverse
      adjacency maps, cycle detection and transitive dependents;
    - [Engine]          (engine/SpreadsheetEngine.ts): the cell store and the
      write, clear, export and import operations.

    JavaScript strings are modelled as [string]s whose characters are code
    units below 256; JavaScript numbers are IEEE 754 binary64 values, the
    kernel's primitive [float].  [GraphStore] places the two maps of the
    graph in a heap of objects, for the one property that is about sharing;
    [IntegerHost] is a small host runtime used by the closed examples. *)

From Stdlib Require Import Ascii String ZArith NArith Floats DecimalString Lia.
From stdpp Require Import gmap strings list.

(** ** JavaScript string primitives used by the engine *)
Module Js.

Definition isUpper (c : ascii) : bool :=
  let n := nat_of_ascii c in (65 <=? n)%nat && (n <=? 90)%nat.

Definition isLower (c : ascii) : bool :=
  let n := nat_of_ascii c in (97 <=? n)%nat && (n <=? 122)%nat.

Definition isDigit (c : ascii) : bool :=
  let n := nat_of_ascii c in (48 <=? n)%nat && (n <=? 57)%nat.

(** The class [\s] restricted to code units below 256: TAB, LF, VT, FF, CR,
    SPACE and NBSP. *)
Definition isSpace (c : ascii) : bool :=
  let n := nat_of_ascii c in
  ((9 <=? n)%nat && (n <=? 13)%nat) || (n =? 32)%nat || (n =? 160)%nat.

Definition toUpperChar (c : ascii) : ascii :=
  if isLower c then ascii_of_nat (nat_of_ascii c - 32) else c.

Fixpoint toUpperCase (s : string) : string :=
  match s with
  | EmptyString => EmptyString
  | String c s' => String (toUpperChar c) (toUpperCase s')
  end.

(** [s.startsWith(p)] *)
Definition startsWith (s p : string) : bool := String.prefix p s.

(** [s.slice(a, b)] for non-negative indices, and [s.slice(a)]. *)
Definition slice (a b : nat) (s : string) : string := String.substring a (b - a) s.

Fixpoint sliceFrom (a : nat) (s : string) : string :=
  match a, s with
  | O, _ => s
  | S a', EmptyString => EmptyString
  | S a', String _ s' => sliceFrom a' s'
  end.

(** The longest prefix of [s] whose characters satisfy [p], and what follows. *)
Fixpoint takeWhile (p : ascii -> bool) (s : string) : string :=
  match s with
  | String c s' => if p c then String c (takeWhile p s') else EmptyString
  | EmptyString => EmptyString
  end.

Fixpoint dropWhile (p : ascii -> bool) (s : string) : string :=
  match s with
  | String c s' => if p c then dropWhile p s' else s
  | EmptyString => EmptyString
  end.

Fixpoint forallb (p : ascii -> bool) (s : string) : bool :=
  match s with
  | String c s' => p c && forallb p s'
  | EmptyString => true
  end.

(** [s.replace(pat, rep)] with a string pattern: the first occurrence only.
    The replacement texts of the engine are number renderings, error codes or
    the empty string, none of which holds a [$] pattern. *)
Fixpoint replaceFirst (pat rep s : string) : string :=
  if String.prefix pat s then rep +:+ sliceFrom (String.length pat) s
  else match s with
       | EmptyString => EmptyString
       | String c s' => String c (replaceFirst pat rep s')
       end.

(** [s.replace(new RegExp(pat, 'g'), rep)] for a pattern made of letters and
    digits (no regular-expression operator): every occurrence, left to right,
    without overlap.  [skip] counts the characters of the current occurrence
    that remain to be dropped. *)
Fixpoint replaceAllFrom (pat rep : string) (skip : nat) (s : string) : string :=
  match s with
  | EmptyString => EmptyString
  | String c s' =>
      match skip with
      | S k => replaceAllFrom pat rep k s'
      | O =>
          if String.prefix pat s
          then rep +:+ replaceAllFrom pat rep (String.length pat - 1) s'
          else String c (replaceAllFrom pat rep 0 s')
      end
  end.

Definition replaceAll (pat rep s : string) : string := replaceAllFrom pat rep 0 s.

(** [s.matchAll(re)] for a global regular expression none of whose matches
    is empty.  [re s] matches at the start of [s] and returns the match with
    its length; a failed position advances by one character, a successful
    one resumes after the match. *)
Fixpoint matchAllFrom {M : Type} (re : string -> option (M * nat))
    (skip idx : nat) (s : string) : list (nat * M) :=
  match s with
  | EmptyString => []
  | String _ s' =>
      match skip with
      | S k => matchAllFrom re k (S idx) s'
      | O =>
          match re s with
          | Some (m, len) => (idx, m) :: matchAllFrom re (len - 1) (S idx) s'
          | None => matchAllFrom re 0 (S idx) s'
          end
      end
  end.

Definition matchAll {M : Type} (re : string -> option (M * nat)) (s : string)
  : list (nat * M) := matchAllFrom re 0 0 s.

(** [parseInt] of a string of decimal digits, kept as a natural number
    (JavaScript agrees below 2^53). *)
Fixpoint parseDigitsAcc (acc : N) (s : string) : N :=
  match s with
  | EmptyString => acc
  | String c s' => parseDigitsAcc (acc * 10 + N.of_nat (nat_of_ascii c - 48)) s'
  end.

Definition parseDigits (s : string) : N := parseDigitsAcc 0 s.

(** The decimal rendering of a natural number, as a template literal
    renders an integer row number. *)
Definition showN (n : N) : string := NilZero.string_of_uint (N.to_uint n).

(** A JavaScript [Set] of strings: insertion-ordered, without repeats. *)
Definition setAdd (x : string) (l : list string) : list string :=
  if decide (x ∈ l) then l else l ++ [x].

Definition setDelete (x : string) (l : list string) : list string :=
  filter (λ y, y ≠ x) l.

Definition setHas (x : string) (l : list string) : bool := bool_decide (x ∈ l).

End Js.

(** ** Values and the host runtime *)

(** A cell value is [string | number]; [undefined] is [None] at its uses. *)
Inductive Value : Type :=
| VNum (n : float)
| VStr (s : string).

(** What running [new Function('return ' + expression)()] can do: return a
    number, return something that is not a number, or throw (at
    construction or at the call). *)
Inductive EvalOutcome : Type :=
| EvalNumber (n : float)
| EvalOther
| EvalThrows.

(** The facilities of the JavaScript runtime that the engine calls and that
    are no code of the repository: [parseFloat], [Number.prototype.toString]
    and the dynamic evaluation of an arithmetic expression. *)
Class JsHost : Type := {
  parseFloat : string -> float;
  numberToString : float -> string;
  runExpression : string -> EvalOutcome
}.

(** [Math] functions on binary64 numbers. *)
Module JsMath.

Local Open Scope float_scope.

Definition two52 : float := 4503599627370496.

(** [Math.floor]: numbers of magnitude at least 2^52 are integers; below,
    adding and subtracting 2^52 rounds to a neighbouring integer. *)
Definition floor (x : float) : float :=
  if two52 <=? PrimFloat.abs x then x
  else
    let r := if 0 <=? x then (x + two52) - two52 else (x - two52) + two52 in
    if x <? r then r - 1 else r.

(** [Math.round]: the nearest integer, ties towards +infinity, keeping the
    sign of a zero result. *)
Definition round (x : float) : float :=
  let f := floor x in
  let r := if 0.5 <=? x - f then f + 1 else f in
  if PrimFloat.is_zero r && PrimFloat.get_sign x then PrimFloat.neg_zero else r.

Definition min2 (a b : float) : float :=
  if PrimFloat.is_nan a || PrimFloat.is_nan b then PrimFloat.nan
  else if b <? a then b
  else if (a =? b) && PrimFloat.get_sign b then b
  else a.

Definition max2 (a b : float) : float :=
  if PrimFloat.is_nan a || PrimFloat.is_nan b then PrimFloat.nan
  else if a <? b then b
  else if (a =? b) && PrimFloat.get_sign a then b
  else a.

(** [Math.min(...args)] and [Math.max(...args)]. *)
Definition min (args : list float) : float := fold_left min2 args PrimFloat.infinity.
Definition max (args : list float) : float := fold_left max2 args PrimFloat.neg_infinity.

(** An array length as a number. *)
Definition ofNat (n : nat) : float := PrimFloat.of_uint63 (Uint63.of_Z (Z.of_nat n)).

End JsMath.

(** A value used as a condition: [undefined] and the empty string are falsy. *)
Definition truthy (s : option string) : bool :=
  match s with
  | Some EmptyString | None => false
  | Some _ => true
  end.

(** ** engine/FormulaParser.ts *)
Module FormulaParser.

(** [CELL_REGEX = /([A-Z])([0-9]+)/g] at the start of [s]: the matched text
    and its length.  The digits are taken greedily. *)
Definition CELL_REGEX (s : string) : option (string * nat) :=
  match s with
  | String c rest =>
      if Js.isUpper c then
        match Js.takeWhile Js.isDigit rest with
        | EmptyString => None
        | ds => Some (String c ds, S (String.length ds))
        end
      else None
  | EmptyString => None
  end.

(** [RANGE_REGEX = /([A-Z][0-9]+):([A-Z][0-9]+)/g] at the start of [s]: the
    matched text with its two groups.  After the greedy digits of the first
    group only a colon can follow, so giving digits back never helps. *)
Definition RANGE_REGEX (s : string) : option ((string * string * string) * nat) :=
  match CELL_REGEX s with
  | Some (a, n1) =>
      match Js.sliceFrom n1 s with
      | String ":" rest =>
          match CELL_REGEX rest with
          | Some (b, n2) => Some ((a +:+ ":" +:+ b, a, b), n1 + 1 + n2)
          | None => None
          end
      | _ => None
      end
  | None => None
  end.

Definition isLetter (c : ascii) : bool := Js.isUpper c || Js.isLower c.

(** [FUNCTION_REGEX = /([A-Z]+)\s*\(/gi] at the start of [s]: the matched
    text (name, blanks, opening parenthesis) and the name. *)
Definition FUNCTION_REGEX (s : string) : option ((string * string) * nat) :=
  match Js.takeWhile isLetter s with
  | EmptyString => None
  | name =>
      let rest := Js.sliceFrom (String.length name) s in
      let ws := Js.takeWhile Js.isSpace rest in
      match Js.sliceFrom (String.length ws) rest with
      | String "(" _ =>
          Some ((name +:+ ws +:+ "(", name), String.length name + String.length ws + 1)
      | _ => None
      end
  end.

Definition OPERATORS : list ascii :=
  ["+"; "-"; "*"; "/"; "("; ")"]%char.

(** The first match of [/([A-Z])([0-9]+)/] in a string: column letter and
    row digits. *)
Definition cellParts (s : string) : option (ascii * string) :=
  match Js.matchAll CELL_REGEX s with
  | (_, String c ds) :: _ => Some (c, ds)
  | _ => None
  end.

(** [expandRange], with the rows as natural numbers and the range as a
    list.  This is the function of the code for rows below 2^53, which
    [parseInt] reads exactly, and for ranges short enough to be built; on a
    longer range the loop of the code ends in a [RangeError] or does not
    end. *)
Definition expandRange (start end_ : string) : list string :=
  match cellParts start, cellParts end_ with
  | Some (startCol, startRowStr), Some (endCol, endRowStr) =>
      let startRow := Js.parseDigits startRowStr in
      let endRow := Js.parseDigits endRowStr in
      if decide (startCol = endCol) then
        let lo := N.min startRow endRow in
        let hi := N.max startRow endRow in
        map (λ k, String startCol (Js.showN (lo + N.of_nat k)))
            (seq 0 (N.to_nat (hi - lo + 1)))
      else if decide (startRow = endRow) then
        let startColIndex := nat_of_ascii startCol - 65 in
        let endColIndex := nat_of_ascii endCol - 65 in
        let lo := Nat.min startColIndex endColIndex in
        let hi := Nat.max startColIndex endColIndex in
        map (λ k, String (ascii_of_nat (65 + (lo + k))) (Js.showN startRow))
            (seq 0 (hi - lo + 1))
      else []
  | _, _ => []
  end.

Definition extractCellReferences (formula : string) : list string :=
  let cellRefs :=
    fold_left (λ acc m, Js.setAdd (snd m) acc) (Js.matchAll CELL_REGEX formula) [] in
  fold_left
    (λ acc m,
       let '(_, start, end_) := snd m in
       fold_left (λ acc' cell, Js.setAdd cell acc') (expandRange start end_) acc)
    (Js.matchAll RANGE_REGEX formula) cellRefs.

(** [/^[A-J][1-5]$/.test(cellRef)] *)
Definition isValidCellReference (cellRef : string) : bool :=
  match cellRef with
  | String c (String r EmptyString) =>
      let cn := nat_of_ascii c in
      let rn := nat_of_ascii r in
      (65 <=? cn)%nat && (cn <=? 74)%nat && (49 <=? rn)%nat && (rn <=? 53)%nat
  | _ => false
  end.

(** [s.trim()] *)
Definition trim (s : string) : string :=
  String.rev (Js.dropWhile Js.isSpace (String.rev (Js.dropWhile Js.isSpace s))).

Definition flush (current : string) (tokens : list string) : list string * string :=
  match trim current with
  | EmptyString => (tokens, current)
  | t => (tokens ++ [t], EmptyString)
  end.

Fixpoint tokenizeFrom (expression : string) (tokens : list string) (current : string)
  : list string :=
  match expression with
  | EmptyString => fst (flush current tokens)
  | String char rest =>
      if bool_decide (char ∈ OPERATORS) then
        let '(tokens', current') := flush current tokens in
        tokenizeFrom rest (tokens' ++ [String char EmptyString]) current'
      else if bool_decide (char = " "%char) then
        let '(tokens', current') := flush current tokens in
        tokenizeFrom rest tokens' current'
      else tokenizeFrom rest tokens (current +:+ String char EmptyString)
  end.

Definition tokenize (expression : string) : list string :=
  tokenizeFrom expression [] EmptyString.

Record ParsedFormula : Type := {
  tokens : list string;
  parsed_dependencies : list string
}.

Definition parseFormula (formula : string) : ParsedFormula :=
  if Js.startsWith formula "=" then
    let expression := Js.sliceFrom 1 formula in
    {| tokens := tokenize expression;
       parsed_dependencies := extractCellReferences expression |}
  else {| tokens := [formula]; parsed_dependencies := [] |}.


Inductive SpreadsheetError : Type :=
| CircularReferenceError (message : string) (chain : list string)
| FormulaError (message : string)
| ReferenceError (message : string) (invalidRef : string).

Definition message (e : SpreadsheetError) : string :=
  match e with
  | CircularReferenceError m _ | FormulaError m | ReferenceError m _ => m
  end.

Record EvaluationResult : Type := {
  value : Value;
  error : option string;
  dependencies : list string
}.

(** The running parenthesis counter of [validateFormula]: [Some n] is the
    final count, [None] reports that it went below zero. *)
Fixpoint parenBalance (expression : string) (parenCount : Z) : option Z :=
  match expression with
  | EmptyString => Some parenCount
  | String char rest =>
      let c1 := if bool_decide (char = "("%char) then (parenCount + 1)%Z else parenCount in
      let c2 := if bool_decide (char = ")"%char) then (c1 - 1)%Z else c1 in
      if (c2 <? 0)%Z then None else parenBalance rest c2
  end.

Definition validateFormula (formula : string) : option SpreadsheetError :=
  if negb (Js.startsWith formula "=") then None
  else
    let expression := Js.sliceFrom 1 formula in
    match parenBalance expression 0 with
    | None => Some (FormulaError "Unmatched closing parenthesis")
    | Some parenCount =>
        if negb (parenCount =? 0)%Z
        then Some (FormulaError "Unmatched opening parenthesis")
        else
          match List.find (λ r, negb (isValidCellReference r))
                  (extractCellReferences expression) with
          | Some cellRef =>
              Some (ReferenceError ("Invalid cell reference: " +:+ cellRef) cellRef)
          | None => None
          end
    end.

Section Evaluation.

Context {host : JsHost}.

(** [result.toString()] of a [number | string]. *)
Definition valueToString (v : Value) : string :=
  match v with
  | VNum n => numberToString n
  | VStr s => s
  end.

(** The character class of [/^[0-9+\-*/.() ]+$/]. *)
Definition isExpressionChar (c : ascii) : bool :=
  Js.isDigit c || bool_decide (c ∈ ["+"; "-"; "*"; "/"; "."; "("; ")"; " "]%char).

Definition evaluateExpression (expression : string) : Value :=
  if negb (bool_decide (expression = EmptyString)) && Js.forallb isExpressionChar expression
  then
    match runExpression expression with
    | EvalThrows => VStr "#ERROR!"
    | EvalOther => VStr "#NUM!"
    | EvalNumber result =>
        if PrimFloat.is_finite result
        then VNum (JsMath.round (result * 1000000) / 1000000)%float
        else VStr "#NUM!"
    end
  else VStr "#VALUE!".

Definition sum (args : list float) : float := fold_left PrimFloat.add args 0%float.

Definition evaluateFunction (functionName : string) (args : list float) : Value :=
  let name := Js.toUpperCase functionName in
  if decide (name = "SUM") then VNum (sum args)
  else if decide (name = "AVERAGE") then
    VNum (if (0 <? length args)%nat
          then (sum args / JsMath.ofNat (length args))%float else 0%float)
  else if decide (name = "MIN") then
    VNum (if (0 <? length args)%nat then JsMath.min args else 0%float)
  else if decide (name = "MAX") then
    VNum (if (0 <? length args)%nat then JsMath.max args else 0%float)
  else if decide (name = "COUNT") then VNum (JsMath.ofNat (length args))
  else VStr "#NAME!".

(** The scan for the parenthesis that closes a function call, started on
    the call's opening parenthesis at index [i]. *)
Fixpoint findClose (s : string) (i : nat) (parenCount : Z) : option nat :=
  match s with
  | EmptyString => None
  | String c rest =>
      let c1 := if bool_decide (c = "("%char) then (parenCount + 1)%Z else parenCount in
      if bool_decide (c = ")"%char) then
        if (c1 - 1 =? 0)%Z then Some i else findClose rest (S i) (c1 - 1)%Z
      else findClose rest (S i) c1
  end.

Definition closingIndex (expression : string) (from : nat) : nat :=
  default from (findClose (Js.sliceFrom from expression) from 0%Z).

(** One resolved cell of an aggregate's argument list: pushed when it holds
    a number or a string that parses as one, skipped otherwise. *)
Definition pushNumeric (getCellValue : string -> option Value)
    (cellId : string) (args : list float) : list float :=
  match getCellValue cellId with
  | Some cellValue =>
      let numValue := match cellValue with VStr s => parseFloat s | VNum n => n end in
      if PrimFloat.is_nan numValue then args else args ++ [numValue]
  | None => args
  end.

Definition functionArgs (getCellValue : string -> option Value) (argsString : string)
  : list float :=
  let rangeMatches := Js.matchAll RANGE_REGEX argsString in
  let args :=
    fold_left
      (λ args rangeMatch,
         let '(_, start, end_) := snd rangeMatch in
         fold_left (λ args' cellId, pushNumeric getCellValue cellId args')
                   (expandRange start end_) args)
      rangeMatches [] in
  let argsWithoutRanges :=
    fold_left (λ s rangeMatch, Js.replaceFirst (fst (fst (snd rangeMatch))) EmptyString s)
              rangeMatches argsString in
  fold_left (λ args' cellMatch, pushNumeric getCellValue (snd cellMatch) args')
            (Js.matchAll CELL_REGEX argsWithoutRanges) args.

(** One turn of the loop over the function matches of [expression]. *)
Definition substituteCall (getCellValue : string -> option Value) (expression : string)
    (processedExpression : string) (m : nat * (string * string)) : string :=
  let '(startIndex, (functionCall, functionName)) := m in
  let endIndex := closingIndex expression (startIndex + String.length functionCall - 1) in
  let fullFunctionCall := Js.slice startIndex (endIndex + 1) expression in
  let argsString := Js.slice (startIndex + String.length functionCall) endIndex expression in
  let result := evaluateFunction functionName (functionArgs getCellValue argsString) in
  Js.replaceFirst fullFunctionCall (valueToString result) processedExpression.

(** The loop that substitutes every reference of a formula without function
    calls; [inr] carries the first cell whose text is not a number. *)
Fixpoint substituteReferences (getCellValue : string -> option Value)
    (refs : list string) (processedExpression : string) : string + (string * string) :=
  match refs with
  | [] => inl processedExpression
  | cellRef :: rest =>
      match getCellValue cellRef with
      | None =>
          substituteReferences getCellValue rest
            (Js.replaceAll cellRef "0" processedExpression)
      | Some (VStr cellValue) =>
          let numValue := parseFloat cellValue in
          if PrimFloat.is_nan numValue then inr (cellRef, cellValue)
          else substituteReferences getCellValue rest
                 (Js.replaceAll cellRef (numberToString numValue) processedExpression)
      | Some (VNum cellValue) =>
          substituteReferences getCellValue rest
            (Js.replaceAll cellRef (numberToString cellValue) processedExpression)
      end
  end.

Definition errorCode (v : Value) : option string :=
  match v with
  | VStr s => if Js.startsWith s "#" then Some s else None
  | VNum _ => None
  end.

(** [evaluateFormula].  Its [try] block guards calls that do not throw here
    (the cell accessor is a total function and [evaluateExpression] catches
    the host's exceptions itself), so the [catch] branch has no counterpart. *)
Definition evaluateFormula (formula : string) (getCellValue : string -> option Value)
  : EvaluationResult :=
  if negb (Js.startsWith formula "=") then
    {| value := VStr formula; error := None; dependencies := [] |}
  else
    let expression := Js.sliceFrom 1 formula in
    let deps := extractCellReferences expression in
    match List.find (λ r, negb (isValidCellReference r)) deps with
    | Some dep =>
        {| value := VStr "#REF!";
           error := Some ("Invalid cell reference: " +:+ dep);
           dependencies := [] |}
    | None =>
        let functionMatches := Js.matchAll FUNCTION_REGEX expression in
        if (0 <? length functionMatches)%nat then
          let processedExpression :=
            fold_left (substituteCall getCellValue expression) functionMatches expression in
          if Js.startsWith processedExpression "#" then
            {| value := VStr processedExpression;
               error := Some processedExpression;
               dependencies := deps |}
          else
            let finalResult := evaluateExpression processedExpression in
            match errorCode finalResult with
            | Some code =>
                {| value := finalResult; error := Some code; dependencies := deps |}
            | None =>
                {| value := finalResult; error := None; dependencies := deps |}
            end
        else
          match substituteReferences getCellValue deps expression with
          | inr (cellRef, cellValue) =>
              {| value := VStr "#VALUE!";
                 error := Some ("Non-numeric value in cell " +:+ cellRef +:+ ": " +:+ cellValue);
                 dependencies := deps |}
          | inl processedExpression =>
              let result := evaluateExpression processedExpression in
              {| value := result; error := errorCode result; dependencies := deps |}
          end
    end.

End Evaluation.

End FormulaParser.

(** ** engine/DependencyGraph.ts *)
Module DependencyGraph.

Import FormulaParser.

(** The two [Map<string, Set<string>>] of the closure.  A [Set] is its
    insertion-ordered list of members. *)
Record Graph : Type := {
  dependencies : gmap string (list string);
  dependents : gmap string (list string)
}.

Definition empty : Graph := {| dependencies := ∅; dependents := ∅ |}.

(** [if (!m.has(k)) m.set(k, new Set())] *)
Definition ensure (k : string) (m : gmap string (list string)) : gmap string (list string) :=
  match m !! k with
  | Some _ => m
  | None => <[k := []]> m
  end.

Definition addDependency (dependent dependency : string) (g : Graph) : Graph :=
  {| dependencies :=
       alter (Js.setAdd dependency) dependent (ensure dependent (dependencies g));
     dependents :=
       alter (Js.setAdd dependent) dependency (ensure dependency (dependents g)) |}.

Definition removeDependencies (cell : string) (g : Graph) : Graph :=
  match dependencies g !! cell with
  | Some deps =>
      {| dependencies := delete cell (dependencies g);
         dependents :=
           fold_left (λ m dep, alter (Js.setDelete cell) dep m) deps (dependents g) |}
  | None => g
  end.

Definition getDependencies (g : Graph) (cell : string) : list string :=
  default [] (dependencies g !! cell).

Definition getDependents (g : Graph) (cell : string) : list string :=
  default [] (dependents g !! cell).

Definition clear (g : Graph) : Graph := empty.

Record Stats : Type := { totalDependencies : nat; totalCells : nat }.

Definition getStats (g : Graph) : Stats :=
  {| totalDependencies := map_fold (λ _ deps sum, sum + length deps) 0 (dependencies g);
     totalCells := size (dependencies g) |}.

(** *** Cycle detection *)

(** The three locals of [checkCircularReference] that [hasCycle] updates. *)
Record Search : Type := {
  visited : gset string;
  recursionStack : list string;
  path : list string
}.

(** [for (const dep of deps) if (hasCycle(dep)) return true;] with the
    recursive call as a parameter. *)
Fixpoint anyCycle (call : string -> Search -> option (bool * Search))
    (deps : list string) (st : Search) : option (bool * Search) :=
  match deps with
  | [] => Some (false, st)
  | dep :: rest =>
      match call dep st with
      | None => None
      | Some (true, st') => Some (true, st')
      | Some (false, st') => anyCycle call rest st'
      end
  end.

(** [hasCycle], with a bound on the depth of the recursion; [None] reports
    that the bound was reached. *)
Fixpoint hasCycle (fuel : nat) (tempGraph : gmap string (list string))
    (node : string) (st : Search) : option (bool * Search) :=
  match fuel with
  | O => None
  | S fuel' =>
      if Js.setHas node (recursionStack st) then Some (true, st)
      else if bool_decide (node ∈ visited st) then Some (false, st)
      else
        let st1 := {| visited := {[node]} ∪ visited st;
                      recursionStack := Js.setAdd node (recursionStack st);
                      path := path st ++ [node] |} in
        match anyCycle (hasCycle fuel' tempGraph) (default [] (tempGraph !! node)) st1 with
        | None => None
        | Some (true, st2) => Some (true, st2)
        | Some (false, st2) =>
            Some (false, {| visited := visited st2;
                            recursionStack := Js.setDelete node (recursionStack st2);
                            path := removelast (path st2) |})
        end
  end.

(** Every cell a search can meet: the start and the members of the sets. *)
Definition nodesOf (cell : string) (m : gmap string (list string)) : list string :=
  cell :: mjoin (snd <$> map_to_list m).

Definition searchFuel (cell : string) (m : gmap string (list string)) : nat :=
  S (length (nodesOf cell m)).

Definition initialSearch : Search :=
  {| visited := ∅; recursionStack := []; path := [] |}.

(** [new Set(array)] *)
Definition setOfList (l : list string) : list string :=
  fold_left (λ acc x, Js.setAdd x acc) l [].

(** [path.slice(path.indexOf(cell))]; a negative start counts from the end. *)
Definition sliceFromIndexOf (cell : string) (path : list string) : list string :=
  match list_find (λ x, x = cell) path with
  | Some (i, _) => drop i path
  | None => drop (length path - 1) path
  end.

Fixpoint join (sep : string) (l : list string) : string :=
  match l with
  | [] => EmptyString
  | [x] => x
  | x :: rest => x +:+ sep +:+ join sep rest
  end.

Definition cycleError (cell : string) (st : Search) : SpreadsheetError :=
  let cycle := sliceFromIndexOf cell (path st) ++ [cell] in
  CircularReferenceError ("Circular reference detected: " +:+ join " → " cycle) cycle.

(** The search of [checkCircularReference] over the temporary graph. *)
Definition searchCycle (tempGraph : gmap string (list string)) (cell : string)
  : option (option SpreadsheetError) :=
  match hasCycle (searchFuel cell tempGraph) tempGraph cell initialSearch with
  | None => None
  | Some (true, st) => Some (Some (cycleError cell st))
  | Some (false, _) => Some None
  end.

(** [checkCircularReference]: [None] is JavaScript's [null].  The search
    always completes within its bound ([searchCycle_total] below), so the
    default is never taken. *)
Definition checkCircularReference (g : Graph) (cell : string)
    (cellDependencies : list string) : option SpreadsheetError :=
  let tempGraph := <[cell := setOfList cellDependencies]> (dependencies g) in
  default None (searchCycle tempGraph cell).

(** *** Transitive dependents *)

Fixpoint forEach {A S : Type} (body : A -> S -> option S) (l : list A) (s : S) : option S :=
  match l with
  | [] => Some s
  | x :: rest =>
      match body x s with
      | None => None
      | Some s' => forEach body rest s'
      end
  end.

(** [collectDependents] on the pair of locals [(visited, result)], with a
    bound on the depth of the recursion. *)
Fixpoint collectDependents (fuel : nat) (g : Graph) (currentCell : string)
    (st : gset string * list string) : option (gset string * list string) :=
  match fuel with
  | O => None
  | S fuel' =>
      if bool_decide (currentCell ∈ st.1) then Some st
      else
        forEach
          (λ dependent st', collectDependents fuel' g dependent (st'.1, st'.2 ++ [dependent]))
          (getDependents g currentCell)
          ({[currentCell]} ∪ st.1, st.2)
  end.

(** [getAllDependents].  The traversal always completes within its bound
    ([collectDependents_total] below), so the default is never taken. *)
Definition getAllDependents (g : Graph) (cell : string) : list string :=
  match collectDependents (searchFuel cell (dependents g)) g cell (∅, []) with
  | Some (_, result) => result
  | None => []
  end.

End DependencyGraph.

(** ** engine/SpreadsheetEngine.ts *)
Module Engine.

(** Modelled from the spec: the constants of [@shared/constants], which is
    not among the sources.  The address space is 10 columns (A to J) by 5
    rows. *)
Definition GRID_ROWS : Z := 5.
Definition GRID_COLS : Z := 10.
Definition COLUMNS : list string := ["A"; "B"; "C"; "D"; "E"; "F"; "G"; "H"; "I"; "J"].

Record CellData : Type := {
  id : string;
  value : option Value;
  formula : option string;
  error : option string;
  dependents : list string;
  dependencies : list string
}.

(** [Record<string, CellData>]: the entries in the order [Object.entries]
    lists them (insertion order for cell identifiers), one per key.
    [lastModified] is a time in milliseconds; [version] is a JavaScript
    number, a binary64 value that starts at 1 and that [data.version++]
    replaces by its sum with 1, rounded as every binary64 sum is. *)
Record SpreadsheetData : Type := {
  cells : list (string * CellData);
  lastModified : Z;
  version : float
}.

(** [cells[cellId]], for a key that is not the name of a property that
    every object inherits ([constructor], [toString], ...); no cell
    identifier is such a name. *)
Fixpoint lookupCell (cellId : string) (cs : list (string * CellData)) : option CellData :=
  match cs with
  | [] => None
  | (k, c) :: rest => if decide (k = cellId) then Some c else lookupCell cellId rest
  end.

(** [cells[cellId] = cell]: an existing key keeps its place, a new one goes
    last. *)
Fixpoint storeCell (cellId : string) (cell : CellData) (cs : list (string * CellData))
  : list (string * CellData) :=
  match cs with
  | [] => [(cellId, cell)]
  | (k, c) :: rest =>
      if decide (k = cellId) then (k, cell) :: rest
      else (k, c) :: storeCell cellId cell rest
  end.

(** [delete cells[cellId]] *)
Definition deleteCell (cellId : string) (cs : list (string * CellData))
  : list (string * CellData) :=
  filter (λ kc, kc.1 ≠ cellId) cs.

(** The closure of [createSpreadsheetEngine]: the data, the graph, and the
    number of calls of [notifyChange] so far (each one runs every listener). *)
Record State : Type := {
  data : SpreadsheetData;
  dependencyGraph : DependencyGraph.Graph;
  notifications : nat
}.

(** [Array.prototype.indexOf] *)
Definition indexOf (x : string) (l : list string) : Z :=
  match list_find (λ y, y = x) l with
  | Some (i, _) => Z.of_nat i
  | None => (-1)%Z
  end.

Definition isValidCellId (cellId : string) : bool :=
  match cellId with
  | String col (String row EmptyString) =>
      if FormulaParser.isValidCellReference cellId then
        let colIndex := indexOf (String col EmptyString) COLUMNS in
        let rowIndex := (Z.of_N (Js.parseDigits (String row EmptyString)) - 1)%Z in
        (0 <=? colIndex)%Z && (colIndex <? GRID_COLS)%Z
        && (0 <=? rowIndex)%Z && (rowIndex <? GRID_ROWS)%Z
      else false
  | _ => false
  end.

Definition setCells (cs : list (string * CellData)) (s : State) : State :=
  {| data := {| cells := cs;
                lastModified := lastModified (data s);
                version := version (data s) |};
     dependencyGraph := dependencyGraph s;
     notifications := notifications s |}.

Definition setGraph (g : DependencyGraph.Graph) (s : State) : State :=
  {| data := data s; dependencyGraph := g; notifications := notifications s |}.

(** [data.lastModified = new Date(); data.version++] *)
Definition touch (now : Z) (s : State) : State :=
  {| data := {| cells := cells (data s);
                lastModified := now;
                version := (version (data s) + 1)%float |};
     dependencyGraph := dependencyGraph s;
     notifications := notifications s |}.

Definition notifyChange (s : State) : State :=
  {| data := data s;
     dependencyGraph := dependencyGraph s;
     notifications := S (notifications s) |}.

Definition rebuildDependencyGraph (s : State) : State :=
  setGraph
    (fold_left
       (λ g entry,
          let '(cellId, cell) := entry in
          if truthy (formula cell) then
            fold_left (λ g' dep, DependencyGraph.addDependency cellId dep g')
              (FormulaParser.parsed_dependencies
                 (FormulaParser.parseFormula (default EmptyString (formula cell))))
              g
          else g)
       (cells (data s)) DependencyGraph.empty)
    s.

Definition isErrorCode (v : option Value) : bool :=
  match v with
  | Some (VStr s) => Js.startsWith s "#"
  | _ => false
  end.

Definition getRawValue (d : SpreadsheetData) (cellId : string) : option Value :=
  match lookupCell cellId (cells d) with
  | None => None
  | Some cell =>
      if truthy (error cell) && isErrorCode (value cell) then value cell
      else if truthy (error cell) then VStr <$> error cell
      else value cell
  end.

Definition get (s : State) (cellId : string) : option CellData :=
  lookupCell cellId (cells (data s)).

Definition getFormula (s : State) (cellId : string) : option string :=
  lookupCell cellId (cells (data s)) ≫= formula.

Section WithHost.

Context {host : JsHost}.

(** [cell.error], else the rendered [cell.value], else the empty string. *)
Definition getDisplayValue (s : State) (cellId : string) : string :=
  match lookupCell cellId (cells (data s)) with
  | None => EmptyString
  | Some cell =>
      if truthy (error cell) then default EmptyString (error cell)
      else match value cell with
           | None => EmptyString
           | Some v => FormulaParser.valueToString v
           end
  end.

(** One turn of the loop of [recalculateDependents]: the stored formula of
    [dependent] is evaluated over the current cells and its value and error
    are overwritten in place. *)
Definition recalculateCell (cs : list (string * CellData)) (dependent : string)
  : list (string * CellData) :=
  match lookupCell dependent cs with
  | Some cell =>
      if truthy (formula cell) then
        let result :=
          FormulaParser.evaluateFormula (default EmptyString (formula cell))
            (getRawValue {| cells := cs; lastModified := 0; version := 0%float |}) in
        storeCell dependent
          {| id := id cell;
             value := Some (FormulaParser.value result);
             formula := formula cell;
             error := FormulaParser.error result;
             dependents := dependents cell;
             dependencies := dependencies cell |}
          cs
      else cs
  | None => cs
  end.

Definition recalculateDependents (cellId : string) (s : State) : State :=
  setCells
    (fold_left recalculateCell
       (DependencyGraph.getAllDependents (dependencyGraph s) cellId)
       (cells (data s)))
    s.

Definition set (s : State) (cellId : string) (value_ : option Value)
    (formula_ : option string) (now : Z) : State * bool :=
  if negb (isValidCellId cellId) then (s, false)
  else
    let oldCell := lookupCell cellId (cells (data s)) in
    let oldDependents := default [] (dependents <$> oldCell) in
    let s0 :=
      if truthy (oldCell ≫= formula)
      then setGraph (DependencyGraph.removeDependencies cellId (dependencyGraph s)) s
      else s in
    if truthy formula_ then
      let formulaText := default EmptyString formula_ in
      match FormulaParser.validateFormula formulaText with
      | Some formulaError =>
          (notifyChange
             (setCells
                (storeCell cellId
                   {| id := cellId; value := None; formula := Some formulaText;
                      error := Some (FormulaParser.message formulaError);
                      dependents := oldDependents; dependencies := [] |}
                   (cells (data s0))) s0),
           false)
      | None =>
          let deps := FormulaParser.parsed_dependencies (FormulaParser.parseFormula formulaText) in
          match DependencyGraph.checkCircularReference (dependencyGraph s0) cellId deps with
          | Some circularError =>
              (notifyChange
                 (setCells
                    (storeCell cellId
                       {| id := cellId; value := None; formula := Some formulaText;
                          error := Some (FormulaParser.message circularError);
                          dependents := oldDependents; dependencies := [] |}
                       (cells (data s0))) s0),
               false)
          | None =>
              let s1 :=
                setGraph
                  (fold_left (λ g dep, DependencyGraph.addDependency cellId dep g)
                     deps (dependencyGraph s0)) s0 in
              let result := FormulaParser.evaluateFormula formulaText (getRawValue (data s1)) in
              let cell :=
                {| id := cellId; value := Some (FormulaParser.value result);
                   formula := Some formulaText; error := FormulaParser.error result;
                   dependents := oldDependents; dependencies := deps |} in
              let s2 := setCells (storeCell cellId cell (cells (data s1))) s1 in
              if truthy (FormulaParser.error result) then (notifyChange s2, false)
              else (notifyChange (recalculateDependents cellId (touch now s2)), true)
          end
      end
    else
      let cell :=
        {| id := cellId; value := value_; formula := None; error := None;
           dependents := oldDependents; dependencies := [] |} in
      let s1 := setCells (storeCell cellId cell (cells (data s0))) s0 in
      (notifyChange (recalculateDependents cellId (touch now s1)), true).

Definition clear (s : State) (now : Z) : State :=
  notifyChange
    (touch now (setGraph (DependencyGraph.clear (dependencyGraph s)) (setCells [] s))).

Definition clearCell (s : State) (cellId : string) (now : Z) : State * bool :=
  if negb (isValidCellId cellId) then (s, false)
  else
    match lookupCell cellId (cells (data s)) with
    | None => (s, true)
    | Some _ =>
        let s1 := setGraph (DependencyGraph.removeDependencies cellId (dependencyGraph s)) s in
        let s2 := setCells (deleteCell cellId (cells (data s1))) s1 in
        (notifyChange (touch now (recalculateDependents cellId s2)), true)
    end.

End WithHost.

Record EngineStats : Type := {
  totalCells : nat;
  formulaCells : nat;
  calculations : nat
}.

Definition getStats (s : State) : EngineStats :=
  {| totalCells := length (cells (data s));
     formulaCells := length (filter (λ kc, truthy (formula kc.2) = true) (cells (data s)));
     calculations := DependencyGraph.totalDependencies (DependencyGraph.getStats (dependencyGraph s)) |}.

(** [exportData]: a new record with a shallow copy of the cells. *)
Definition exportData (s : State) : SpreadsheetData :=
  {| cells := cells (data s);
     lastModified := lastModified (data s);
     version := version (data s) |}.

Definition importData (s : State) (newData : SpreadsheetData) : State :=
  notifyChange
    (rebuildDependencyGraph
       {| data := {| cells := cells newData;
                     lastModified := lastModified newData;
                     version := version newData |};
          dependencyGraph := dependencyGraph s;
          notifications := notifications s |}).

(** [createSpreadsheetEngine(initialData?)], created at time [now]. *)
Definition createSpreadsheetEngine (initialData : option SpreadsheetData) (now : Z) : State :=
  rebuildDependencyGraph
    {| data := default {| cells := []; lastModified := now; version := 1%float |} initialData;
       dependencyGraph := DependencyGraph.empty;
       notifications := 0 |}.

End Engine.

(** ** The graph as JavaScript objects

    [checkCircularReference] copies the forward map with [new Map(...)],
    which shares the [Set] objects of the original.  To state what the call
    leaves untouched, the two maps and their sets are placed in a heap of
    objects addressed by their allocation index.  The locals of the search
    ([visited], [recursionStack], [path]) are new objects that nothing else
    refers to; they stay outside the heap. *)
Module GraphStore.

Inductive Obj : Type :=
| MapObj (entries : gmap string nat)
| SetObj (members : list string).

(** The two constants of the closure of [createDependencyGraph]. *)
Record Closure : Type := {
  dependenciesRef : nat;
  dependentsRef : nat
}.

Definition alloc (o : Obj) (h : list Obj) : nat * list Obj := (length h, h ++ [o]).

Definition entriesOf (h : list Obj) (l : nat) : gmap string nat :=
  match h !! l with
  | Some (MapObj e) => e
  | _ => ∅
  end.

Definition membersOf (h : list Obj) (l : nat) : option (list string) :=
  match h !! l with
  | Some (SetObj m) => Some m
  | _ => None
  end.

(** The map of sets that a [Map] object denotes: what [get] and the
    iteration of the returned set read. *)
Definition view (h : list Obj) (mapRef : nat) : gmap string (list string) :=
  omap (membersOf h) (entriesOf h mapRef).

Definition graphOf (h : list Obj) (c : Closure) : DependencyGraph.Graph :=
  {| DependencyGraph.dependencies := view h (dependenciesRef c);
     DependencyGraph.dependents := view h (dependentsRef c) |}.

(** [map.set(k, new Set(...))]-style update of a [Map] object. *)
Definition mapSet (mapRef : nat) (k : string) (v : nat) (h : list Obj) : list Obj :=
  match h !! mapRef with
  | Some (MapObj e) => <[mapRef := MapObj (<[k := v]> e)]> h
  | _ => h
  end.

(** [set.add(x)] on a [Set] object. *)
Definition setObjAdd (setRef : nat) (x : string) (h : list Obj) : list Obj :=
  match h !! setRef with
  | Some (SetObj m) => <[setRef := SetObj (Js.setAdd x m)]> h
  | _ => h
  end.

Definition createDependencyGraph (h : list Obj) : Closure * list Obj :=
  let '(d, h1) := alloc (MapObj ∅) h in
  let '(t, h2) := alloc (MapObj ∅) h1 in
  ({| dependenciesRef := d; dependentsRef := t |}, h2).

(** [if (!m.has(k)) m.set(k, new Set()); m.get(k).add(x)] *)
Definition ensureAdd (mapRef : nat) (k x : string) (h : list Obj) : list Obj :=
  let h1 :=
    match entriesOf h mapRef !! k with
    | Some _ => h
    | None => let '(s, h') := alloc (SetObj []) h in mapSet mapRef k s h'
    end in
  match entriesOf h1 mapRef !! k with
  | Some s => setObjAdd s x h1
  | None => h1
  end.

Definition addDependency (c : Closure) (dependent dependency : string) (h : list Obj)
  : list Obj :=
  ensureAdd (dependentsRef c) dependency dependent
    (ensureAdd (dependenciesRef c) dependent dependency h).

(** [checkCircularReference] with the heap it leaves behind. *)
Definition checkCircularReference (c : Closure) (cell : string)
    (cellDependencies : list string) (h : list Obj)
  : option FormulaParser.SpreadsheetError * list Obj :=
  let '(tempGraph, h1) := alloc (MapObj (entriesOf h (dependenciesRef c))) h in
  let '(newSet, h2) := alloc (SetObj (DependencyGraph.setOfList cellDependencies)) h1 in
  let h3 := mapSet tempGraph cell newSet h2 in
  (default None (DependencyGraph.searchCycle (view h3 tempGraph) cell), h3).

(** No reference of the closure dangles: both maps are allocated, and so is
    every set they hold. *)
Definition allocated (h : list Obj) (c : Closure) : Prop :=
  (∃ e, h !! dependenciesRef c = Some (MapObj e)) ∧
  (∃ e, h !! dependentsRef c = Some (MapObj e)) ∧
  map_Forall (λ _ l, l < length h) (entriesOf h (dependenciesRef c)) ∧
  map_Forall (λ _ l, l < length h) (entriesOf h (dependentsRef c)).

End GraphStore.

(** ** A host for closed examples

    [integerHost] agrees with JavaScript on the decimal numerals of the
    non-negative integers below 10^15: it parses and evaluates such a numeral
    to its number and renders such a number back.  Any other text is
    not-a-number for [parseFloat] and is refused by the evaluator. *)
Module IntegerHost.

Definition isNumeral (s : string) : bool :=
  negb (bool_decide (s = EmptyString))
  && Js.forallb Js.isDigit s
  && (String.length s <=? 15)%nat
  && (bool_decide (s = "0") || negb (Js.startsWith s "0")).

Definition ofN (n : N) : float := PrimFloat.of_uint63 (Uint63.of_Z (Z.of_N n)).

Definition toN (f : float) : option N :=
  match Prim2SF f with
  | S754_zero _ => Some 0%N
  | S754_finite false m e =>
      if (0 <=? e)%Z then Some (N.pos m * 2 ^ Z.to_N e)%N
      else
        let d := (2 ^ Z.to_N (- e))%N in
        if (N.pos m mod d =? 0)%N then Some (N.pos m / d)%N else None
  | _ => None
  end.

Definition parse (s : string) : float :=
  if isNumeral s then ofN (Js.parseDigits s) else PrimFloat.nan.

Definition render (f : float) : string :=
  match toN f with
  | Some n => Js.showN n
  | None => "NaN"
  end.

Definition run (s : string) : EvalOutcome :=
  if isNumeral s then EvalNumber (ofN (Js.parseDigits s)) else EvalThrows.

Definition integerHost : JsHost :=
  {| parseFloat := parse; numberToString := render; runExpression := run |}.

End IntegerHost.

(** ** The exported helpers of engine/SpreadsheetEngine.ts *)
Module CellIds.

(** The object [{ row, col }] that [parseCellId] returns. *)
Record CellPosition : Type := { row : Z; col : Z }.

(** [COLUMNS[i]] rendered in a template literal; an index outside the array
    gives [undefined]. *)
Definition columnName (i : Z) : string :=
  if (i <? 0)%Z then "undefined" else default "undefined" (Engine.COLUMNS !! Z.to_nat i).

(** [getCellId] on integer arguments; [None] is the thrown [Error]. *)
Definition getCellId (row col : Z) : option string :=
  if (row <? 0)%Z || (row >=? Engine.GRID_ROWS)%Z || (col <? 0)%Z || (col >=? Engine.GRID_COLS)%Z
  then None
  else Some (columnName col +:+ Js.showN (Z.to_N (row + 1))).

(** [parseCellId]; [None] is JavaScript's [null]. *)
Definition parseCellId (cellId : string) : option CellPosition :=
  match cellId with
  | String col (String row EmptyString) =>
      if FormulaParser.isValidCellReference cellId then
        let colIndex := Engine.indexOf (String col EmptyString) Engine.COLUMNS in
        let rowIndex := (Z.of_N (Js.parseDigits (String row EmptyString)) - 1)%Z in
        if (colIndex =? -1)%Z || (rowIndex <? 0)%Z || (rowIndex >=? Engine.GRID_ROWS)%Z
        then None
        else Some {| row := rowIndex; col := colIndex |}
      else None
  | _ => None
  end.

End CellIds.

(** ** components/SpreadsheetGrid.tsx: keyboard navigation *)
Module SpreadsheetGrid.

(** [selectedCell.match(/([A-J])([1-5])/)]: the first place where a column
    letter is followed by a row digit, with the two groups. *)
Fixpoint currentPos (selectedCell : string) : option (ascii * ascii) :=
  match selectedCell with
  | String c rest =>
      match rest with
      | String r _ =>
          if FormulaParser.isValidCellReference (String c (String r EmptyString))
          then Some (c, r)
          else currentPos rest
      | EmptyString => None
      end
  | EmptyString => None
  end.

(** The [switch] on [e.key]: the new column and row index, or [None] for a
    key that is no arrow. *)
Definition arrowTarget (key : string) (colIndex rowIndex : Z) : option (Z * Z) :=
  if decide (key = "ArrowUp") then Some (colIndex, Z.max 0 (rowIndex - 1))
  else if decide (key = "ArrowDown")
       then Some (colIndex, Z.min (Engine.GRID_ROWS - 1) (rowIndex + 1))
  else if decide (key = "ArrowLeft") then Some (Z.max 0 (colIndex - 1), rowIndex)
  else if decide (key = "ArrowRight")
       then Some (Z.min (Z.of_nat (length Engine.COLUMNS) - 1) (colIndex + 1), rowIndex)
  else None.

(** [handleArrowKeys]: [Some newCellId] when [onCellSelect(newCellId)] is
    called, [None] when the handler returns without selecting. *)
Definition handleArrowKeys (editingCell : option string) (selectedCell key : string)
  : option string :=
  if truthy editingCell then None
  else
    match currentPos selectedCell with
    | None => None
    | Some (col, row) =>
        let colIndex := Engine.indexOf (String col EmptyString) Engine.COLUMNS in
        let rowIndex := (Z.of_N (Js.parseDigits (String row EmptyString)) - 1)%Z in
        match arrowTarget key colIndex rowIndex with
        | None => None
        | Some (newColIndex, newRowIndex) =>
            if bool_decide (newColIndex ≠ colIndex ∨ newRowIndex ≠ rowIndex)
            then Some (CellIds.columnName newColIndex
                       +:+ Js.showN (Z.to_N (newRowIndex + 1)))
            else None
        end
    end.

End SpreadsheetGrid.

(** ** Vocabulary of the properties *)

(** The fixed address space: a column letter A to J followed by a row digit
    1 to 5. *)
Definition inAddressSpace (cellId : string) : Prop :=
  ∃ col row, cellId = String col (String row EmptyString)
    ∧ 65 ≤ nat_of_ascii col ≤ 74 ∧ 49 ≤ nat_of_ascii row ≤ 53.

(** A cell record with another formula text. *)
Definition withFormula (f : option string) (cell : Engine.CellData) : Engine.CellData :=
  {| Engine.id := Engine.id cell;
     Engine.value := Engine.value cell;
     Engine.formula := f;
     Engine.error := Engine.error cell;
     Engine.dependents := Engine.dependents cell;
     Engine.dependencies := Engine.dependencies cell |}.

Definition withCells (cs : list (string * Engine.CellData)) (d : Engine.SpreadsheetData)
  : Engine.SpreadsheetData :=
  {| Engine.cells := cs;
     Engine.lastModified := Engine.lastModified d;
     Engine.version := Engine.version d |}.

(** A fresh engine, created at time 0. *)
Definition freshEngine : Engine.State := Engine.createSpreadsheetEngine None 0.

(** A stored cell whose evaluation failed on a text operand. *)
Definition erroredCell : Engine.CellData :=
  {| Engine.id := "A1"; Engine.value := Some (VStr "#VALUE!");
     Engine.formula := Some "=B1+1";
     Engine.error := Some "Non-numeric value in cell B1: Hello";
     Engine.dependents := []; Engine.dependencies := ["B1"] |}.

Definition erroredData : Engine.SpreadsheetData :=
  {| Engine.cells := [("A1", erroredCell)]; Engine.lastModified := 0;
     Engine.version := 2%float |}.

(** The cells that an aggregate call resolves, in the order in which
    [evaluateFormula] resolves them: the members of the ranges of the
    argument text, then the cells listed on their own. *)
Definition argumentCells (argsString : string) : list string :=
  let rangeMatches := Js.matchAll FormulaParser.RANGE_REGEX argsString in
  mjoin (map (λ m : nat * (string * string * string),
                FormulaParser.expandRange (snd (fst (snd m))) (snd (snd m)))
             rangeMatches)
  ++ map snd
       (Js.matchAll FormulaParser.CELL_REGEX
          (fold_left (λ s m, Js.replaceFirst (fst (fst (snd m))) EmptyString s)
             rangeMatches argsString)).

(** A referenced cell that an aggregate skips: it is missing, or its value
    is not a number. *)
Definition skipped {host : JsHost} (getCellValue : string -> option Value) (cellId : string) : Prop :=
  match getCellValue cellId with
  | None => True
  | Some (VNum n) => PrimFloat.is_nan n = true
  | Some (VStr s) => PrimFloat.is_nan (parseFloat s) = true
  end.

Definition aggregateNames : list string := ["SUM"; "AVERAGE"; "MIN"; "MAX"; "COUNT"].

(** An accessor over a sheet whose only cell, A2, holds a text. *)
Definition textOnly (cellId : string) : option Value :=
  if decide (cellId = "A2") then Some (VStr "Hello") else None.

(** The stages of a formula write of [set], named so that its outcome can
    be stated: the state after the old edges of the target are detached, the
    dependencies of the new formula, the state after they are registered,
    the evaluation made there and the cell record built from it. *)
Section WriteStages.

Context {host : JsHost}.

Definition detached (s : Engine.State) (cellId : string) : Engine.State :=
  if truthy (Engine.lookupCell cellId (Engine.cells (Engine.data s)) ≫= Engine.formula)
  then Engine.setGraph
         (DependencyGraph.removeDependencies cellId (Engine.dependencyGraph s)) s
  else s.

Definition formulaDependencies (f : string) : list string :=
  FormulaParser.parsed_dependencies (FormulaParser.parseFormula f).

Definition registered (s : Engine.State) (cellId f : string) : Engine.State :=
  Engine.setGraph
    (fold_left (λ g dep, DependencyGraph.addDependency cellId dep g)
       (formulaDependencies f) (Engine.dependencyGraph (detached s cellId)))
    (detached s cellId).

Definition evaluated (s : Engine.State) (cellId f : string) : FormulaParser.EvaluationResult :=
  FormulaParser.evaluateFormula f (Engine.getRawValue (Engine.data (registered s cellId f))).

Definition evaluatedCell (s : Engine.State) (cellId f : string) : Engine.CellData :=
  {| Engine.id := cellId;
     Engine.value := Some (FormulaParser.value (evaluated s cellId f));
     Engine.formula := Some f;
     Engine.error := FormulaParser.error (evaluated s cellId f);
     Engine.dependents :=
       default [] (Engine.dependents <$>
                     Engine.lookupCell cellId (Engine.cells (Engine.data s)));
     Engine.dependencies := formulaDependencies f |}.

(** A formula write that reaches the evaluation: the identifier is valid,
    the formula text is not empty, it passes [validateFormula], and the
    cycle check reports nothing. *)
Definition reachesEvaluation (s : Engine.State) (cellId f : string) : Prop :=
  inAddressSpace cellId ∧
  truthy (Some f) = true ∧
  FormulaParser.validateFormula f = None ∧
  DependencyGraph.checkCircularReference
    (Engine.dependencyGraph (detached s cellId)) cellId (formulaDependencies f) = None.

End WriteStages.

(** The stored error message of a cell. *)
Definition cellError (s : Engine.State) (cellId : string) : option string :=
  Engine.get s cellId ≫= Engine.error.

Definition cellValue (s : Engine.State) (cellId : string) : option Value :=
  Engine.get s cellId ≫= Engine.value.

(** Three writes on a fresh engine under [integerHost]: C1 reads the missing
    A1, B1 receives a text, and A1 receives a formula over B1 that fails to
    evaluate. *)
Definition staleScenario0 : Engine.State :=
  (Engine.set (host := IntegerHost.integerHost)
     (Engine.set (host := IntegerHost.integerHost) freshEngine "C1" None (Some "=A1") 1).1
     "B1" (Some (VStr "Hello")) None 2).1.

Definition staleScenario : Engine.State * bool :=
  Engine.set (host := IntegerHost.integerHost) staleScenario0 "A1" None (Some "=B1+1") 3.

(** The recovery scenario on a fresh engine: A1 receives the formula [=B1],
    B1 receives the formula [=A1], then B1 receives the number 100. *)
Section Recovery.

Context {host : JsHost}.

Definition recovery1 (t1 : Z) : Engine.State * bool :=
  Engine.set freshEngine "A1" None (Some "=B1") t1.

Definition recovery2 (t1 t2 : Z) : Engine.State * bool :=
  Engine.set (recovery1 t1).1 "B1" None (Some "=A1") t2.

Definition recovery3 (t1 t2 t3 : Z) : Engine.State * bool :=
  Engine.set (recovery2 t1 t2).1 "B1" (Some (VNum 100)) None t3.

End Recovery.

(** The engine of the recovery scenario after its rejected second write,
    under [integerHost]. *)
Definition rejectedCycleEngine : Engine.State :=
  (recovery2 (host := IntegerHost.integerHost) 1 2).1.

(** The direct-dependent edge of the graph: [y] is a direct dependent of
    [x]. *)
Definition dependentEdge (g : DependencyGraph.Graph) (x y : string) : Prop :=
  y ∈ DependencyGraph.getDependents g x.

(** What a completed traversal has done between the locals [(V, R)] and
    [(V', R')]: it expanded the cells of [N], each once and none of them
    visited before; it appended [L], which lists [L0] and the direct
    dependents of every expanded cell; every direct dependent of an
    expanded cell is visited; every expanded cell is reachable from a root. *)
Definition traversed (g : DependencyGraph.Graph) (roots : list string)
    (V : gset string) (R : list string) (V' : gset string) (R' L0 : list string) : Prop :=
  ∃ N L, V' = V ∪ list_to_set N ∧ NoDup N ∧ (∀ v, v ∈ N → v ∉ V)
       ∧ R' = R ++ L ∧ L ≡ₚ L0 ++ mjoin (DependencyGraph.getDependents g <$> N)
       ∧ (∀ v, v ∈ N → ∀ d, dependentEdge g v d → d ∈ V')
       ∧ (∀ v, v ∈ N → ∃ r, r ∈ roots ∧ rtc (dependentEdge g) r v).

(** A list in an order of discovery from [c]: every entry is a direct
    dependent of [c] or of a cell listed before it. *)
Definition discoveryOrder (g : DependencyGraph.Graph) (c : string) (L : list string) : Prop :=
  ∀ i x, L !! i = Some x →
    ∃ y, dependentEdge g y x ∧ (y = c ∨ ∃ j, j < i ∧ L !! j = Some y).

(** B1 and C1 read A1, and D1 reads both. *)
Definition diamond : DependencyGraph.Graph :=
  DependencyGraph.addDependency "D1" "C1"
    (DependencyGraph.addDependency "D1" "B1"
       (DependencyGraph.addDependency "C1" "A1"
          (DependencyGraph.addDependency "B1" "A1" DependencyGraph.empty))).

(** A store with the two maps of a graph in which A1 reads B1 and B1 reads
    C1. *)
Definition chainStore : GraphStore.Closure * list GraphStore.Obj :=
  let '(c, h) := GraphStore.createDependencyGraph [] in
  (c, GraphStore.addDependency c "B1" "C1" (GraphStore.addDependency c "A1" "B1" h)).

(** The edges that a stored formula calls for: the references of the
    formula text, when there is a formula and it has references. *)
Definition formulaEdges (cell : Engine.CellData) : option (list string) :=
  if truthy (Engine.formula cell) then
    match formulaDependencies (default EmptyString (Engine.formula cell)) with
    | [] => None
    | deps => Some deps
    end
  else None.

Definition formulaEdgesAt (cs : list (string * Engine.CellData)) (k : string)
  : option (list string) :=
  Engine.lookupCell k cs ≫= formulaEdges.

(** A [Record<string, CellData>] holds one entry per key. *)
Definition uniqueKeys (s : Engine.State) : Prop :=
  NoDup (Engine.cells (Engine.data s)).*1.

(** The forward map of the graph holds, for every cell, exactly the
    references of its stored formula. *)
Definition graphMatchesFormulas (s : Engine.State) : Prop :=
  ∀ k, DependencyGraph.dependencies (Engine.dependencyGraph s) !! k
       = formulaEdgesAt (Engine.cells (Engine.data s)) k.

(** A write that is not turned down by [validateFormula] or by the cycle
    check: a literal write, or a formula write that reaches the evaluation. *)
Definition registersItsEdges (s : Engine.State) (cellId : string) (f : option string) : Prop :=
  truthy f = false ∨ ∃ text, f = Some text ∧ reachesEvaluation s cellId text.

(** Export followed by import into a fresh engine. *)
Definition reimported (s : Engine.State) : Engine.State :=
  Engine.importData freshEngine (Engine.exportData s).

(** One turn of the loop of [rebuildDependencyGraph]. *)
Definition rebuildStep (g : DependencyGraph.Graph) (entry : string * Engine.CellData)
  : DependencyGraph.Graph :=
  let '(cellId, cell) := entry in
  if truthy (Engine.formula cell) then
    fold_left (λ g' dep, DependencyGraph.addDependency cellId dep g')
      (FormulaParser.parsed_dependencies
         (FormulaParser.parseFormula (default EmptyString (Engine.formula cell))))
      g
  else g.

(** *** Vocabulary of the graph, parser and engine invariants *)

Definition consistent (g : DependencyGraph.Graph) : Prop :=
  ∀ a b, b ∈ DependencyGraph.getDependencies g a ↔ a ∈ DependencyGraph.getDependents g b.

Definition dependsOn (m : gmap string (list string)) (x y : string) : Prop :=
  y ∈ default [] (m !! x).

Definition chained (m : gmap string (list string)) (st : DependencyGraph.Search) : Prop :=
  (∀ i x y, DependencyGraph.path st !! i = Some x →
            DependencyGraph.path st !! S i = Some y → dependsOn m x y) ∧
  (∀ x, x ∈ DependencyGraph.recursionStack st ↔ x ∈ DependencyGraph.path st) ∧
  NoDup (DependencyGraph.path st).

Definition finishedSafe (m : gmap string (list string)) (st : DependencyGraph.Search) : Prop :=
  ∀ v, v ∈ DependencyGraph.visited st → v ∉ DependencyGraph.recursionStack st →
       Acc (λ y x, dependsOn m x y) v.


(** What a search that reports a cycle leaves in [path]: the last cell of
    the path refers to a cell already on it. *)
Definition closesOn (m : gmap string (list string)) (st : DependencyGraph.Search) : Prop :=
  ∃ p n, last (DependencyGraph.path st) = Some p ∧ dependsOn m p n ∧
         n ∈ DependencyGraph.path st.

(** The graph that [checkCircularReference] searches: the forward map with
    the entry of [cell] replaced by the proposed dependencies. *)
Definition proposedGraph (g : DependencyGraph.Graph) (cell : string)
    (cellDependencies : list string) : gmap string (list string) :=
  <[cell := DependencyGraph.setOfList cellDependencies]> (DependencyGraph.dependencies g).

(** No cell of the forward map [m] refers to itself through one or more
    references. *)
Definition acyclic (m : gmap string (list string)) : Prop :=
  ∀ n, ¬ tc (dependsOn m) n n.

(** A list in which every element refers to the next. *)
Definition referenceChain (m : gmap string (list string)) (l : list string) : Prop :=
  ∀ i x y, l !! i = Some x → l !! S i = Some y → dependsOn m x y.

(** A graph with one edge: B1 reads A1. *)
Definition oneEdge : DependencyGraph.Graph :=
  DependencyGraph.addDependency "B1" "A1" DependencyGraph.empty.

(** The number of occurrences of a character in a string. *)
Fixpoint countChar (c : ascii) (s : string) : Z :=
  match s with
  | EmptyString => 0
  | String c' rest => (if bool_decide (c' = c) then 1 else 0) + countChar c rest
  end.

(** The error codes that [evaluateExpression] can return. *)
Definition expressionErrorCodes : list string := ["#NUM!"; "#VALUE!"; "#ERROR!"].

(** The record that one turn of [recalculateDependents] leaves for a stored
    cell: a cell with a formula gets the value and error of a new
    evaluation over the cells [cs]; any other cell is kept. *)
Definition recalculated {host : JsHost} (cs : list (string * Engine.CellData))
    (cell : Engine.CellData) : Engine.CellData :=
  if truthy (Engine.formula cell) then
    let result :=
      FormulaParser.evaluateFormula (default EmptyString (Engine.formula cell))
        (Engine.getRawValue {| Engine.cells := cs; Engine.lastModified := 0;
                               Engine.version := 0%float |}) in
    {| Engine.id := Engine.id cell;
       Engine.value := Some (FormulaParser.value result);
       Engine.formula := Engine.formula cell;
       Engine.error := FormulaParser.error result;
       Engine.dependents := Engine.dependents cell;
       Engine.dependencies := Engine.dependencies cell |}
  else cell.

(** Two records of a cell that differ at most in value and error. *)
Definition sameButResult (c c' : Engine.CellData) : Prop :=
  Engine.id c' = Engine.id c ∧ Engine.formula c' = Engine.formula c ∧
  Engine.dependents c' = Engine.dependents c ∧
  Engine.dependencies c' = Engine.dependencies c.

(** The record that a literal write stores. *)
Definition literalCell (s : Engine.State) (cellId : string) (v : option Value)
  : Engine.CellData :=
  {| Engine.id := cellId; Engine.value := v; Engine.formula := None; Engine.error := None;
     Engine.dependents :=
       default [] (Engine.dependents <$>
                     Engine.lookupCell cellId (Engine.cells (Engine.data s)));
     Engine.dependencies := [] |}.

(** The record that a rejected formula write stores. *)
Definition rejectedCell (s : Engine.State) (cellId f message : string) : Engine.CellData :=
  {| Engine.id := cellId; Engine.value := None; Engine.formula := Some f;
     Engine.error := Some message;
     Engine.dependents :=
       default [] (Engine.dependents <$>
                     Engine.lookupCell cellId (Engine.cells (Engine.data s)));
     Engine.dependencies := [] |}.

(** An engine created over [erroredData]. *)
Definition erroredEngine : Engine.State := Engine.createSpreadsheetEngine (Some erroredData) 0.

(** A write whose formula, if there is one, names rows of at most six
    digits: [parseInt] reads such a row exactly and a range between two of
    them has fewer than a million cells, so the loops of [expandRange] and
    the array they fill stay within what a JavaScript runtime can hold. *)
Definition shortRows (f : option string) : Prop :=
  Forall (λ m : nat * string, String.length m.2 ≤ 7)
    (Js.matchAll FormulaParser.CELL_REGEX (Js.sliceFrom 1 (default EmptyString f))).

(** Every cell with an entry in the forward map of the graph holds a
    formula. *)
Definition keysHaveFormulas (s : Engine.State) : Prop :=
  ∀ k, is_Some (DependencyGraph.dependencies (Engine.dependencyGraph s) !! k) →
       truthy (Engine.lookupCell k (Engine.cells (Engine.data s)) ≫= Engine.formula) = true.

(** The invariant of the engine: one record per key, the two maps of the
    graph mirror each other, the graph has no cycle, and only cells with a
    formula have outgoing edges. *)
Definition wellFormed (s : Engine.State) : Prop :=
  uniqueKeys s ∧ consistent (Engine.dependencyGraph s) ∧
  acyclic (DependencyGraph.dependencies (Engine.dependencyGraph s)) ∧
  keysHaveFormulas s.

(** The states that an engine created without initial data goes through
    under [set], [clearCell] and [clear]. *)
Inductive reachable {host : JsHost} : Engine.State → Prop :=
| reachable_fresh now : reachable (Engine.createSpreadsheetEngine None now)
| reachable_set s cellId v f now :
    reachable s → reachable (Engine.set s cellId v f now).1
| reachable_clearCell s cellId now :
    reachable s → reachable (Engine.clearCell s cellId now).1
| reachable_clear s now :
    reachable s → reachable (Engine.clear s now).

(** Two grid positions that are neighbours in a row or in a column. *)
Definition adjacent (p q : CellIds.CellPosition) : Prop :=
  (Z.abs (CellIds.row q - CellIds.row p) + Z.abs (CellIds.col q - CellIds.col p) = 1)%Z.

(** A character that [tokenize] keeps inside a token: no operator and no
    space. *)
Definition isTokenChar (c : ascii) : bool :=
  negb (bool_decide (c ∈ FormulaParser.OPERATORS)) && negb (bool_decide (c = " "%char)).

(** A well-formed token: a single operator character, or a non-empty text
    of token characters. *)
Definition isToken (t : string) : Prop :=
  (∃ c, c ∈ FormulaParser.OPERATORS ∧ t = String c EmptyString) ∨
  (t ≠ EmptyString ∧ Js.forallb isTokenChar t = true).

(** * Properties *)

#[local] Set Warnings "-clear-no-such-hyp".

(** ** The checks of the repository's test files, replayed *)

Example test_extract_single : FormulaParser.extractCellReferences "=A1" = ["A1"].
Proof. reflexivity. Qed.

Example test_extract_duplicates : FormulaParser.extractCellReferences "=A1+A1" = ["A1"].
Proof. reflexivity. Qed.

Example test_extract_complex :
  FormulaParser.extractCellReferences "=(A1+B2)*C3/D4" = ["A1"; "B2"; "C3"; "D4"].
Proof. reflexivity. Qed.

Example test_extract_none : FormulaParser.extractCellReferences "=10+20" = [].
Proof. reflexivity. Qed.

Example test_valid_references :
  map FormulaParser.isValidCellReference ["A1"; "J5"; "E3"; "Z1"; "A0"; "A6"; "AA1"; "1A"]
  = [true; true; true; false; false; false; false; false].
Proof. reflexivity. Qed.

Example test_parse_non_formula :
  FormulaParser.parseFormula "Hello"
  = {| FormulaParser.tokens := ["Hello"]; FormulaParser.parsed_dependencies := [] |}.
Proof. reflexivity. Qed.

Example test_parse_simple :
  FormulaParser.parsed_dependencies (FormulaParser.parseFormula "=A1+B1") = ["A1"; "B1"].
Proof. reflexivity. Qed.

Example test_validate :
  map FormulaParser.validateFormula ["=A1+B1"; "=(A1+B1"; "=A1+Z9"; "Hello"]
  = [None;
     Some (FormulaParser.FormulaError "Unmatched opening parenthesis");
     Some (FormulaParser.ReferenceError "Invalid cell reference: Z9" "Z9");
     None].
Proof. reflexivity. Qed.

Example test_sum_dependencies :
  let r := FormulaParser.evaluateFormula (host := IntegerHost.integerHost)
             "=SUM(A1:A3)" textOnly in
  FormulaParser.value r = VNum 0 ∧ FormulaParser.error r = None ∧
  FormulaParser.dependencies r ≡ₚ ["A1"; "A2"; "A3"].
Proof.
  split; [vm_compute; reflexivity|]. split; [vm_compute; reflexivity|].
  change (["A1"; "A3"; "A2"] ≡ₚ ["A1"; "A2"; "A3"]). constructor. apply perm_swap.
Qed.

Example test_graph_add :
  let g := DependencyGraph.addDependency "A1" "C1"
             (DependencyGraph.addDependency "A1" "B1" DependencyGraph.empty) in
  DependencyGraph.getDependencies g "A1" = ["B1"; "C1"] ∧
  DependencyGraph.getDependents g "B1" = ["A1"].
Proof. split; reflexivity. Qed.

Example test_graph_remove :
  let g := DependencyGraph.removeDependencies "A1"
             (DependencyGraph.addDependency "A1" "C1"
                (DependencyGraph.addDependency "A1" "B1" DependencyGraph.empty)) in
  DependencyGraph.getDependencies g "A1" = [] ∧
  DependencyGraph.getDependents g "B1" = [] ∧
  DependencyGraph.getDependents g "C1" = [].
Proof. repeat split; reflexivity. Qed.

Example test_graph_cycles :
  let g := DependencyGraph.addDependency "B1" "C1"
             (DependencyGraph.addDependency "A1" "B1" DependencyGraph.empty) in
  DependencyGraph.checkCircularReference DependencyGraph.empty "A1" ["A1"]
    = Some (FormulaParser.CircularReferenceError
              "Circular reference detected: A1 → A1" ["A1"; "A1"]) ∧
  DependencyGraph.checkCircularReference g "C1" ["A1"]
    = Some (FormulaParser.CircularReferenceError
              "Circular reference detected: C1 → A1 → B1 → C1" ["C1"; "A1"; "B1"; "C1"]) ∧
  DependencyGraph.checkCircularReference g "D1" ["A1"] = None.
Proof. repeat split; vm_compute; reflexivity. Qed.

Example test_graph_chain_dependents :
  DependencyGraph.getAllDependents
    (DependencyGraph.addDependency "C1" "B1"
       (DependencyGraph.addDependency "B1" "A1"
          (DependencyGraph.addDependency "A1" "D1" DependencyGraph.empty))) "D1"
  = ["A1"; "B1"; "C1"].
Proof. vm_compute. reflexivity. Qed.

Example test_graph_stats :
  DependencyGraph.getStats
    (DependencyGraph.addDependency "B1" "C1"
       (DependencyGraph.addDependency "A1" "C1"
          (DependencyGraph.addDependency "A1" "B1" DependencyGraph.empty)))
  = {| DependencyGraph.totalDependencies := 3; DependencyGraph.totalCells := 2 |}.
Proof. vm_compute. reflexivity. Qed.

Example test_engine_literal :
  Engine.getRawValue
    (Engine.data (Engine.set (host := IntegerHost.integerHost) freshEngine "A1"
                    (Some (VNum 100)) None 1).1) "A1"
  = Some (VNum 100).
Proof. vm_compute. reflexivity. Qed.

Example test_engine_invalid_reference :
  let r := Engine.set (host := IntegerHost.integerHost) freshEngine "A1" None (Some "=Z9+1") 1 in
  r.2 = false ∧ cellError r.1 "A1" = Some "Invalid cell reference: Z9".
Proof. split; vm_compute; reflexivity. Qed.

Example test_engine_self_reference :
  let r := Engine.set (host := IntegerHost.integerHost) freshEngine "A1" None (Some "=A1+1") 1 in
  r.2 = false ∧ cellError r.1 "A1" = Some "Circular reference detected: A1 → A1".
Proof. split; vm_compute; reflexivity. Qed.

Example test_engine_non_numeric :
  Engine.getRawValue
    (Engine.data
       (Engine.set (host := IntegerHost.integerHost)
          (Engine.set (host := IntegerHost.integerHost)
             (Engine.set (host := IntegerHost.integerHost) freshEngine "A1"
                (Some (VStr "Hello")) None 1).1
             "B1" (Some (VNum 100)) None 2).1
          "C1" None (Some "=A1+B1") 3).1) "C1"
  = Some (VStr "#VALUE!").
Proof. vm_compute. reflexivity. Qed.

(** ** The address space *)

Lemma isValidCellReference_inAddressSpace cellId :
  FormulaParser.isValidCellReference cellId = true → inAddressSpace cellId.
Proof.
  destruct cellId as [|col [|row [|]]]; try discriminate.
  unfold FormulaParser.isValidCellReference.
  intros H. exists col, row. split; [reflexivity|].
  rewrite !andb_true_iff, !Nat.leb_le in H. lia.
Qed.

Lemma isValidCellId_inAddressSpace cellId :
  Engine.isValidCellId cellId = true → inAddressSpace cellId.
Proof.
  intros H. apply isValidCellReference_inAddressSpace.
  destruct cellId as [|col [|row [|]]]; try discriminate.
  unfold Engine.isValidCellId in H.
  destruct (FormulaParser.isValidCellReference _); [reflexivity|discriminate].
Qed.

Lemma ascii_between (c : ascii) lo n :
  lo ≤ nat_of_ascii c ≤ lo + n → ∃ k, k ≤ n ∧ c = ascii_of_nat (lo + k).
Proof.
  intros H. exists (nat_of_ascii c - lo). split; [lia|].
  replace (lo + (nat_of_ascii c - lo)) with (nat_of_ascii c) by lia.
  symmetry. apply ascii_nat_embedding.
Qed.

Lemma inAddressSpace_isValidCellId cellId :
  inAddressSpace cellId → Engine.isValidCellId cellId = true.
Proof.
  intros (col & row & -> & Hc & Hr).
  destruct (ascii_between col 65 9) as (i & Hi & ->); [lia|].
  destruct (ascii_between row 49 4) as (j & Hj & ->); [lia|].
  do 10 (destruct i as [|i]; [do 5 (destruct j as [|j]; [vm_compute; reflexivity|]); lia|]).
  lia.
Qed.

Lemma isValidCellId_outside cellId :
  ¬ inAddressSpace cellId → Engine.isValidCellId cellId = false.
Proof.
  intros H. destruct (Engine.isValidCellId cellId) eqn:E; [|reflexivity].
  destruct H. by apply isValidCellId_inAddressSpace.
Qed.

Lemma Z1_outside : ¬ inAddressSpace "Z1".
Proof.
  intros (col & row & E & Hc & Hr). injection E as <- <-.
  vm_compute in Hc. lia.
Qed.

Lemma A1_inside : inAddressSpace "A1".
Proof. exists "A"%char, "1"%char. vm_compute. repeat split; lia. Qed.

(** C6: for every identifier outside the 10-column by 5-row address space,
    [set] and [clearCell] return false and hand back the engine state they
    were given: cells, version counter, timestamp, dependency graph and
    notification count are all unchanged. *)
Theorem C6_outside_address_space_rejected {host : JsHost}
    (s : Engine.State) (cellId : string) (v : option Value) (f : option string) (now : Z) :
  ¬ inAddressSpace cellId →
  Engine.set s cellId v f now = (s, false) ∧ Engine.clearCell s cellId now = (s, false).
Proof.
  intros Hout. unfold Engine.set, Engine.clearCell.
  rewrite (isValidCellId_outside _ Hout). split; reflexivity.
Qed.

Lemma C6_outside_address_space_rejected_witness :
  ¬ inAddressSpace "Z1" ∧
  Engine.set (host := IntegerHost.integerHost) freshEngine "Z1" (Some (VNum 100)) None 7
    = (freshEngine, false) ∧
  Engine.clearCell (host := IntegerHost.integerHost) freshEngine "Z1" 7 = (freshEngine, false).
Proof.
  split; [exact Z1_outside|].
  exact (C6_outside_address_space_rejected (host := IntegerHost.integerHost)
           freshEngine "Z1" (Some (VNum 100)) None 7 Z1_outside).
Defined.

(** C10: for every valid cell identifier with no stored record, [clearCell]
    returns true and hands back the engine state it was given: no cell,
    version, timestamp or graph change, and no notification. *)
Theorem C10_clearCell_absent_is_noop {host : JsHost}
    (s : Engine.State) (cellId : string) (now : Z) :
  inAddressSpace cellId →
  Engine.lookupCell cellId (Engine.cells (Engine.data s)) = None →
  Engine.clearCell s cellId now = (s, true).
Proof.
  intros Hin Hnone. unfold Engine.clearCell.
  rewrite (inAddressSpace_isValidCellId _ Hin), Hnone. reflexivity.
Qed.

Lemma C10_clearCell_absent_is_noop_witness :
  inAddressSpace "A1" ∧
  Engine.lookupCell "A1" (Engine.cells (Engine.data freshEngine)) = None ∧
  Engine.clearCell (host := IntegerHost.integerHost) freshEngine "A1" 7 = (freshEngine, true).
Proof.
  split; [exact A1_inside|]. split; [reflexivity|].
  exact (C10_clearCell_absent_is_noop (host := IntegerHost.integerHost)
           freshEngine "A1" 7 A1_inside eq_refl).
Defined.

(** ** Reading an errored cell *)

Lemma lookupCell_storeCell_eq cellId cell cs :
  Engine.lookupCell cellId (Engine.storeCell cellId cell cs) = Some cell.
Proof.
  induction cs as [|[k c] cs IH]; simpl.
  - by rewrite decide_True.
  - destruct (decide (k = cellId)) as [->|Hne]; simpl.
    + by rewrite decide_True.
    + by rewrite decide_False.
Qed.

Lemma lookupCell_storeCell_ne cellId other cell cs :
  other ≠ cellId →
  Engine.lookupCell other (Engine.storeCell cellId cell cs) = Engine.lookupCell other cs.
Proof.
  intros Hne. induction cs as [|[k c] cs IH]; simpl.
  - by rewrite decide_False.
  - destruct (decide (k = cellId)) as [->|Hk]; simpl.
    + by rewrite !decide_False.
    + by rewrite IH.
Qed.

(** C8: for a stored cell whose error message is set (a non-empty text),
    [getRawValue] returns the stored value when it is a text that begins
    with [#], and the error message in every other case: when the value is
    missing, a number, or a text that does not begin with [#]; the result is
    never [undefined] and does not depend on the formula text of the cell. *)
Theorem C8_getRawValue_of_errored_cell
    (d : Engine.SpreadsheetData) (cellId msg : string) (cell : Engine.CellData) :
  Engine.lookupCell cellId (Engine.cells d) = Some cell →
  Engine.error cell = Some msg → msg ≠ EmptyString →
  (∀ rest, Engine.value cell = Some (VStr (String "#" rest)) →
     Engine.getRawValue d cellId = Some (VStr (String "#" rest))) ∧
  ((∀ rest, Engine.value cell ≠ Some (VStr (String "#" rest))) →
     Engine.getRawValue d cellId = Some (VStr msg)) ∧
  Engine.getRawValue d cellId ≠ None ∧
  (∀ f, Engine.getRawValue
          (withCells (Engine.storeCell cellId (withFormula f cell) (Engine.cells d)) d) cellId
        = Engine.getRawValue d cellId).
Proof.
  intros Hcell Hmsg Hne.
  assert (Herr : truthy (Engine.error cell) = true) by (rewrite Hmsg; by destruct msg).
  assert (Hhash : ∀ rest, Js.startsWith (String "#" rest) "#" = true)
    by (intros rest; unfold Js.startsWith; simpl; by destruct rest).
  assert (Hraw : Engine.getRawValue d cellId
                 = if Engine.isErrorCode (Engine.value cell) then Engine.value cell
                   else Some (VStr msg)).
  { unfold Engine.getRawValue. rewrite Hcell, Herr, Hmsg. simpl.
    by destruct (Engine.isErrorCode (Engine.value cell)). }
  repeat split.
  - intros rest Hv. rewrite Hraw, Hv. unfold Engine.isErrorCode. by rewrite Hhash.
  - intros Hno. rewrite Hraw.
    destruct (Engine.value cell) as [[n|[|c code]]|] eqn:Hv; try reflexivity.
    unfold Engine.isErrorCode, Js.startsWith. cbn [String.prefix].
    destruct (ascii_dec "#" c) as [<-|Hc]; [|reflexivity].
    destruct (Hno code). reflexivity.
  - rewrite Hraw. destruct (Engine.isErrorCode (Engine.value cell)) eqn:Hc; [|done].
    destruct (Engine.value cell); [done|discriminate].
  - intros f. unfold Engine.getRawValue, withCells. simpl.
    rewrite lookupCell_storeCell_eq, Hcell. reflexivity.
Qed.

Lemma erroredCell_message : "Non-numeric value in cell B1: Hello" ≠ EmptyString.
Proof. discriminate. Qed.

Lemma C8_getRawValue_of_errored_cell_witness :
  Engine.lookupCell "A1" (Engine.cells erroredData) = Some erroredCell ∧
  Engine.error erroredCell = Some "Non-numeric value in cell B1: Hello" ∧
  "Non-numeric value in cell B1: Hello" ≠ EmptyString ∧
  Engine.getRawValue erroredData "A1" = Some (VStr "#VALUE!").
Proof.
  split; [reflexivity|]. split; [reflexivity|]. split; [exact erroredCell_message|].
  exact (proj1 (C8_getRawValue_of_errored_cell erroredData "A1" _ erroredCell
                  eq_refl eq_refl erroredCell_message)
           "VALUE!" eq_refl).
Defined.

(** ** Aggregate functions *)

Lemma fold_left_join {A B : Type} (f : A → B → A) (ls : list (list B)) (a : A) :
  fold_left f (mjoin ls) a = fold_left (λ acc l, fold_left f l acc) ls a.
Proof.
  revert a. induction ls as [|l ls IH]; intros a; simpl; [done|].
  by rewrite fold_left_app, IH.
Qed.

Lemma fold_left_fmap {A B C : Type} (f : A → C → A) (g : B → C) (l : list B) (a : A) :
  fold_left f (map g l) a = fold_left (λ acc x, f acc (g x)) l a.
Proof. revert a. induction l as [|x l IH]; intros a; simpl; [done|]. by rewrite IH. Qed.

Lemma fold_left_pointwise {A B : Type} (f g : A → B → A) (l : list B) (a : A) :
  (∀ acc x, f acc x = g acc x) → fold_left f l a = fold_left g l a.
Proof.
  intros Hfg. revert a. induction l as [|x l IH]; intros a; simpl; [done|].
  by rewrite Hfg, IH.
Qed.

Lemma functionArgs_argumentCells {host : JsHost} getCellValue argsString :
  FormulaParser.functionArgs getCellValue argsString
  = fold_left (λ args cellId, FormulaParser.pushNumeric getCellValue cellId args)
      (argumentCells argsString) [].
Proof.
  unfold FormulaParser.functionArgs, argumentCells.
  rewrite fold_left_app, fold_left_join, !fold_left_fmap.
  f_equal. apply fold_left_pointwise. intros args [i [[whole start] end_]]. reflexivity.
Qed.

Lemma pushNumeric_skipped {host : JsHost} getCellValue cellId args :
  skipped getCellValue cellId →
  FormulaParser.pushNumeric getCellValue cellId args = args.
Proof.
  unfold skipped, FormulaParser.pushNumeric.
  destruct (getCellValue cellId) as [[n|t]|]; [intros ->; reflexivity..|reflexivity].
Qed.

(** C9: when every cell that an aggregate call refers to is missing or not
    numeric, its flattened argument list is empty, and SUM, AVERAGE, MIN, MAX
    and COUNT (in any letter case) all return the number 0, not an error
    value. *)
Theorem C9_aggregates_of_no_numbers_are_zero {host : JsHost}
    (getCellValue : string → option Value) (argsString functionName : string) :
  Forall (skipped getCellValue) (argumentCells argsString) →
  Js.toUpperCase functionName ∈ aggregateNames →
  FormulaParser.functionArgs getCellValue argsString = [] ∧
  FormulaParser.evaluateFunction functionName
    (FormulaParser.functionArgs getCellValue argsString) = VNum 0.
Proof.
  intros Hskip Hname.
  assert (Hargs : FormulaParser.functionArgs getCellValue argsString = []).
  { rewrite functionArgs_argumentCells.
    induction Hskip as [|c cs Hc _ IH]; simpl; [done|].
    by rewrite pushNumeric_skipped. }
  split; [exact Hargs|]. rewrite Hargs.
  unfold FormulaParser.evaluateFunction, aggregateNames in *.
  repeat (apply elem_of_cons in Hname as [->|Hname]; [reflexivity|]).
  by apply elem_of_nil in Hname.
Qed.

Lemma C9_aggregates_of_no_numbers_are_zero_witness :
  Forall (skipped (host := IntegerHost.integerHost) textOnly) (argumentCells "A1:A3,B1") ∧
  Js.toUpperCase "Average" ∈ aggregateNames ∧
  FormulaParser.evaluateFunction "Average"
    (FormulaParser.functionArgs (host := IntegerHost.integerHost) textOnly "A1:A3,B1")
  = VNum 0.
Proof.
  assert (H1 : Forall (skipped (host := IntegerHost.integerHost) textOnly)
                 (argumentCells "A1:A3,B1")).
  { repeat constructor. }
  assert (H2 : Js.toUpperCase "Average" ∈ aggregateNames).
  { change (Js.toUpperCase "Average") with "AVERAGE". unfold aggregateNames. set_solver. }
  split; [exact H1|]. split; [exact H2|].
  exact (proj2 (C9_aggregates_of_no_numbers_are_zero (host := IntegerHost.integerHost)
                  textOnly "A1:A3,B1" "Average" H1 H2)).
Defined.

(** ** Unknown functions *)

(** An unknown function that is the whole formula yields [#NAME!], whatever
    the cells hold. *)
Lemma unknown_function_alone {host : JsHost} (getCellValue : string → option Value) :
  FormulaParser.evaluateFormula "=UNKNOWN(A1:A3)" getCellValue
  = {| FormulaParser.value := VStr "#NAME!";
       FormulaParser.error := Some "#NAME!";
       FormulaParser.dependencies := ["A1"; "A3"; "A2"] |}.
Proof. reflexivity. Qed.

(** C3: at the formula [=2*UNKNOWN(A1)] the unknown function is nested in a
    product; [evaluateFormula] returns [#VALUE!], not [#NAME!], whatever the
    cells hold. *)
Theorem C3_nested_unknown_function_is_VALUE {host : JsHost} (getCellValue : string → option Value) :
  FormulaParser.evaluateFormula "=2*UNKNOWN(A1)" getCellValue
  = {| FormulaParser.value := VStr "#VALUE!";
       FormulaParser.error := Some "#VALUE!";
       FormulaParser.dependencies := ["A1"] |}.
Proof. reflexivity. Qed.

(** When the unknown call starts the formula and more follows, the stored
    value is the partly substituted text. *)
Lemma unknown_function_first {host : JsHost} (getCellValue : string → option Value) :
  FormulaParser.evaluateFormula "=UNKNOWN(A1)*2" getCellValue
  = {| FormulaParser.value := VStr "#NAME!*2";
       FormulaParser.error := Some "#NAME!*2";
       FormulaParser.dependencies := ["A1"] |}.
Proof. reflexivity. Qed.

(** ** Formula writes *)

Section FormulaWrites.

Context {host : JsHost}.

Lemma data_detached s cellId : Engine.data (detached s cellId) = Engine.data s.
Proof. unfold detached. by destruct (truthy _). Qed.

Lemma data_registered s cellId f : Engine.data (registered s cellId f) = Engine.data s.
Proof. unfold registered. simpl. apply data_detached. Qed.

Lemma notifications_detached s cellId :
  Engine.notifications (detached s cellId) = Engine.notifications s.
Proof. unfold detached. by destruct (truthy _). Qed.

Lemma notifications_registered s cellId f :
  Engine.notifications (registered s cellId f) = Engine.notifications s.
Proof. unfold registered. simpl. apply notifications_detached. Qed.

(** The two ways out of a formula write that reaches the evaluation. *)
Lemma set_reaching_evaluation s cellId v f now :
  reachesEvaluation s cellId f →
  Engine.set s cellId v (Some f) now =
    let s2 := Engine.setCells
                (Engine.storeCell cellId (evaluatedCell s cellId f)
                   (Engine.cells (Engine.data s)))
                (registered s cellId f) in
    if truthy (FormulaParser.error (evaluated s cellId f))
    then (Engine.notifyChange s2, false)
    else (Engine.notifyChange (Engine.recalculateDependents cellId (Engine.touch now s2)), true).
Proof.
  intros (Hin & Hf & Hval & Hcyc).
  unfold Engine.set. rewrite (inAddressSpace_isValidCellId _ Hin). simpl negb. cbv iota.
  rewrite Hf. simpl default. rewrite Hval.
  fold (detached s cellId). fold (formulaDependencies f). rewrite Hcyc.
  fold (registered s cellId f). fold (evaluated s cellId f).
  rewrite !data_registered. reflexivity.
Qed.

(** C1 (as amended): a formula write on a valid identifier that passes
    validation and the cycle check but whose evaluation reports an error
    returns false and leaves the version counter and the timestamp as they
    were; it stores the target cell with the value and error of the
    evaluation, keeps the dependency edges registered and notifies the
    observers once. *)
Theorem C1_evaluation_error_write
    (s : Engine.State) (cellId : string) (v : option Value) (f : string) (now : Z) :
  reachesEvaluation s cellId f →
  truthy (FormulaParser.error (evaluated s cellId f)) = true →
  let r := Engine.set s cellId v (Some f) now in
  r.2 = false ∧
  Engine.version (Engine.data r.1) = Engine.version (Engine.data s) ∧
  Engine.lastModified (Engine.data r.1) = Engine.lastModified (Engine.data s) ∧
  Engine.get r.1 cellId = Some (evaluatedCell s cellId f) ∧
  Engine.dependencyGraph r.1 = Engine.dependencyGraph (registered s cellId f) ∧
  Engine.notifications r.1 = S (Engine.notifications s).
Proof.
  intros Hreach Herr. cbv zeta.
  rewrite (set_reaching_evaluation _ _ _ _ _ Hreach). cbv zeta. rewrite Herr.
  simpl. rewrite !data_detached, notifications_detached. repeat split.
  unfold Engine.get. simpl. apply lookupCell_storeCell_eq.
Qed.

(** An accepted formula write, for comparison: the version counter is
    bumped and the timestamp is the time of the write. *)
Lemma set_accepted_formula_write
    (s : Engine.State) (cellId : string) (v : option Value) (f : string) (now : Z) :
  reachesEvaluation s cellId f →
  truthy (FormulaParser.error (evaluated s cellId f)) = false →
  let r := Engine.set s cellId v (Some f) now in
  r.2 = true ∧
  Engine.version (Engine.data r.1) = (Engine.version (Engine.data s) + 1)%float ∧
  Engine.lastModified (Engine.data r.1) = now.
Proof.
  intros Hreach Herr. cbv zeta.
  rewrite (set_reaching_evaluation _ _ _ _ _ Hreach). cbv zeta. rewrite Herr.
  simpl. by rewrite !data_detached.
Qed.

End FormulaWrites.

Lemma staleScenario_reaches :
  reachesEvaluation staleScenario0 "A1" "=B1+1".
Proof.
  split; [exact A1_inside|]. repeat split; vm_compute; reflexivity.
Qed.

Lemma staleScenario_fails :
  truthy (FormulaParser.error
            (evaluated (host := IntegerHost.integerHost) staleScenario0 "A1" "=B1+1")) = true.
Proof. vm_compute. reflexivity. Qed.

(** At [staleScenario] the write of A1 reaches the evaluation and fails
    there; the version is not bumped, the timestamp is not the time of the
    write, and C1, a dependent of A1, keeps the value 0 that a recomputation
    would replace by an error code. *)
Lemma C1_counterexample :
  reachesEvaluation staleScenario0 "A1" "=B1+1" ∧
  truthy (FormulaParser.error
            (evaluated (host := IntegerHost.integerHost) staleScenario0 "A1" "=B1+1")) = true ∧
  staleScenario.2 = false ∧
  Engine.version (Engine.data staleScenario.1)
    ≠ (Engine.version (Engine.data staleScenario0) + 1)%float ∧
  Engine.lastModified (Engine.data staleScenario.1) ≠ 3%Z ∧
  "C1" ∈ DependencyGraph.getAllDependents (Engine.dependencyGraph staleScenario.1) "A1" ∧
  Engine.getRawValue (Engine.data staleScenario.1) "A1" = Some (VStr "#VALUE!") ∧
  cellValue staleScenario.1 "C1" = Some (VNum 0) ∧
  cellValue
    (Engine.recalculateDependents (host := IntegerHost.integerHost) "A1" staleScenario.1) "C1"
    = Some (VStr "#VALUE!").
Proof.
  split; [exact staleScenario_reaches|].
  split; [exact staleScenario_fails|].
  split; [vm_compute; reflexivity|].
  split.
  { intros H. apply (f_equal (λ x, PrimFloat.eqb x 3)) in H. vm_compute in H. discriminate. }
  split; [vm_compute; discriminate|].
  split; [apply (bool_decide_unpack _); vm_compute; exact I|].
  repeat split; vm_compute; reflexivity.
Qed.

Lemma C1_evaluation_error_write_witness :
  reachesEvaluation staleScenario0 "A1" "=B1+1" ∧
  truthy (FormulaParser.error
            (evaluated (host := IntegerHost.integerHost) staleScenario0 "A1" "=B1+1")) = true ∧
  staleScenario.2 = false ∧
  Engine.version (Engine.data staleScenario.1) = Engine.version (Engine.data staleScenario0).
Proof.
  split; [exact staleScenario_reaches|].
  split; [exact staleScenario_fails|].
  pose proof (C1_evaluation_error_write (host := IntegerHost.integerHost)
                staleScenario0 "A1" None "=B1+1" 3
                staleScenario_reaches staleScenario_fails) as W.
  exact (conj (proj1 W) (proj1 (proj2 W))).
Defined.

(** ** Recovery after a rejected cycle *)

Lemma fresh_reaches : reachesEvaluation freshEngine "A1" "=B1".
Proof. split; [exact A1_inside|]. repeat split; vm_compute; reflexivity. Qed.

(** Whatever the host makes of the first formula, the first write leaves one
    cell, A1 with its formula, and the edge from A1 to B1. *)
Lemma recovery1_shape {host : JsHost} (t1 : Z) : ∃ v e lm ver,
  (recovery1 t1).1 =
    {| Engine.data :=
         {| Engine.cells :=
              [("A1", {| Engine.id := "A1"; Engine.value := v; Engine.formula := Some "=B1";
                         Engine.error := e; Engine.dependents := [];
                         Engine.dependencies := ["B1"] |})];
            Engine.lastModified := lm; Engine.version := ver |};
       Engine.dependencyGraph :=
         DependencyGraph.addDependency "A1" "B1" DependencyGraph.empty;
       Engine.notifications := 1 |}.
Proof.
  unfold recovery1. rewrite (set_reaching_evaluation _ _ _ _ _ fresh_reaches). cbv zeta.
  unfold evaluatedCell.
  generalize (evaluated freshEngine "A1" "=B1"). intros [rv re rd].
  destruct (truthy (FormulaParser.error _)).
  - do 4 eexists. reflexivity.
  - do 4 eexists. vm_compute. reflexivity.
Qed.

(** C4: on a fresh engine, after A1 := [=B1] and B1 := [=A1], the second
    write is rejected with a circular-reference error and leaves the graph
    as the first write left it; the literal write B1 := 100 is then accepted
    and recalculation makes [getRawValue("A1")] the number 100.  The host is
    any runtime that renders 100 as [100] and evaluates that text to 100. *)
Theorem C4_recovery_after_rejected_cycle {host : JsHost} (t1 t2 t3 : Z) :
  runExpression "100" = EvalNumber 100 →
  numberToString 100 = "100" →
  (recovery2 t1 t2).2 = false ∧
  cellError (recovery2 t1 t2).1 "B1" = Some "Circular reference detected: B1 → A1 → B1" ∧
  Engine.dependencyGraph (recovery2 t1 t2).1 = Engine.dependencyGraph (recovery1 t1).1 ∧
  (recovery3 t1 t2 t3).2 = true ∧
  Engine.getRawValue (Engine.data (recovery3 t1 t2 t3).1) "A1" = Some (VNum 100).
Proof.
  intros H100 Hts. unfold recovery3, recovery2.
  destruct (recovery1_shape t1) as (v & e & lm & ver & ->).
  destruct host as [pf ts run]. simpl in H100, Hts.
  split; [vm_compute; reflexivity|].
  split; [vm_compute; reflexivity|].
  split; [vm_compute; reflexivity|].
  split; [vm_compute; reflexivity|].
  vm_compute. rewrite Hts. vm_compute. rewrite H100. vm_compute. reflexivity.
Qed.

Lemma C4_recovery_after_rejected_cycle_witness :
  runExpression (JsHost := IntegerHost.integerHost) "100" = EvalNumber 100 ∧
  numberToString (JsHost := IntegerHost.integerHost) 100 = "100" ∧
  Engine.getRawValue (Engine.data (recovery3 (host := IntegerHost.integerHost) 1 2 3).1) "A1"
    = Some (VNum 100).
Proof.
  assert (H1 : runExpression (JsHost := IntegerHost.integerHost) "100" = EvalNumber 100)
    by (vm_compute; reflexivity).
  assert (H2 : numberToString (JsHost := IntegerHost.integerHost) 100 = "100")
    by (vm_compute; reflexivity).
  split; [exact H1|]. split; [exact H2|].
  exact (proj2 (proj2 (proj2 (proj2
    (C4_recovery_after_rejected_cycle (host := IntegerHost.integerHost) 1 2 3 H1 H2))))).
Defined.

(** ** Transitive dependents *)

Section TransitiveDependents.

Import DependencyGraph.

Section Traversal.

Variable g : Graph.

Lemma traversed_refl roots V R : traversed g roots V R V R [].
Proof.
  exists [], []. simpl. split; [set_solver|]. split; [constructor|].
  split; [set_solver|]. split; [by rewrite app_nil_r|]. split; [done|].
  split; set_solver.
Qed.

Lemma traversed_mono roots V R V' R' L0 : traversed g roots V R V' R' L0 → V ⊆ V'.
Proof. intros (N & L & -> & _). set_solver. Qed.

Lemma forEach_spec fuel :
  (∀ d V R V' R', collectDependents fuel g d (V, R) = Some (V', R') →
     d ∈ V' ∧ traversed g [d] V R V' R' []) →
  ∀ ds V0 R0 V1 R1,
    forEach (λ dependent st', collectDependents fuel g dependent (st'.1, st'.2 ++ [dependent]))
      ds (V0, R0) = Some (V1, R1) →
    (∀ d, d ∈ ds → d ∈ V1) ∧ traversed g ds V0 R0 V1 R1 ds.
Proof.
  intros IH. induction ds as [|d ds IHds]; intros V0 R0 V1 R1; simpl.
  - intros [= <- <-]. split; [set_solver|]. apply traversed_refl.
  - destruct (collectDependents fuel g d (V0, R0 ++ [d])) as [[V2 R2]|] eqn:Hcall;
      [|discriminate].
    intros Hrest.
    apply IH in Hcall as (HdV2 & N1 & L1 & -> & HN1 & HN1V & -> & HL1 & Hcl1 & Hr1).
    apply IHds in Hrest as (Hin & N2 & L2 & -> & HN2 & HN2V & -> & HL2 & Hcl2 & Hr2).
    split; [set_solver|].
    exists (N1 ++ N2), ([d] ++ L1 ++ L2).
    split; [rewrite list_to_set_app_L; set_solver|].
    split; [apply NoDup_app; set_solver|].
    split; [set_solver|].
    split; [by rewrite <- !app_assoc|].
    split.
    { rewrite fmap_app, join_app, HL1, HL2. simpl. f_equiv.
      rewrite !app_assoc. f_equiv. apply Permutation_app_comm. }
    split.
    { intros v Hv dd Hdd. apply elem_of_app in Hv as [Hv|Hv].
      - specialize (Hcl1 v Hv dd Hdd). set_solver.
      - by apply (Hcl2 v Hv dd). }
    intros v Hv. apply elem_of_app in Hv as [Hv|Hv].
    + destruct (Hr1 v Hv) as (r & Hr & Hrv). exists d. set_solver.
    + destruct (Hr2 v Hv) as (r & Hr & Hrv). exists r. set_solver.
Qed.

Lemma collectDependents_spec fuel : ∀ c V R V' R',
  collectDependents fuel g c (V, R) = Some (V', R') →
  c ∈ V' ∧ traversed g [c] V R V' R' [].
Proof.
  induction fuel as [|fuel IH]; intros c V R V' R'; simpl; [discriminate|].
  case_bool_decide as Hc.
  - intros [= <- <-]. split; [done|]. apply traversed_refl.
  - intros Hrun.
    apply (forEach_spec fuel IH) in Hrun
      as (Hin & N & L & -> & HN & HNV & -> & HL & Hcl & Hr).
    split; [set_solver|].
    exists (c :: N), L.
    split; [set_solver|].
    split; [constructor; [|done]; intros HcN; apply (HNV c HcN); set_solver|].
    split; [set_solver|].
    split; [done|].
    split; [simpl; by rewrite HL|].
    split.
    { intros v Hv d Hd. apply elem_of_cons in Hv as [->|Hv].
      - specialize (Hin d Hd). set_solver.
      - specialize (Hcl v Hv d Hd). set_solver. }
    intros v Hv. exists c. split; [set_solver|].
    apply elem_of_cons in Hv as [->|Hv]; [done|].
    destruct (Hr v Hv) as (r & Hr' & Hrv).
    eapply rtc_l; [|exact Hrv]. exact Hr'.
Qed.

Lemma collectDependents_total (U : gset string) :
  (∀ x y, dependentEdge g x y → y ∈ U) →
  ∀ fuel c V R, c ∈ U → size (U ∖ V) < fuel →
    is_Some (collectDependents fuel g c (V, R)).
Proof.
  intros HU. induction fuel as [|fuel IH]; intros c V R Hc Hsz; [lia|]. simpl.
  case_bool_decide as HcV; [eauto|].
  assert (Hlt : size (U ∖ ({[c]} ∪ V)) < size (U ∖ V)).
  { apply subset_size. set_solver. }
  assert (Hloop : ∀ ds V0 R0, (∀ d, d ∈ ds → d ∈ U) → {[c]} ∪ V ⊆ V0 →
    is_Some (forEach
       (λ dependent st', collectDependents fuel g dependent (st'.1, st'.2 ++ [dependent]))
       ds (V0, R0))).
  { induction ds as [|d ds IHds]; intros V0 R0 Hds HV0; simpl; [eauto|].
    destruct (IH d V0 (R0 ++ [d])) as [[V2 R2] Hcall].
    - apply Hds. set_solver.
    - assert (size (U ∖ V0) ≤ size (U ∖ ({[c]} ∪ V))) by (apply subseteq_size; set_solver).
      lia.
    - rewrite Hcall. apply IHds; [set_solver|].
      apply collectDependents_spec in Hcall as [_ Hmono%traversed_mono]. set_solver. }
  apply Hloop; [|done]. intros d Hd. by apply (HU c).
Qed.

End Traversal.

Lemma size_list_to_set_le (l : list string) :
  size (list_to_set l : gset string) ≤ length l.
Proof.
  induction l as [|x l IH]; simpl.
  - change (size (∅ : gset string) ≤ 0). by rewrite size_empty.
  - change (size ({[x]} ∪ list_to_set l : gset string) ≤ S (length l)).
    rewrite size_union_alt, size_singleton.
    assert (size (list_to_set l ∖ {[x]} : gset string) ≤ size (list_to_set l : gset string))
      by (apply subseteq_size; set_solver).
    lia.
Qed.

Lemma nodesOf_closed (m : gmap string (list string)) cell x l y :
  m !! x = Some l → y ∈ l → y ∈ nodesOf cell m.
Proof.
  intros Hx Hy. unfold nodesOf. apply elem_of_cons. right.
  apply list_elem_of_join. exists l. split; [done|].
  apply list_elem_of_fmap. exists (x, l). split; [done|].
  by apply elem_of_map_to_list.
Qed.

Lemma getAllDependents_run g cell :
  ∃ V, collectDependents (searchFuel cell (dependents g)) g cell (∅, [])
       = Some (V, getAllDependents g cell).
Proof.
  assert (Hclosed : ∀ x y, dependentEdge g x y →
            y ∈ (list_to_set (nodesOf cell (dependents g)) : gset string)).
  { intros x y Hxy. unfold dependentEdge, getDependents in Hxy.
    destruct (dependents g !! x) as [l|] eqn:Hx; simpl in Hxy; [|by apply elem_of_nil in Hxy].
    apply elem_of_list_to_set. by eapply nodesOf_closed. }
  destruct (collectDependents_total g _ Hclosed (searchFuel cell (dependents g)) cell ∅ [])
    as [[V R] Hrun].
  - apply elem_of_list_to_set. unfold nodesOf. set_solver.
  - unfold searchFuel.
    pose proof (size_list_to_set_le (nodesOf cell (dependents g))).
    assert (size (list_to_set (nodesOf cell (dependents g)) ∖ ∅ : gset string)
            ≤ size (list_to_set (nodesOf cell (dependents g)) : gset string))
      by (apply subseteq_size; set_solver).
    lia.
  - exists V. unfold getAllDependents. by rewrite Hrun.
Qed.

Lemma tc_rtc_step {A} (R : relation A) x z : tc R x z ↔ ∃ y, rtc R x y ∧ R y z.
Proof.
  split.
  - intros H. induction H as [x y Hxy|x y z Hxy _ (w & Hw & Hwz)].
    + exists x. split; [done|done].
    + exists w. split; [|done]. by eapply rtc_l.
  - intros (y & Hxy & Hyz). eapply tc_rtc_l; [exact Hxy|]. by apply tc_once.
Qed.

Lemma discoveryOrder_nil g c : discoveryOrder g c [].
Proof. intros i x Hx. by rewrite lookup_nil in Hx. Qed.

Lemma discoveryOrder_step g cur d L1 L2 :
  dependentEdge g cur d → discoveryOrder g d L1 → discoveryOrder g cur L2 →
  discoveryOrder g cur (d :: L1 ++ L2).
Proof.
  intros Hd H1 H2 [|i] x Hx; simpl in Hx.
  - injection Hx as <-. exists cur. split; [done|by left].
  - destruct (decide (i < length L1)) as [Hlt|Hge].
    + rewrite lookup_app_l in Hx by done.
      destruct (H1 i x Hx) as (y & Hyx & [->|(j & Hj & Hy)]).
      * exists d. split; [done|]. right. exists 0. split; [lia|done].
      * exists y. split; [done|]. right. exists (S j). split; [lia|]. simpl.
        by apply lookup_app_l_Some.
    + rewrite lookup_app_r in Hx by lia.
      destruct (H2 _ x Hx) as (y & Hyx & [->|(j & Hj & Hy)]).
      * exists cur. split; [done|by left].
      * exists y. split; [done|]. right. exists (S (length L1 + j)). split; [lia|]. simpl.
        rewrite lookup_app_r by lia. by replace (length L1 + j - length L1) with j by lia.
Qed.

Lemma collectDependents_order g fuel : ∀ cur V R V' R',
  collectDependents fuel g cur (V, R) = Some (V', R') →
  ∃ L, R' = R ++ L ∧ discoveryOrder g cur L.
Proof.
  induction fuel as [|fuel IH]; intros cur V R V' R'; simpl; [discriminate|].
  case_bool_decide as Hc.
  { intros [= <- <-]. exists []. split; [by rewrite app_nil_r|apply discoveryOrder_nil]. }
  assert (Hloop : ∀ ds V0 R0 V1 R1,
    (∀ d, d ∈ ds → dependentEdge g cur d) →
    forEach (λ dependent st', collectDependents fuel g dependent (st'.1, st'.2 ++ [dependent]))
      ds (V0, R0) = Some (V1, R1) →
    ∃ L, R1 = R0 ++ L ∧ discoveryOrder g cur L).
  { induction ds as [|d ds IHds]; intros V0 R0 V1 R1 Hds; simpl.
    - intros [= <- <-]. exists []. split; [by rewrite app_nil_r|apply discoveryOrder_nil].
    - destruct (collectDependents fuel g d (V0, R0 ++ [d])) as [[V2 R2]|] eqn:Hcall;
        [|discriminate].
      intros Hrest. apply IH in Hcall as (L1 & -> & H1).
      apply IHds in Hrest as (L2 & -> & H2); [|intros d' Hd'; apply Hds; by right].
      exists (d :: L1 ++ L2). split; [by rewrite <- !app_assoc|].
      apply discoveryOrder_step; [apply Hds; by left|done|done]. }
  apply Hloop. intros d Hd. exact Hd.
Qed.

Lemma getAllDependents_order g c : discoveryOrder g c (getAllDependents g c).
Proof.
  destruct (getAllDependents_run g c) as [V Hrun].
  apply collectDependents_order in Hrun as (L & -> & HL). done.
Qed.

(** C2 (as amended): [getAllDependents(c)] completes and lists exactly the
    transitive closure of the direct dependents of [c], in an order of
    discovery: every entry is a direct dependent of [c] or of a cell listed
    before it.  Each cell is expanded at most once, and the list holds the
    direct dependents of every expanded cell, so a cell is listed once for
    every edge that reaches it from [c] or from a transitive dependent of
    [c]. *)
Theorem C2_getAllDependents_lists_the_closure (g : Graph) (c : string) :
  (∀ x, x ∈ getAllDependents g c ↔ tc (dependentEdge g) c x) ∧
  discoveryOrder g c (getAllDependents g c) ∧
  ∃ expanded,
    NoDup expanded ∧
    (∀ v, v ∈ expanded ↔ rtc (dependentEdge g) c v) ∧
    getAllDependents g c ≡ₚ mjoin (getDependents g <$> expanded).
Proof.
  split; [|split; [apply getAllDependents_order|]].
  all: destruct (getAllDependents_run g c) as [V Hrun].
  all: apply collectDependents_spec in Hrun
    as (HcV & N & L & -> & HN & _ & HL' & HL & Hcl & Hr).
  all: simpl in HL', HL; subst L.
  all: assert (HNr : ∀ v, v ∈ N ↔ rtc (dependentEdge g) c v)
    by (intros v; split;
        [intros Hv; destruct (Hr v Hv) as (r & Hrc & Hrv);
         apply list_elem_of_singleton in Hrc as ->; done
        |revert v; apply rtc_ind_r;
         [set_solver|intros x y _ Hxy IH; specialize (Hcl x IH y Hxy); set_solver]]).
  - intros x. rewrite HL, tc_rtc_step, list_elem_of_join. split.
    + intros (l & Hxl & Hl). apply list_elem_of_fmap in Hl as (v & -> & Hv).
      exists v. split; [by apply HNr|done].
    + intros (v & Hv & Hvx). exists (getDependents g v). split; [done|].
      apply list_elem_of_fmap. exists v. split; [done|]. by apply HNr.
  - by exists N.
Qed.

(** On the diamond, D1 is reached through B1 and through C1 and is listed
    twice. *)
Lemma C2_counterexample :
  getAllDependents diamond "A1" = ["B1"; "D1"; "C1"; "D1"] ∧
  ¬ NoDup (getAllDependents diamond "A1").
Proof.
  assert (Hrun : getAllDependents diamond "A1" = ["B1"; "D1"; "C1"; "D1"])
    by (vm_compute; reflexivity).
  split; [exact Hrun|]. rewrite Hrun. intros Hnd.
  apply NoDup_cons in Hnd as [_ Hnd]. apply NoDup_cons in Hnd as [Hd _].
  apply Hd. apply elem_of_cons. right. apply elem_of_cons. by left.
Qed.

End TransitiveDependents.

(** ** Cycle detection *)

Section CycleSearch.
Import DependencyGraph.
Variable tempGraph : gmap string (list string).

Lemma anyCycle_visited_mono call deps :
  (∀ dep st b st', call dep st = Some (b, st') → visited st ⊆ visited st') →
  ∀ st b st', anyCycle call deps st = Some (b, st') → visited st ⊆ visited st'.
Proof.
  intros Hcall. induction deps as [|dep deps IH]; intros st b st'; simpl.
  - by intros [= _ <-].
  - destruct (call dep st) as [[[] st1]|] eqn:E; [| |discriminate].
    + intros [= _ <-]. by eapply Hcall.
    + intros Hrest. apply Hcall in E. apply IH in Hrest. set_solver.
Qed.

Lemma hasCycle_visited_mono fuel : ∀ node st b st',
  hasCycle fuel tempGraph node st = Some (b, st') → visited st ⊆ visited st'.
Proof.
  induction fuel as [|fuel IH]; intros node st b st'; simpl; [discriminate|].
  destruct (Js.setHas node (recursionStack st)); [by intros [= _ <-]|].
  case_bool_decide; [by intros [= _ <-]|].
  destruct (anyCycle _ _ _) as [[[] st2]|] eqn:E; [| |discriminate].
  - intros [= _ <-]. apply (anyCycle_visited_mono _ _ IH) in E. simpl in E. set_solver.
  - intros [= _ <-]. apply (anyCycle_visited_mono _ _ IH) in E. simpl in *. set_solver.
Qed.

Lemma hasCycle_total (U : gset string) :
  (∀ x l y, tempGraph !! x = Some l → y ∈ l → y ∈ U) →
  ∀ fuel node st, node ∈ U → size (U ∖ visited st) < fuel →
    is_Some (hasCycle fuel tempGraph node st).
Proof.
  intros HU. induction fuel as [|fuel IH]; intros node st Hnode Hsz; [lia|]. simpl.
  destruct (Js.setHas node (recursionStack st)); [eauto|].
  case_bool_decide as Hv; [eauto|].
  set (st1 := {| visited := {[node]} ∪ visited st;
                 recursionStack := Js.setAdd node (recursionStack st);
                 path := path st ++ [node] |}).
  assert (Hlt : size (U ∖ visited st1) < size (U ∖ visited st)).
  { apply subset_size. simpl. set_solver. }
  assert (Hloop : ∀ deps st0, (∀ d, d ∈ deps → d ∈ U) → visited st1 ⊆ visited st0 →
            is_Some (anyCycle (hasCycle fuel tempGraph) deps st0)).
  { induction deps as [|d deps IHd]; intros st0 Hd Hst0; simpl; [eauto|].
    destruct (IH d st0) as [[b st2] Hcall].
    - apply Hd. set_solver.
    - assert (size (U ∖ visited st0) ≤ size (U ∖ visited st1))
        by (apply subseteq_size; set_solver). lia.
    - rewrite Hcall. destruct b; [eauto|].
      apply IHd; [set_solver|]. apply hasCycle_visited_mono in Hcall. set_solver. }
  destruct (Hloop (default [] (tempGraph !! node)) st1) as [[b st2] Hrun]; [|done|].
  - intros d Hd. destruct (tempGraph !! node) as [l|] eqn:El; simpl in Hd; [|by apply elem_of_nil in Hd].
    by apply (HU node l).
  - rewrite Hrun. destruct b; eauto.
Qed.

Lemma searchCycle_total cell : is_Some (searchCycle tempGraph cell).
Proof.
  unfold searchCycle.
  destruct (hasCycle_total (list_to_set (nodesOf cell tempGraph))
              (λ x l y Hx Hy, proj2 (elem_of_list_to_set _ _) (nodesOf_closed _ cell _ _ _ Hx Hy))
              (searchFuel cell tempGraph) cell initialSearch) as [[b st] Hrun].
  - apply elem_of_list_to_set. unfold nodesOf. set_solver.
  - unfold searchFuel. change (visited initialSearch) with (∅ : gset string).
    pose proof (size_list_to_set_le (nodesOf cell tempGraph)).
    assert (size (list_to_set (nodesOf cell tempGraph) ∖ ∅ : gset string)
            ≤ size (list_to_set (nodesOf cell tempGraph) : gset string))
      by (apply subseteq_size; set_solver).
    lia.
  - rewrite Hrun. destruct b; eauto.
Qed.
End CycleSearch.

Section Store.
Import GraphStore.

Lemma lookup_view h mapRef k :
  view h mapRef !! k = entriesOf h mapRef !! k ≫= membersOf h.
Proof. unfold view. apply lookup_omap. Qed.

Lemma checkCircularReference_heap c cell deps h :
  (checkCircularReference c cell deps h).2
  = <[length h := MapObj (<[cell := S (length h)]> (entriesOf h (dependenciesRef c)))]>
      ((h ++ [MapObj (entriesOf h (dependenciesRef c))])
         ++ [SetObj (DependencyGraph.setOfList deps)]).
Proof.
  unfold checkCircularReference, alloc, mapSet. simpl.
  rewrite length_app. simpl. rewrite Nat.add_1_r.
  rewrite lookup_app_l by (rewrite length_app; simpl; lia).
  rewrite list_lookup_middle by done. reflexivity.
Qed.

Lemma frame_below c cell deps h l :
  l < length h → (checkCircularReference c cell deps h).2 !! l = h !! l.
Proof.
  intros Hl. rewrite checkCircularReference_heap.
  rewrite list_lookup_insert_ne by lia.
  rewrite !lookup_app_l; [done|lia|rewrite length_app; lia].
Qed.

Lemma view_below h h' mapRef :
  (∀ l, l < length h → h' !! l = h !! l) →
  mapRef < length h →
  map_Forall (λ _ l, l < length h) (entriesOf h mapRef) →
  view h' mapRef = view h mapRef.
Proof.
  intros Hframe Href Hall. apply map_eq. intros k.
  rewrite !lookup_view. unfold entriesOf. rewrite (Hframe _ Href).
  fold (entriesOf h mapRef).
  destruct (entriesOf h mapRef !! k) as [l|] eqn:Hk; [|done]. simpl.
  unfold membersOf. by rewrite (Hframe l (Hall k l Hk)).
Qed.

Lemma view_tempGraph c cell deps h :
  map_Forall (λ _ l, l < length h) (entriesOf h (dependenciesRef c)) →
  view (checkCircularReference c cell deps h).2 (length h)
  = <[cell := DependencyGraph.setOfList deps]> (view h (dependenciesRef c)).
Proof.
  intros Hall. apply map_eq. intros k.
  rewrite lookup_view. unfold entriesOf at 1.
  rewrite checkCircularReference_heap.
  rewrite list_lookup_insert_eq by (rewrite !length_app; simpl; lia).
  destruct (decide (k = cell)) as [->|Hne].
  - rewrite !lookup_insert_eq. simpl. unfold membersOf.
    rewrite list_lookup_insert_ne by lia.
    rewrite lookup_app_r by (rewrite length_app; simpl; lia).
    rewrite length_app. simpl. by replace (S (length h) - (length h + 1)) with 0 by lia.
  - rewrite !lookup_insert_ne by done. rewrite lookup_view.
    destruct (entriesOf h (dependenciesRef c) !! k) as [l|] eqn:Hk; [|done]. simpl.
    pose proof (Hall k l Hk) as Hl. simpl in Hl.
    unfold membersOf. rewrite list_lookup_insert_ne by lia.
    rewrite !lookup_app_l; [done|lia|rewrite length_app; lia].
Qed.

(** C5: [checkCircularReference] leaves the graph as it found it.  Every
    object that was allocated before the call holds the same contents after
    it, so the forward map and the reverse map denote the same maps of sets
    as before, whether or not a cycle is reported; the call only allocates
    the temporary map and the set of the candidate.  Its result is the one
    computed on the denoted graph, and its search always completes. *)
Theorem C5_checkCircularReference_leaves_graph c cell deps h :
  allocated h c →
  (∀ l, l < length h → (checkCircularReference c cell deps h).2 !! l = h !! l) ∧
  graphOf (checkCircularReference c cell deps h).2 c = graphOf h c ∧
  (checkCircularReference c cell deps h).1
    = DependencyGraph.checkCircularReference (graphOf h c) cell deps ∧
  is_Some (DependencyGraph.searchCycle
             (<[cell := DependencyGraph.setOfList deps]>
                (DependencyGraph.dependencies (graphOf h c))) cell).
Proof.
  intros ([e1 He1] & [e2 He2] & Hall1 & Hall2).
  assert (Hd : dependenciesRef c < length h) by (by eapply lookup_lt_Some).
  assert (Ht : dependentsRef c < length h) by (by eapply lookup_lt_Some).
  split; [intros l Hl; by apply frame_below|].
  split.
  { unfold graphOf. f_equal; apply view_below; try done; intros l Hl; by apply frame_below. }
  split; [|apply searchCycle_total].
  unfold DependencyGraph.checkCircularReference. simpl.
  rewrite <- (view_tempGraph c cell deps h Hall1).
  reflexivity.
Qed.
End Store.

(** The store of the example denotes the graph built by the same calls on
    the maps of sets. *)
Lemma chainStore_denotes :
  GraphStore.graphOf chainStore.2 chainStore.1
  = DependencyGraph.addDependency "B1" "C1"
      (DependencyGraph.addDependency "A1" "B1" DependencyGraph.empty).
Proof. vm_compute. reflexivity. Qed.

Lemma chainStore_allocated : GraphStore.allocated chainStore.2 chainStore.1.
Proof.
  split; [eexists; reflexivity|]. split; [eexists; reflexivity|].
  split; apply (bool_decide_unpack _); vm_compute; exact I.
Qed.

Lemma C5_checkCircularReference_leaves_graph_witness :
  GraphStore.allocated chainStore.2 chainStore.1 ∧
  GraphStore.graphOf (GraphStore.checkCircularReference chainStore.1 "C1" ["A1"] chainStore.2).2
    chainStore.1 = GraphStore.graphOf chainStore.2 chainStore.1.
Proof.
  split; [exact chainStore_allocated|].
  exact (proj1 (proj2 (C5_checkCircularReference_leaves_graph chainStore.1 "C1" ["A1"]
                         chainStore.2 chainStore_allocated))).
Defined.

(** ** Export and import *)

Section Forward.
Import DependencyGraph.

Lemma setAdd_NoDup x l : NoDup l → NoDup (Js.setAdd x l).
Proof.
  intros Hl. unfold Js.setAdd. case_decide; [done|].
  apply NoDup_app. split; [done|]. split; [|apply NoDup_singleton].
  intros y Hy Hy'. apply list_elem_of_singleton in Hy' as ->. done.
Qed.

Lemma fold_setAdd_NoDup {A} (f : A → string) (l : list A) acc :
  NoDup acc → NoDup (fold_left (λ acc m, Js.setAdd (f m) acc) l acc).
Proof.
  revert acc. induction l as [|x l IH]; intros acc Hacc; simpl; [done|].
  apply IH. by apply setAdd_NoDup.
Qed.

Lemma extractCellReferences_NoDup formula :
  NoDup (FormulaParser.extractCellReferences formula).
Proof.
  unfold FormulaParser.extractCellReferences.
  generalize (Js.matchAll FormulaParser.RANGE_REGEX formula).
  assert (H0 : NoDup (fold_left (λ acc m, Js.setAdd m.2 acc)
                        (Js.matchAll FormulaParser.CELL_REGEX formula) []))
    by (apply fold_setAdd_NoDup; constructor).
  revert H0. generalize (fold_left (λ acc m, Js.setAdd m.2 acc)
                        (Js.matchAll FormulaParser.CELL_REGEX formula) []).
  intros acc Hacc l. revert acc Hacc.
  induction l as [|[i [[w a] b]] l IH]; intros acc Hacc; simpl; [done|].
  apply IH. by apply (fold_setAdd_NoDup id).
Qed.

Lemma formulaDependencies_NoDup f : NoDup (formulaDependencies f).
Proof.
  unfold formulaDependencies, FormulaParser.parseFormula.
  destruct (Js.startsWith f "="); simpl; [apply extractCellReferences_NoDup|constructor].
Qed.

(** [new Set(l)] of a list without repeats lists it as it is. *)
Lemma fold_setAdd_fresh (l acc : list string) :
  NoDup (acc ++ l) → fold_left (λ acc x, Js.setAdd x acc) l acc = acc ++ l.
Proof.
  revert acc. induction l as [|x l IH]; intros acc Hnd; simpl; [by rewrite app_nil_r|].
  unfold Js.setAdd at 2. rewrite decide_False.
  - rewrite IH; [by rewrite <- app_assoc|]. by rewrite <- app_assoc.
  - apply NoDup_app in Hnd as (_ & Hd & _). intros Hx. apply (Hd x Hx). set_solver.
Qed.

Lemma dependencies_addDependency a b g k :
  dependencies (addDependency a b g) !! k
  = if decide (k = a) then Some (Js.setAdd b (default [] (dependencies g !! a)))
    else dependencies g !! k.
Proof.
  unfold addDependency, ensure. simpl.
  destruct (decide (k = a)) as [->|Hne].
  - rewrite lookup_alter_eq. destruct (dependencies g !! a) as [l|] eqn:E.
    + by rewrite E.
    + by rewrite lookup_insert_eq.
  - rewrite lookup_alter_ne by done.
    destruct (dependencies g !! a); [done|]. by rewrite lookup_insert_ne.
Qed.

Lemma dependencies_register a deps g k :
  dependencies (fold_left (λ g dep, addDependency a dep g) deps g) !! k
  = if decide (k = a) then
      match deps with
      | [] => dependencies g !! a
      | _ => Some (fold_left (λ acc x, Js.setAdd x acc) deps (default [] (dependencies g !! a)))
      end
    else dependencies g !! k.
Proof.
  revert g. induction deps as [|d deps IH]; intros g; simpl.
  - by case_decide; subst.
  - rewrite IH. case_decide as Hk; [|rewrite dependencies_addDependency; by rewrite decide_False].
    subst k. rewrite !dependencies_addDependency, decide_True by done. simpl.
    by destruct deps.
Qed.

Lemma dependencies_removeDependencies a g :
  dependencies (removeDependencies a g) = delete a (dependencies g).
Proof.
  unfold removeDependencies. destruct (dependencies g !! a) eqn:E; simpl; [done|].
  symmetry. by apply delete_id.
Qed.

Lemma getStats_forward g1 g2 :
  dependencies g1 = dependencies g2 → getStats g1 = getStats g2.
Proof. intros E. unfold getStats. by rewrite E. Qed.
End Forward.

Section Rebuild.
Import DependencyGraph.

Lemma lookupCell_None k cs : Engine.lookupCell k cs = None ↔ k ∉ cs.*1.
Proof.
  induction cs as [|[k0 c0] cs IH]; simpl.
  - split; [intros _; apply not_elem_of_nil|done].
  - case_decide as Hk; subst.
    + split; [done|]. intros []. apply elem_of_cons. by left.
    + rewrite IH. rewrite not_elem_of_cons. naive_solver.
Qed.

Lemma storeCell_keys_NoDup k c cs : NoDup cs.*1 → NoDup (Engine.storeCell k c cs).*1.
Proof.
  induction cs as [|[k0 c0] cs IH]; simpl.
  - intros _. apply NoDup_singleton.
  - intros [Hk0 Hcs]%NoDup_cons. case_decide as Hk; simpl.
    + by constructor.
    + constructor; [|by apply IH].
      intros Hin. apply Hk0. clear IH Hcs Hk0.
      induction cs as [|[k1 c1] cs IH]; simpl in *.
      * apply list_elem_of_singleton in Hin. by subst.
      * case_decide; simpl in *; [done|].
        apply elem_of_cons in Hin as [->|Hin]; [apply elem_of_cons; by left|].
        apply elem_of_cons. right. by apply IH.
Qed.

Lemma formulaEdgesAt_storeCell cellId cell cs k :
  formulaEdgesAt (Engine.storeCell cellId cell cs) k
  = if decide (k = cellId) then formulaEdges cell else formulaEdgesAt cs k.
Proof.
  unfold formulaEdgesAt. case_decide as Hk.
  - subst. by rewrite lookupCell_storeCell_eq.
  - by rewrite lookupCell_storeCell_ne.
Qed.

Lemma rebuildStep_lookup g cellId cell k :
  dependencies g !! cellId = None →
  dependencies (rebuildStep g (cellId, cell)) !! k
  = if decide (k = cellId) then formulaEdges cell else dependencies g !! k.
Proof.
  intros Hnone. unfold rebuildStep, formulaEdges.
  fold (formulaDependencies (default EmptyString (Engine.formula cell))).
  destruct (truthy (Engine.formula cell)).
  - rewrite dependencies_register. case_decide as Hk; [|done].
    rewrite Hnone. simpl.
    pose proof (formulaDependencies_NoDup (default EmptyString (Engine.formula cell))) as Hnd.
    destruct (formulaDependencies _) as [|d deps] eqn:E; [done|].
    f_equal. rewrite <- E in *. by apply (fold_setAdd_fresh _ []).
  - case_decide; by subst.
Qed.

Lemma rebuild_lookup cs : ∀ g,
  NoDup cs.*1 →
  (∀ k, k ∈ cs.*1 → dependencies g !! k = None) →
  ∀ k, dependencies (fold_left rebuildStep cs g) !! k
       = if decide (k ∈ cs.*1) then formulaEdgesAt cs k else dependencies g !! k.
Proof.
  induction cs as [|[k0 c0] cs IH]; intros g Hnd Hg k.
  - done.
  - rewrite fmap_cons in Hnd, Hg |- *. cbn [fold_left fst] in *.
    apply NoDup_cons in Hnd as [Hk0 Hnd].
    rewrite IH; [|done|].
    + unfold formulaEdgesAt. cbn [Engine.lookupCell].
      rewrite rebuildStep_lookup by (apply Hg; apply elem_of_cons; by left).
      repeat case_decide; subst; try done.
      all: try (exfalso; set_solver).
    + intros k1 Hk1. rewrite rebuildStep_lookup by (apply Hg; apply elem_of_cons; by left).
      rewrite decide_False by (intros ->; done).
      apply Hg. apply elem_of_cons. by right.
Qed.

Lemma rebuildDependencyGraph_matches s :
  uniqueKeys s → graphMatchesFormulas (Engine.rebuildDependencyGraph s).
Proof.
  intros Hnd k. unfold Engine.rebuildDependencyGraph. simpl.
  change (dependencies (fold_left rebuildStep (Engine.cells (Engine.data s)) empty) !! k
          = formulaEdgesAt (Engine.cells (Engine.data s)) k).
  rewrite rebuild_lookup; [|done|intros; apply lookup_empty].
  case_decide as Hk; [done|]. simpl. rewrite lookup_empty.
  unfold formulaEdgesAt. apply lookupCell_None in Hk. by rewrite Hk.
Qed.
End Rebuild.

Section ExportImport.
Import DependencyGraph.
Context {host : JsHost}.

Lemma data_reimported s : Engine.data (reimported s) = Engine.data s.
Proof. unfold reimported. destruct s as [[cs lm ver] g n]. reflexivity. Qed.

Lemma storeCell_keys_existing k c c' cs :
  Engine.lookupCell k cs = Some c → (Engine.storeCell k c' cs).*1 = cs.*1.
Proof.
  induction cs as [|[k0 c0] cs IH]; simpl; [done|].
  case_decide; subst; simpl; [done|]. intros Hl. f_equal. by apply IH.
Qed.

Lemma recalculateCell_keys cs d : (Engine.recalculateCell cs d).*1 = cs.*1.
Proof.
  unfold Engine.recalculateCell. destruct (Engine.lookupCell d cs) as [c|] eqn:E; [|done].
  destruct (truthy (Engine.formula c)); [|done]. by eapply storeCell_keys_existing.
Qed.

Lemma recalculateCell_formulaEdgesAt cs d k :
  formulaEdgesAt (Engine.recalculateCell cs d) k = formulaEdgesAt cs k.
Proof.
  unfold Engine.recalculateCell. destruct (Engine.lookupCell d cs) as [c|] eqn:E; [|done].
  destruct (truthy (Engine.formula c)) eqn:Hf; [|done].
  rewrite formulaEdgesAt_storeCell. case_decide as Hk; [|done]. subst.
  unfold formulaEdgesAt. rewrite E. reflexivity.
Qed.

Lemma recalculate_keys ds cs : (fold_left Engine.recalculateCell ds cs).*1 = cs.*1.
Proof.
  revert cs. induction ds as [|d ds IH]; intros cs; simpl; [done|].
  by rewrite IH, recalculateCell_keys.
Qed.

Lemma recalculate_formulaEdgesAt ds cs k :
  formulaEdgesAt (fold_left Engine.recalculateCell ds cs) k = formulaEdgesAt cs k.
Proof.
  revert cs. induction ds as [|d ds IH]; intros cs; simpl; [done|].
  by rewrite IH, recalculateCell_formulaEdgesAt.
Qed.

Lemma detached_forward s cellId k :
  graphMatchesFormulas s →
  dependencies (Engine.dependencyGraph (detached s cellId)) !! k
  = if decide (k = cellId) then None
    else formulaEdgesAt (Engine.cells (Engine.data s)) k.
Proof.
  intros Hm. unfold detached.
  destruct (truthy (Engine.lookupCell cellId (Engine.cells (Engine.data s)) ≫= Engine.formula))
    eqn:Hold; simpl.
  - rewrite dependencies_removeDependencies. case_decide as Hk.
    + subst. apply lookup_delete_eq.
    + rewrite lookup_delete_ne by done. apply Hm.
  - rewrite Hm. case_decide as Hk; [|done]. subst.
    unfold formulaEdgesAt, formulaEdges.
    destruct (Engine.lookupCell cellId _) as [c|]; [|done]. simpl in *. by rewrite Hold.
Qed.

(** The invariant survives every write that registers its edges. *)
Lemma set_keeps_graph_matching s cellId v f now :
  uniqueKeys s → graphMatchesFormulas s → registersItsEdges s cellId f →
  uniqueKeys (Engine.set s cellId v f now).1 ∧
  graphMatchesFormulas (Engine.set s cellId v f now).1.
Proof.
  intros Hu Hm [Hlit|(text & -> & Hreach)].
  - unfold Engine.set. destruct (Engine.isValidCellId cellId); simpl; [|done].
    rewrite Hlit. simpl. fold (detached s cellId). rewrite data_detached.
    split.
    + unfold uniqueKeys. simpl. rewrite recalculate_keys. by apply storeCell_keys_NoDup.
    + intros k. simpl. rewrite recalculate_formulaEdgesAt, formulaEdgesAt_storeCell.
      rewrite detached_forward by done. by case_decide.
  - rewrite (set_reaching_evaluation _ _ _ _ _ Hreach). cbv zeta.
    assert (Hfwd : ∀ k,
      dependencies (Engine.dependencyGraph (registered s cellId text)) !! k
      = formulaEdgesAt (Engine.storeCell cellId (evaluatedCell s cellId text)
                          (Engine.cells (Engine.data s))) k).
    { intros k. unfold registered. simpl. rewrite dependencies_register.
      rewrite formulaEdgesAt_storeCell, !detached_forward by done.
      case_decide as Hk; [|done]. rewrite decide_True by done.
      destruct Hreach as (_ & Htr & _).
      unfold formulaEdges, evaluatedCell. cbn [Engine.formula]. rewrite Htr.
      change (default EmptyString (Some text)) with text.
      pose proof (formulaDependencies_NoDup text) as Hnd.
      destruct (formulaDependencies text) as [|d deps] eqn:E; [done|].
      f_equal. rewrite <- E in *. by apply (fold_setAdd_fresh _ []). }
    destruct (truthy (FormulaParser.error (evaluated s cellId text))); simpl.
    + split; [by apply storeCell_keys_NoDup|done].
    + split.
      * unfold uniqueKeys. simpl. rewrite recalculate_keys. by apply storeCell_keys_NoDup.
      * intros k. simpl. by rewrite recalculate_formulaEdgesAt.
Qed.

Lemma lookupCell_deleteCell cellId cs k :
  Engine.lookupCell k (Engine.deleteCell cellId cs)
  = if decide (k = cellId) then None else Engine.lookupCell k cs.
Proof.
  unfold Engine.deleteCell. induction cs as [|[k0 c0] cs IH]; simpl.
  - by case_decide.
  - rewrite filter_cons. simpl.
    destruct (decide (k0 ≠ cellId)) as [Hne|Heq%dec_stable]; simpl.
    + destruct (decide (k0 = k)) as [->|Hk].
      * by rewrite decide_False.
      * exact IH.
    + subst k0. rewrite IH. destruct (decide (cellId = k)) as [->|Hk].
      * by rewrite !decide_True.
      * by rewrite !decide_False by done.
Qed.

Lemma deleteCell_keys_NoDup cellId cs : NoDup cs.*1 → NoDup (Engine.deleteCell cellId cs).*1.
Proof.
  intros Hnd. unfold Engine.deleteCell.
  eapply sublist_NoDup; [exact Hnd|]. apply fmap_sublist, sublist_filter.
Qed.

(** ... and every [clearCell], and every import re-establishes it. *)
Lemma clearCell_keeps_graph_matching s cellId now :
  uniqueKeys s → graphMatchesFormulas s →
  uniqueKeys (Engine.clearCell s cellId now).1 ∧
  graphMatchesFormulas (Engine.clearCell s cellId now).1.
Proof.
  intros Hu Hm. unfold Engine.clearCell.
  destruct (Engine.isValidCellId cellId); simpl; [|done].
  destruct (Engine.lookupCell cellId (Engine.cells (Engine.data s))) eqn:Hc; simpl; [|done].
  split.
  - unfold uniqueKeys. simpl. rewrite recalculate_keys. by apply deleteCell_keys_NoDup.
  - intros k. simpl. rewrite recalculate_formulaEdgesAt, dependencies_removeDependencies.
    unfold formulaEdgesAt. rewrite lookupCell_deleteCell. case_decide as Hk.
    + subst. apply lookup_delete_eq.
    + rewrite lookup_delete_ne by done. apply Hm.
Qed.

Lemma importData_matches s d :
  NoDup (Engine.cells d).*1 → graphMatchesFormulas (Engine.importData s d).
Proof.
  intros Hd k.
  exact (rebuildDependencyGraph_matches
           {| Engine.data := {| Engine.cells := Engine.cells d;
                                Engine.lastModified := Engine.lastModified d;
                                Engine.version := Engine.version d |};
              Engine.dependencyGraph := Engine.dependencyGraph s;
              Engine.notifications := Engine.notifications s |} Hd k).
Qed.
(** Exporting a snapshot and importing it into a fresh engine reproduces
    the raw value and the formula of every cell.  The statistics of the
    rebuilt graph are those of the exporting engine whenever its graph
    holds, for every cell, exactly the references of the stored formula. *)
Lemma export_import_reproduces_cells (s : Engine.State) :
  (∀ cellId,
     Engine.getRawValue (Engine.data (reimported s)) cellId
       = Engine.getRawValue (Engine.data s) cellId ∧
     Engine.getFormula (reimported s) cellId = Engine.getFormula s cellId) ∧
  (uniqueKeys s → graphMatchesFormulas s →
   getStats (Engine.dependencyGraph (reimported s)) = getStats (Engine.dependencyGraph s)).
Proof.
  split.
  - intros cellId. unfold Engine.getFormula. by rewrite data_reimported.
  - intros Hu Hm. apply getStats_forward. apply map_eq. intros k.
    rewrite Hm. rewrite <- (data_reimported s).
    apply rebuildDependencyGraph_matches.
    unfold uniqueKeys. simpl. apply Hu.
Qed.
End ExportImport.

Lemma freshEngine_matches : uniqueKeys freshEngine ∧ graphMatchesFormulas freshEngine.
Proof. split; [apply NoDup_nil_2|]. intros k. apply lookup_empty. Qed.

Lemma recovery1_matches {host : JsHost} (t1 : Z) :
  uniqueKeys (recovery1 t1).1 ∧ graphMatchesFormulas (recovery1 t1).1.
Proof.
  destruct freshEngine_matches as [Hu Hm].
  apply set_keeps_graph_matching; [done|done|].
  right. exists "=B1". split; [done|apply fresh_reaches].
Qed.

(** C7: the claim fails on the engine that holds a formula stored by a
    cycle rejection.  After A1 := [=B1] and the rejected B1 := [=A1], the
    write path has left B1 without an edge: one cell owns one edge.
    Export and import reproduce the raw value and the formula of every
    cell, but the rebuild registers the edge of B1 as well: two cells own
    two edges, A1 and B1 refer to each other, and the write C1 := [=A1],
    which the exporting engine accepts, is turned down as circular by the
    importing one. *)
Theorem C7_reimport_registers_rejected_formula :
  (∀ cellId,
     Engine.getRawValue (Engine.data (reimported rejectedCycleEngine)) cellId
       = Engine.getRawValue (Engine.data rejectedCycleEngine) cellId ∧
     Engine.getFormula (reimported rejectedCycleEngine) cellId
       = Engine.getFormula rejectedCycleEngine cellId) ∧
  DependencyGraph.getStats (Engine.dependencyGraph rejectedCycleEngine)
  = {| DependencyGraph.totalDependencies := 1; DependencyGraph.totalCells := 1 |} ∧
  DependencyGraph.getStats (Engine.dependencyGraph (reimported rejectedCycleEngine))
  = {| DependencyGraph.totalDependencies := 2; DependencyGraph.totalCells := 2 |} ∧
  DependencyGraph.getStats (Engine.dependencyGraph (reimported rejectedCycleEngine))
  ≠ DependencyGraph.getStats (Engine.dependencyGraph rejectedCycleEngine) ∧
  DependencyGraph.getDependencies (Engine.dependencyGraph rejectedCycleEngine) "B1" = [] ∧
  DependencyGraph.getDependencies
    (Engine.dependencyGraph (reimported rejectedCycleEngine)) "B1" = ["A1"] ∧
  acyclic (DependencyGraph.dependencies (Engine.dependencyGraph rejectedCycleEngine)) ∧
  ¬ acyclic (DependencyGraph.dependencies
               (Engine.dependencyGraph (reimported rejectedCycleEngine))) ∧
  (Engine.set (host := IntegerHost.integerHost)
     rejectedCycleEngine "C1" None (Some "=A1") 3).2 = true ∧
  (Engine.set (host := IntegerHost.integerHost)
     (reimported rejectedCycleEngine) "C1" None (Some "=A1") 3).2 = false ∧
  cellError
    (Engine.set (host := IntegerHost.integerHost)
       (reimported rejectedCycleEngine) "C1" None (Some "=A1") 3).1 "C1"
  = Some "Circular reference detected: C1 → A1 → B1 → C1".
Proof.
  split; [apply export_import_reproduces_cells|].
  split; [vm_compute; reflexivity|]. split; [vm_compute; reflexivity|].
  split; [vm_compute; discriminate|].
  split; [vm_compute; reflexivity|]. split; [vm_compute; reflexivity|].
  split.
  { intros n Hn. apply tc_rtc_step in Hn as (y & Hny & Hyn).
    assert (Hedge : ∀ a b,
      dependsOn (DependencyGraph.dependencies (Engine.dependencyGraph rejectedCycleEngine)) a b
      → a = "A1" ∧ b = "B1").
    { intros a b Hab. unfold dependsOn in Hab.
      replace (DependencyGraph.dependencies (Engine.dependencyGraph rejectedCycleEngine))
        with (<["A1" := ["B1"]]> (∅ : gmap string (list string))) in Hab
        by (vm_compute; reflexivity).
      destruct (decide (a = "A1")) as [->|Hne].
      - rewrite lookup_insert_eq in Hab. simpl in Hab.
        apply list_elem_of_singleton in Hab. done.
      - rewrite lookup_insert_ne, lookup_empty in Hab by done.
        by apply elem_of_nil in Hab. }
    apply Hedge in Hyn as [-> ->].
    destruct (rtc_inv _ _ Hny) as [[=]|(z & Hnz & _)].
    apply Hedge in Hnz as [[=] _]. }
  split.
  { intros Hacyclic. apply (Hacyclic "A1").
    eapply tc_l; [|apply tc_once].
    - unfold dependsOn. instantiate (1 := "B1").
      apply (bool_decide_unpack _). vm_compute. exact I.
    - unfold dependsOn. apply (bool_decide_unpack _). vm_compute. exact I. }
  split; [vm_compute; reflexivity|]. split; vm_compute; reflexivity.
Qed.

(** ** The dependency graph: edits, cycle search and statistics *)

Section GraphBasics.
Import DependencyGraph.

Lemma elem_of_setAdd x y l : x ∈ Js.setAdd y l ↔ x = y ∨ x ∈ l.
Proof.
  unfold Js.setAdd. case_decide as Hy.
  - split; [auto|]. intros [->|]; done.
  - rewrite elem_of_app, list_elem_of_singleton. tauto.
Qed.

Lemma elem_of_setDelete x y l : x ∈ Js.setDelete y l ↔ x ∈ l ∧ x ≠ y.
Proof. unfold Js.setDelete. rewrite list_elem_of_filter. tauto. Qed.

Lemma setAdd_idemp x l : Js.setAdd x (Js.setAdd x l) = Js.setAdd x l.
Proof.
  unfold Js.setAdd at 1. rewrite decide_True; [done|]. apply elem_of_setAdd. by left.
Qed.

Lemma dependents_addDependency a b g k :
  dependents (addDependency a b g) !! k
  = if decide (k = b) then Some (Js.setAdd a (default [] (dependents g !! b)))
    else dependents g !! k.
Proof.
  unfold addDependency, ensure. simpl.
  destruct (decide (k = b)) as [->|Hne].
  - rewrite lookup_alter_eq. destruct (dependents g !! b) as [l|] eqn:E.
    + by rewrite E.
    + by rewrite lookup_insert_eq.
  - rewrite lookup_alter_ne by done.
    destruct (dependents g !! b); [done|]. by rewrite lookup_insert_ne.
Qed.

Lemma getDependencies_addDependency a b g k :
  getDependencies (addDependency a b g) k
  = if decide (k = a) then Js.setAdd b (getDependencies g a) else getDependencies g k.
Proof. unfold getDependencies. rewrite dependencies_addDependency. by case_decide. Qed.

Lemma getDependents_addDependency a b g k :
  getDependents (addDependency a b g) k
  = if decide (k = b) then Js.setAdd a (getDependents g b) else getDependents g k.
Proof. unfold getDependents. rewrite dependents_addDependency. by case_decide. Qed.

Lemma addDependency_idemp a b g :
  addDependency a b (addDependency a b g) = addDependency a b g.
Proof.
  assert (Hd : dependencies (addDependency a b (addDependency a b g))
               = dependencies (addDependency a b g)).
  { apply map_eq. intros k. rewrite !dependencies_addDependency.
    case_decide; [|done]. rewrite decide_True by done. simpl. by rewrite setAdd_idemp. }
  assert (Ht : dependents (addDependency a b (addDependency a b g))
               = dependents (addDependency a b g)).
  { apply map_eq. intros k. rewrite !dependents_addDependency.
    case_decide; [|done]. rewrite decide_True by done. simpl. by rewrite setAdd_idemp. }
  destruct (addDependency a b (addDependency a b g)), (addDependency a b g).
  simpl in *. by subst.
Qed.

Lemma fold_alter_lookup (f : list string → list string) deps (m : gmap string (list string)) k :
  k ∉ deps →
  fold_left (λ m dep, alter f dep m) deps m !! k = m !! k.
Proof.
  revert m. induction deps as [|d deps IH]; intros m Hk; simpl; [done|].
  rewrite IH by set_solver. apply lookup_alter_ne. set_solver.
Qed.

Lemma fold_setDelete_elem c deps (m : gmap string (list string)) k x :
  x ∈ default [] (fold_left (λ m dep, alter (Js.setDelete c) dep m) deps m !! k)
  ↔ x ∈ default [] (m !! k) ∧ ¬ (x = c ∧ k ∈ deps).
Proof.
  revert m. induction deps as [|d deps IH]; intros m; simpl.
  - split; [intros H; split; [done|]; intros [_ []%elem_of_nil]|tauto].
  - rewrite IH. destruct (decide (k = d)) as [->|Hne].
    + rewrite lookup_alter_eq. destruct (m !! d) as [l|]; simpl.
      * rewrite elem_of_setDelete. rewrite elem_of_cons. naive_solver.
      * split; [by intros [[]%elem_of_nil _]|by intros [[]%elem_of_nil _]].
    + rewrite lookup_alter_ne by done. rewrite elem_of_cons. naive_solver.
Qed.

Lemma elem_of_getDependencies_remove c g k x :
  x ∈ getDependencies (removeDependencies c g) k ↔ k ≠ c ∧ x ∈ getDependencies g k.
Proof.
  unfold getDependencies. rewrite dependencies_removeDependencies.
  destruct (decide (k = c)) as [->|Hne].
  - rewrite lookup_delete_eq. simpl. split; [by intros []%elem_of_nil|by intros [[] _]].
  - rewrite lookup_delete_ne by done. tauto.
Qed.

Lemma elem_of_getDependents_remove c g k x :
  x ∈ getDependents (removeDependencies c g) k
  ↔ x ∈ getDependents g k ∧ ¬ (x = c ∧ k ∈ getDependencies g c).
Proof.
  unfold getDependents, getDependencies, removeDependencies.
  destruct (dependencies g !! c) as [deps|] eqn:E; simpl.
  - apply fold_setDelete_elem.
  - split; [intros H; split; [done|]; intros [_ []%elem_of_nil]|tauto].
Qed.

Lemma consistent_empty : consistent empty.
Proof.
  intros a b. unfold getDependencies, getDependents, empty. cbn [dependencies dependents].
  rewrite !lookup_empty. simpl. split; by intros []%elem_of_nil.
Qed.

Lemma consistent_addDependency a b g : consistent g → consistent (addDependency a b g).
Proof.
  intros Hc x y. rewrite getDependencies_addDependency, getDependents_addDependency.
  repeat case_decide; subst; rewrite ?elem_of_setAdd, ?(Hc _ _); naive_solver.
Qed.

Lemma consistent_removeDependencies c g : consistent g → consistent (removeDependencies c g).
Proof.
  intros Hc x y. rewrite elem_of_getDependencies_remove, elem_of_getDependents_remove.
  rewrite <- (Hc x y). split.
  - intros [Hne Hy]. split; [done|]. intros [-> _]. done.
  - intros [Hy Hn]. split; [|done]. intros ->. apply Hn. done.
Qed.

End GraphBasics.
Section CycleCorrect.
Import DependencyGraph.
Variable m : gmap string (list string).
#[local] Abbreviation E := (dependsOn m).
#[local] Abbreviation R := (λ y x, dependsOn m x y).

Lemma setDelete_setAdd_fresh x l : x ∉ l → Js.setDelete x (Js.setAdd x l) = l.
Proof.
  intros Hx. unfold Js.setAdd. rewrite decide_False by done.
  unfold Js.setDelete. rewrite filter_app, filter_cons, decide_False by naive_solver.
  rewrite filter_nil, app_nil_r.
  induction l as [|y l IH]; [done|].
  rewrite filter_cons, decide_True by set_solver. f_equal. apply IH. set_solver.
Qed.

Lemma anyCycle_false_frame call deps :
  (∀ dep st st', call dep st = Some (false, st') →
     path st' = path st ∧ recursionStack st' = recursionStack st) →
  ∀ st st', anyCycle call deps st = Some (false, st') →
     path st' = path st ∧ recursionStack st' = recursionStack st.
Proof.
  intros Hcall. induction deps as [|d deps IH]; intros st st'; simpl.
  - by intros [= <-].
  - destruct (call d st) as [[[] st1]|] eqn:Ec; [discriminate| |discriminate].
    intros Hrest. apply IH in Hrest as [-> ->]. by apply (Hcall d).
Qed.

Lemma hasCycle_false_frame fuel : ∀ node st st',
  hasCycle fuel m node st = Some (false, st') →
  path st' = path st ∧ recursionStack st' = recursionStack st.
Proof.
  induction fuel as [|fuel IH]; intros node st st'; simpl; [discriminate|].
  destruct (Js.setHas node (recursionStack st)) eqn:Hs; [discriminate|].
  case_bool_decide; [by intros [= <-]|].
  destruct (anyCycle _ _ _) as [[[] st2]|] eqn:Ea; [discriminate| |discriminate].
  intros [= <-]. simpl.
  apply (anyCycle_false_frame _ _ (IH)) in Ea as [Hp Hr]. simpl in *.
  rewrite Hp, Hr. split.
  - apply removelast_last.
  - apply setDelete_setAdd_fresh. unfold Js.setHas in Hs.
    by apply bool_decide_eq_false in Hs.
Qed.

(** Completeness: cells finished without a report have no cycle below them. *)
Lemma hasCycle_false_safe fuel : ∀ node st st',
  hasCycle fuel m node st = Some (false, st') →
  finishedSafe m st → finishedSafe m st' ∧ Acc R node.
Proof.
  induction fuel as [|fuel IH]; intros node st st'; simpl; [discriminate|].
  destruct (Js.setHas node (recursionStack st)) eqn:Hs; [discriminate|].
  assert (Hns : node ∉ recursionStack st).
  { unfold Js.setHas in Hs. by apply bool_decide_eq_false in Hs. }
  case_bool_decide as Hv.
  { intros [= <-] Hsafe. split; [done|]. by apply Hsafe. }
  destruct (anyCycle _ _ _) as [[[] st2]|] eqn:Ea; [discriminate| |discriminate].
  intros [= <-] Hsafe.
  set (st1 := {| visited := {[node]} ∪ visited st;
                 recursionStack := Js.setAdd node (recursionStack st);
                 path := path st ++ [node] |}) in *.
  assert (Hloop : ∀ deps s0 s1,
            anyCycle (hasCycle fuel m) deps s0 = Some (false, s1) →
            finishedSafe m s0 → finishedSafe m s1 ∧ ∀ d, d ∈ deps → Acc R d).
  { induction deps as [|d deps IHd]; intros s0 s1; simpl.
    - intros [= <-] H0. split; [done|]. by intros d []%elem_of_nil.
    - destruct (hasCycle fuel m d s0) as [[[] s2]|] eqn:Ec; [discriminate| |discriminate].
      intros Hrest H0. apply IH in Ec as [H2 Hd]; [|done].
      apply IHd in Hrest as [H1 Hds]; [|done].
      split; [done|]. intros d' [->|Hd']%elem_of_cons; auto. }
  assert (Hsafe1 : finishedSafe m st1).
  { intros v Hv1 Hvs. simpl in *. apply Hsafe.
    - apply elem_of_union in Hv1 as [->%elem_of_singleton|]; [|done].
      exfalso. apply Hvs. apply elem_of_setAdd. by left.
    - intros Hin. apply Hvs. apply elem_of_setAdd. by right. }
  pose proof (anyCycle_false_frame _ _ (hasCycle_false_frame fuel) _ _ Ea) as [_ Hr].
  apply Hloop in Ea as [Hsafe2 Hdeps]; [|done].
  assert (Hacc : Acc R node) by (constructor; intros y Hy; by apply Hdeps).
  split; [|done].
  intros v Hv2 Hvs. simpl in *.
  destruct (decide (v = node)) as [->|Hne]; [done|].
  apply Hsafe2; [done|]. rewrite Hr. simpl.
  rewrite Hr in Hvs. simpl in Hvs. rewrite setDelete_setAdd_fresh in Hvs by done.
  rewrite elem_of_setAdd. naive_solver.
Qed.

Lemma Acc_no_cycle x : Acc R x → ∀ n, rtc E x n → ¬ tc E n n.
Proof.
  intros Hx n Hxn.
  assert (Hn : Acc R n).
  { induction Hxn as [|a b c Hab _ IH]; [done|]. apply IH. by apply (Acc_inv Hx). }
  clear Hx Hxn x. induction Hn as [n _ IH]. intros Hc.
  apply tc_rtc_step in Hc as (y & Hny & Hyn).
  destruct (rtc_inv _ _ Hny) as [<-|(z & Hnz & Hzy)].
  - apply (IH n Hyn). by apply tc_once.
  - apply (IH z Hnz). eapply tc_rtc_l; [exact Hzy|]. eapply tc_l; [exact Hyn|].
    by apply tc_once.
Qed.

Lemma chain_rtc {A} (Rel : relation A) (l : list A) (i : nat) :
  (∀ k x y, i ≤ k → l !! k = Some x → l !! S k = Some y → Rel x y) →
  ∀ j x y, i ≤ j → l !! i = Some x → l !! j = Some y → rtc Rel x y.
Proof.
  intros Hch. induction j as [|j IH]; intros x y Hij Hx Hy.
  - assert (i = 0) as -> by lia. rewrite Hx in Hy. by injection Hy as ->.
  - destruct (decide (i = S j)) as [->|Hne].
    { rewrite Hx in Hy. by injection Hy as ->. }
    destruct (lookup_lt_is_Some_2 l j) as [z Hz].
    { apply lookup_lt_Some in Hy. lia. }
    eapply rtc_r; [apply (IH x z); [lia|done|done]|].
    apply (Hch j); [lia|done|done].
Qed.

Lemma chained_frame st st' :
  path st' = path st → recursionStack st' = recursionStack st →
  chained m st → chained m st'.
Proof. unfold chained. by intros -> ->. Qed.

Lemma chained_push st node :
  chained m st → node ∉ recursionStack st →
  (∀ p, last (path st) = Some p → E p node) →
  chained m {| visited := {[node]} ∪ visited st;
               recursionStack := Js.setAdd node (recursionStack st);
               path := path st ++ [node] |}.
Proof.
  intros (Hch & Hst & Hnd) Hn Hlast. split_and!; simpl.
  - intros i x y Hx Hy.
    assert (Hi : S i < length (path st ++ [node])) by (by apply lookup_lt_Some in Hy).
    rewrite length_app in Hi. simpl in Hi.
    rewrite lookup_app_l in Hx by lia.
    destruct (decide (S i < length (path st))) as [Hlt|Hge].
    + rewrite lookup_app_l in Hy by lia. by apply (Hch i).
    + rewrite lookup_app_r in Hy by lia.
      replace (S i - length (path st)) with 0 in Hy by lia. injection Hy as <-.
      apply Hlast. rewrite last_lookup.
      replace (pred (length (path st))) with i by lia. done.
  - intros x. rewrite elem_of_setAdd, elem_of_app, list_elem_of_singleton, Hst. tauto.
  - apply NoDup_app. split_and!; [done| |apply NoDup_singleton].
    intros x Hx ->%list_elem_of_singleton. apply Hn. by apply Hst.
Qed.

(** Soundness: a search that reports a cycle stops with a path that is a
    chain of references, starts where the search started, and whose last
    cell refers back into it. *)
Lemma hasCycle_true_path fuel : ∀ node st st',
  hasCycle fuel m node st = Some (true, st') →
  chained m st → (∀ p, last (path st) = Some p → E p node) →
  chained m st' ∧ closesOn m st' ∧ head (path st') = head (path st ++ [node]).
Proof.
  induction fuel as [|fuel IH]; intros node st st'; simpl; [discriminate|].
  destruct (Js.setHas node (recursionStack st)) eqn:Hs.
  { intros [= <-] Hch Hlast. split; [done|].
    unfold Js.setHas in Hs. apply bool_decide_eq_true in Hs.
    assert (Hin : node ∈ path st) by (by apply Hch).
    split.
    - destruct (last (path st)) as [p|] eqn:El.
      + exists p, node. split_and!; [done| |done]. by apply Hlast.
      + apply last_None in El. rewrite El in Hin. by apply elem_of_nil in Hin.
    - destruct (path st); [by apply elem_of_nil in Hin|done]. }
  assert (Hns : node ∉ recursionStack st).
  { unfold Js.setHas in Hs. by apply bool_decide_eq_false in Hs. }
  case_bool_decide as Hv; [discriminate|].
  destruct (anyCycle _ _ _) as [[[] st2]|] eqn:Ea; [|discriminate|discriminate].
  intros [= <-] Hch Hlast.
  pose proof (chained_push _ _ Hch Hns Hlast) as Hch1.
  set (st1 := {| visited := {[node]} ∪ visited st;
                 recursionStack := Js.setAdd node (recursionStack st);
                 path := path st ++ [node] |}) in *.
  change (path st ++ [node]) with (path st1).
  assert (Hloop : ∀ deps s0,
            anyCycle (hasCycle fuel m) deps s0 = Some (true, st2) →
            chained m s0 → last (path s0) = Some node →
            (∀ d, d ∈ deps → E node d) →
            chained m st2 ∧ closesOn m st2 ∧ head (path st2) = head (path s0)).
  { induction deps as [|d deps IHd]; intros s0; simpl; [discriminate|].
    destruct (hasCycle fuel m d s0) as [[[] s2]|] eqn:Ec; [| |discriminate].
    - intros [= ->] H0 Hl Hd. apply IH in Ec as (? & ? & Hh); [|done|].
      + split_and!; [done|done|]. rewrite Hh.
        destruct (path s0); [discriminate|done].
      + intros p Hp. rewrite Hl in Hp. injection Hp as <-. apply Hd. by left.
    - intros Hrest H0 Hl Hd. apply hasCycle_false_frame in Ec as [Hp Hr].
      rewrite <- Hp. apply IHd; [done| |by rewrite Hp|].
      + by apply (chained_frame s0).
      + intros d' Hd'. apply Hd. by right. }
  apply Hloop in Ea; [done|done| |done].
  simpl. by rewrite last_snoc.
Qed.

End CycleCorrect.

Section CycleCheck.
Import DependencyGraph.

Lemma chained_initial m : chained m initialSearch.
Proof.
  split_and!; simpl.
  - intros i x y Hx. by rewrite lookup_nil in Hx.
  - done.
  - apply NoDup_nil_2.
Qed.

Lemma finishedSafe_initial m : finishedSafe m initialSearch.
Proof. intros v Hv. simpl in Hv. set_solver. Qed.

Lemma closes_cycle m st :
  chained m st → closesOn m st →
  ∃ n, tc (dependsOn m) n n ∧ ∀ r, head (path st) = Some r → rtc (dependsOn m) r n.
Proof.
  intros (Hch & _ & _) (p & n & Hp & Hpn & Hn).
  apply list_elem_of_lookup in Hn as [i Hi].
  rewrite last_lookup in Hp.
  assert (Hchain : ∀ k x y, 0 ≤ k → path st !! k = Some x → path st !! S k = Some y →
                            dependsOn m x y) by (intros k x y _; apply Hch).
  exists n. split.
  - eapply tc_rtc_l; [|apply tc_once, Hpn].
    apply (chain_rtc _ (path st) i) with (j := pred (length (path st)));
      [intros k x y _; apply Hch| |done|done].
    apply lookup_lt_Some in Hi. lia.
  - intros r Hr. rewrite head_lookup in Hr.
    apply (chain_rtc _ (path st) 0 Hchain i); [lia|done|done].
Qed.

(** The outcome of the search, read on the proposed graph. *)
Lemma searchCycle_outcome m cell :
  (searchCycle m cell = Some None ∧ Acc (λ y x, dependsOn m x y) cell) ∨
  (∃ st, searchCycle m cell = Some (Some (cycleError cell st)) ∧
         chained m st ∧ closesOn m st ∧ head (path st) = Some cell).
Proof.
  pose proof (searchCycle_total m cell) as [r Hr]. unfold searchCycle in *.
  destruct (hasCycle _ _ _ _) as [[[] st]|] eqn:Eh; [| |discriminate].
  - right. exists st. split; [done|].
    apply hasCycle_true_path in Eh as (? & ? & Hh); [done|apply chained_initial|].
    intros p Hp. simpl in Hp. discriminate.
  - left. split; [done|].
    by apply hasCycle_false_safe in Eh as [_ ?]; [|apply finishedSafe_initial].
Qed.

Lemma checkCircularReference_None g cell deps :
  checkCircularReference g cell deps = None ↔
  ∀ n, rtc (dependsOn (proposedGraph g cell deps)) cell n →
       ¬ tc (dependsOn (proposedGraph g cell deps)) n n.
Proof.
  unfold checkCircularReference. fold (proposedGraph g cell deps).
  destruct (searchCycle_outcome (proposedGraph g cell deps) cell)
    as [[-> Hacc]|(st & -> & Hch & Hcl & Hh)]; simpl.
  - split; [intros _|done]. by apply Acc_no_cycle.
  - split; [discriminate|]. intros Hno.
    destruct (closes_cycle _ _ Hch Hcl) as (n & Hn & Hr).
    destruct (Hno n); [by apply Hr|done].
Qed.

End CycleCheck.

(** X4: [checkCircularReference] returns null exactly when no cell that
    the target can reach through the proposed graph lies on a cycle of
    references; the search is sound and complete. *)
Theorem checkCircularReference_decides_reachable_cycle
    (g : DependencyGraph.Graph) (cell : string) (cellDependencies : list string) :
  DependencyGraph.checkCircularReference g cell cellDependencies = None ↔
  ∀ n, rtc (dependsOn (proposedGraph g cell cellDependencies)) cell n →
       ¬ tc (dependsOn (proposedGraph g cell cellDependencies)) n n.
Proof. apply checkCircularReference_None. Qed.
Section CycleConsequences.
Import DependencyGraph.

Lemma elem_of_fold_setAdd x l : ∀ acc,
  x ∈ fold_left (λ acc y, Js.setAdd y acc) l acc ↔ x ∈ acc ∨ x ∈ l.
Proof.
  induction l as [|y l IH]; intros acc; simpl.
  - rewrite elem_of_nil. tauto.
  - rewrite IH, elem_of_setAdd, elem_of_cons. tauto.
Qed.

Lemma elem_of_setOfList x l : x ∈ setOfList l ↔ x ∈ l.
Proof. unfold setOfList. rewrite elem_of_fold_setAdd, elem_of_nil. tauto. Qed.

Lemma dependsOn_proposed_target g cell deps y :
  dependsOn (proposedGraph g cell deps) cell y ↔ y ∈ deps.
Proof.
  unfold dependsOn, proposedGraph. rewrite lookup_insert_eq. simpl. apply elem_of_setOfList.
Qed.

Lemma dependsOn_proposed_other g cell deps x y :
  x ≠ cell →
  dependsOn (proposedGraph g cell deps) x y ↔ dependsOn (dependencies g) x y.
Proof. intros Hne. unfold dependsOn, proposedGraph. by rewrite lookup_insert_ne. Qed.

(** A route of the stored graph to the target is a route of the proposed
    graph: it is followed up to its first visit of the target. *)
Lemma rtc_proposed g cell deps d :
  rtc (dependsOn (dependencies g)) d cell → rtc (dependsOn (proposedGraph g cell deps)) d cell.
Proof.
  intros H. induction H as [|x y z Hxy _ IH]; [done|].
  destruct (decide (x = z)) as [->|Hne]; [done|].
  eapply rtc_l; [|exact IH]. by apply dependsOn_proposed_other.
Qed.

(** A route of the proposed graph either avoids the target, and is a route
    of the stored graph, or passes through it. *)
Lemma tc_proposed_split g cell deps x y :
  tc (dependsOn (proposedGraph g cell deps)) x y →
  tc (dependsOn (dependencies g)) x y ∨
  (rtc (dependsOn (proposedGraph g cell deps)) x cell ∧
   tc (dependsOn (proposedGraph g cell deps)) cell y).
Proof.
  intros H. induction H as [x y Hxy|x z y Hxz Hzy IH].
  - destruct (decide (x = cell)) as [->|Hne].
    + right. split; [done|]. by apply tc_once.
    + left. apply tc_once. by apply (dependsOn_proposed_other g cell deps).
  - destruct (decide (x = cell)) as [->|Hne].
    + right. split; [done|]. by eapply tc_l.
    + apply (dependsOn_proposed_other g cell deps) in Hxz; [|done].
      destruct IH as [IH|[Hzc Hcy]].
      * left. by eapply tc_l.
      * right. split; [|done]. eapply rtc_l; [|exact Hzc].
        by apply (dependsOn_proposed_other g cell deps).
Qed.

Lemma acyclic_proposed g cell deps :
  acyclic (dependencies g) → checkCircularReference g cell deps = None →
  acyclic (proposedGraph g cell deps).
Proof.
  intros Hg Hcheck n Hn.
  destruct (tc_proposed_split _ _ _ _ _ Hn) as [Hgn|[Hnc Hcn]]; [by apply (Hg n)|].
  apply (proj1 (checkCircularReference_None g cell deps) Hcheck n); [by apply tc_rtc|done].
Qed.

Lemma acyclic_ext (m1 m2 : gmap string (list string)) :
  (∀ x, default [] (m2 !! x) = default [] (m1 !! x)) → acyclic m1 → acyclic m2.
Proof.
  intros Heq H1 n Hn. apply (H1 n).
  eapply tc_congruence with (f := id); [|exact Hn].
  intros x y. unfold dependsOn. by rewrite Heq.
Qed.

Lemma acyclic_empty : acyclic ∅.
Proof.
  intros n Hn. apply tc_rtc_step in Hn as (y & _ & Hy).
  unfold dependsOn in Hy. rewrite lookup_empty in Hy. by apply elem_of_nil in Hy.
Qed.

Lemma acyclic_delete (m : gmap string (list string)) k : acyclic m → acyclic (delete k m).
Proof.
  intros H n Hn. apply (H n). eapply tc_congruence with (f := id); [|exact Hn].
  intros x y. unfold dependsOn. destruct (decide (x = k)) as [->|Hne].
  - rewrite lookup_delete_eq. simpl. by intros []%elem_of_nil.
  - by rewrite lookup_delete_ne.
Qed.

(** The forward map after the edges of a checked formula are registered on
    a cell that had none is the proposed graph. *)
Lemma register_proposed g cell deps x :
  dependencies g !! cell = None →
  default [] (dependencies (fold_left (λ g dep, addDependency cell dep g) deps g) !! x)
  = default [] (proposedGraph g cell deps !! x).
Proof.
  intros Hnone. rewrite dependencies_register. unfold proposedGraph.
  destruct (decide (x = cell)) as [->|Hne].
  - rewrite lookup_insert_eq, Hnone. by destruct deps.
  - by rewrite lookup_insert_ne.
Qed.

Lemma register_acyclic g cell deps :
  acyclic (dependencies g) → dependencies g !! cell = None →
  checkCircularReference g cell deps = None →
  acyclic (dependencies (fold_left (λ g dep, addDependency cell dep g) deps g)).
Proof.
  intros Hg Hnone Hcheck.
  apply (acyclic_ext (proposedGraph g cell deps)); [|by apply acyclic_proposed].
  intros x. by apply register_proposed.
Qed.

Lemma head_sliceFromIndexOf cell l :
  head l = Some cell → sliceFromIndexOf cell l = l.
Proof.
  destruct l as [|x l]; [discriminate|]. intros [= ->].
  unfold sliceFromIndexOf. simpl. by rewrite decide_True.
Qed.

(** X5: when the stored graph has no cycle, the chain that
    [checkCircularReference] reports is a genuine cycle of the proposed
    graph: it starts and ends at the target, visits no cell twice on the
    way, and each cell of it refers to the next. *)
Theorem checkCircularReference_reports_a_cycle g cell deps e :
  acyclic (dependencies g) → checkCircularReference g cell deps = Some e →
  ∃ route,
    e = FormulaParser.CircularReferenceError
          ("Circular reference detected: " +:+ join " → " (route ++ [cell])) (route ++ [cell]) ∧
    head route = Some cell ∧ NoDup route ∧
    referenceChain (proposedGraph g cell deps) (route ++ [cell]).
Proof.
  intros Hg. unfold checkCircularReference. fold (proposedGraph g cell deps).
  destruct (searchCycle_outcome (proposedGraph g cell deps) cell)
    as [[-> _]|(st & -> & Hch & Hcl & Hh)]; simpl; [discriminate|].
  intros [= <-]. exists (path st). unfold cycleError.
  rewrite (head_sliceFromIndexOf _ _ Hh).
  destruct Hch as (Hch & _ & Hnd). split_and!; [done|done|done|].
  destruct Hcl as (p & n & Hp & Hpn & Hn).
  assert (n = cell) as ->.
  { apply list_elem_of_lookup in Hn as [i Hi].
    destruct i as [|i]; [rewrite head_lookup in Hh; congruence|].
    exfalso. apply (Hg n).
    assert (Hfar : ∀ k x, S i ≤ k → path st !! k = Some x → x ≠ cell).
    { intros k x Hk Hx ->. rewrite head_lookup in Hh.
      pose proof (NoDup_lookup _ _ _ _ Hnd Hx Hh). lia. }
    rewrite last_lookup in Hp.
    assert (Hlen : S i ≤ pred (length (path st))) by (apply lookup_lt_Some in Hi; lia).
    eapply tc_rtc_l; [|apply tc_once].
    - apply (chain_rtc (dependsOn (dependencies g)) (path st) (S i))
        with (j := pred (length (path st))); [|done|exact Hi|exact Hp].
      intros k x y Hk Hx Hy. apply (dependsOn_proposed_other g cell deps); [by eapply Hfar|].
      by apply (Hch k).
    - apply (dependsOn_proposed_other g cell deps); [by eapply Hfar|done]. }
  intros i x y Hx Hy.
  assert (Hi : S i < length (path st ++ [cell])) by (by apply lookup_lt_Some in Hy).
  rewrite length_app in Hi. simpl in Hi.
  rewrite lookup_app_l in Hx by lia.
  destruct (decide (S i < length (path st))) as [Hlt|Hge].
  - rewrite lookup_app_l in Hy by lia. by apply (Hch i).
  - rewrite lookup_app_r in Hy by lia.
    replace (S i - length (path st)) with 0 in Hy by lia. injection Hy as <-.
    rewrite last_lookup in Hp. replace (pred (length (path st))) with i in Hp by lia.
    congruence.
Qed.

End CycleConsequences.

(** X6: registering the edges of a formula that passed the cycle check, on
    a cell that has no forward entry, keeps the graph free of cycles. *)
Theorem checked_registration_keeps_graph_acyclic
    (g : DependencyGraph.Graph) (cell : string) (cellDependencies : list string) :
  acyclic (DependencyGraph.dependencies g) →
  DependencyGraph.dependencies g !! cell = None →
  DependencyGraph.checkCircularReference g cell cellDependencies = None →
  acyclic (DependencyGraph.dependencies
             (fold_left (λ g dep, DependencyGraph.addDependency cell dep g)
                cellDependencies g)).
Proof. apply register_acyclic. Qed.

(** X7: a formula is rejected whenever one of its references already
    leads back to the target through the stored graph; in particular a
    formula that names its own cell. *)
Theorem checkCircularReference_rejects_back_reference
    (g : DependencyGraph.Graph) (cell d : string) (cellDependencies : list string) :
  d ∈ cellDependencies →
  rtc (dependsOn (DependencyGraph.dependencies g)) d cell →
  DependencyGraph.checkCircularReference g cell cellDependencies ≠ None.
Proof.
  intros Hd Hback Hnone.
  apply (proj1 (checkCircularReference_None g cell cellDependencies) Hnone cell); [done|].
  eapply tc_rtc_r; [apply tc_once; by apply dependsOn_proposed_target|].
  by apply rtc_proposed.
Qed.
Lemma oneEdge_acyclic : acyclic (DependencyGraph.dependencies oneEdge).
Proof.
  apply (register_acyclic DependencyGraph.empty "B1" ["A1"]).
  - apply acyclic_empty.
  - done.
  - vm_compute. reflexivity.
Qed.

Lemma checkCircularReference_reports_a_cycle_witness :
  acyclic (DependencyGraph.dependencies oneEdge) ∧
  DependencyGraph.checkCircularReference oneEdge "A1" ["B1"]
    = Some (FormulaParser.CircularReferenceError
              "Circular reference detected: A1 → B1 → A1" ["A1"; "B1"; "A1"]) ∧
  ∃ route,
    FormulaParser.CircularReferenceError
      "Circular reference detected: A1 → B1 → A1" ["A1"; "B1"; "A1"]
    = FormulaParser.CircularReferenceError
          ("Circular reference detected: " +:+ DependencyGraph.join " → " (route ++ ["A1"]))
          (route ++ ["A1"]) ∧
    head route = Some "A1" ∧ NoDup route ∧
    referenceChain (proposedGraph oneEdge "A1" ["B1"]) (route ++ ["A1"]).
Proof.
  assert (H : DependencyGraph.checkCircularReference oneEdge "A1" ["B1"]
    = Some (FormulaParser.CircularReferenceError
              "Circular reference detected: A1 → B1 → A1" ["A1"; "B1"; "A1"]))
    by (vm_compute; reflexivity).
  split; [exact oneEdge_acyclic|]. split; [exact H|].
  exact (checkCircularReference_reports_a_cycle oneEdge "A1" ["B1"] _ oneEdge_acyclic H).
Defined.

Lemma checked_registration_keeps_graph_acyclic_witness :
  acyclic (DependencyGraph.dependencies DependencyGraph.empty) ∧
  DependencyGraph.dependencies DependencyGraph.empty !! "B1" = None ∧
  DependencyGraph.checkCircularReference DependencyGraph.empty "B1" ["A1"] = None ∧
  acyclic (DependencyGraph.dependencies
             (fold_left (λ g dep, DependencyGraph.addDependency "B1" dep g)
                ["A1"] DependencyGraph.empty)).
Proof.
  assert (H : DependencyGraph.checkCircularReference DependencyGraph.empty "B1" ["A1"] = None)
    by (vm_compute; reflexivity).
  split; [exact acyclic_empty|]. split; [reflexivity|]. split; [exact H|].
  exact (checked_registration_keeps_graph_acyclic DependencyGraph.empty "B1" ["A1"]
           acyclic_empty eq_refl H).
Defined.

Lemma oneEdge_B1_reads_A1 : dependsOn (DependencyGraph.dependencies oneEdge) "B1" "A1".
Proof. unfold dependsOn. apply (bool_decide_unpack _). vm_compute. exact I. Qed.

Lemma checkCircularReference_rejects_back_reference_witness :
  "B1" ∈ ["B1"] ∧
  rtc (dependsOn (DependencyGraph.dependencies oneEdge)) "B1" "A1" ∧
  DependencyGraph.checkCircularReference oneEdge "A1" ["B1"] ≠ None.
Proof.
  assert (H1 : "B1" ∈ ["B1"]) by (apply elem_of_cons; by left).
  assert (H2 : rtc (dependsOn (DependencyGraph.dependencies oneEdge)) "B1" "A1")
    by (apply rtc_once, oneEdge_B1_reads_A1).
  split; [exact H1|]. split; [exact H2|].
  exact (checkCircularReference_rejects_back_reference oneEdge "A1" "B1" ["B1"] H1 H2).
Defined.

(** X1: [addDependency] records the edge in both maps, at the end of the
    two sets when it is new, leaves every other set as it was, and adding
    the same edge a second time changes nothing. *)
Theorem addDependency_records_the_edge (dependent dependency : string)
    (g : DependencyGraph.Graph) :
  let g' := DependencyGraph.addDependency dependent dependency g in
  DependencyGraph.getDependencies g' dependent
    = Js.setAdd dependency (DependencyGraph.getDependencies g dependent) ∧
  DependencyGraph.getDependents g' dependency
    = Js.setAdd dependent (DependencyGraph.getDependents g dependency) ∧
  (∀ k, k ≠ dependent →
        DependencyGraph.getDependencies g' k = DependencyGraph.getDependencies g k) ∧
  (∀ k, k ≠ dependency →
        DependencyGraph.getDependents g' k = DependencyGraph.getDependents g k) ∧
  DependencyGraph.addDependency dependent dependency g' = g'.
Proof.
  cbv zeta. split_and!.
  - rewrite getDependencies_addDependency. by rewrite decide_True.
  - rewrite getDependents_addDependency. by rewrite decide_True.
  - intros k Hk. rewrite getDependencies_addDependency. by rewrite decide_False.
  - intros k Hk. rewrite getDependents_addDependency. by rewrite decide_False.
  - apply addDependency_idemp.
Qed.

(** X2: the two maps of the graph stay mirror images of each other: when
    every forward edge has its reverse edge and conversely, the same holds
    after [addDependency], after [removeDependencies] and after [clear]. *)
Theorem graph_operations_keep_maps_mirrored (g : DependencyGraph.Graph) (a b : string) :
  consistent g →
  consistent (DependencyGraph.addDependency a b g) ∧
  consistent (DependencyGraph.removeDependencies a g) ∧
  consistent (DependencyGraph.clear g).
Proof.
  intros Hc. split_and!.
  - by apply consistent_addDependency.
  - by apply consistent_removeDependencies.
  - apply consistent_empty.
Qed.

Lemma graph_operations_keep_maps_mirrored_witness :
  consistent DependencyGraph.empty ∧
  consistent (DependencyGraph.addDependency "B1" "A1" DependencyGraph.empty) ∧
  consistent (DependencyGraph.removeDependencies "B1" DependencyGraph.empty) ∧
  consistent (DependencyGraph.clear DependencyGraph.empty).
Proof.
  split; [exact consistent_empty|].
  exact (graph_operations_keep_maps_mirrored DependencyGraph.empty "B1" "A1" consistent_empty).
Defined.

(** X3: on a graph whose maps mirror each other, [removeDependencies]
    removes exactly the edges that leave the cell: the cell has no
    dependencies left, it is no longer a dependent of any cell, and every
    other edge is kept in both maps. *)
Theorem removeDependencies_removes_the_outgoing_edges (g : DependencyGraph.Graph)
    (cell : string) :
  consistent g →
  let g' := DependencyGraph.removeDependencies cell g in
  DependencyGraph.getDependencies g' cell = [] ∧
  (∀ k, cell ∉ DependencyGraph.getDependents g' k) ∧
  (∀ k, k ≠ cell →
        DependencyGraph.getDependencies g' k = DependencyGraph.getDependencies g k) ∧
  (∀ k x, x ≠ cell →
          (x ∈ DependencyGraph.getDependents g' k ↔ x ∈ DependencyGraph.getDependents g k)).
Proof.
  intros Hc. cbv zeta. split_and!.
  - unfold DependencyGraph.getDependencies. rewrite dependencies_removeDependencies.
    by rewrite lookup_delete_eq.
  - intros k Hk. apply elem_of_getDependents_remove in Hk as [Hk Hn].
    apply Hn. split; [done|]. by apply Hc.
  - intros k Hk. unfold DependencyGraph.getDependencies.
    rewrite dependencies_removeDependencies. by rewrite lookup_delete_ne.
  - intros k x Hx. rewrite elem_of_getDependents_remove. naive_solver.
Qed.

Lemma oneEdge_consistent : consistent oneEdge.
Proof. apply consistent_addDependency, consistent_empty. Qed.

Lemma removeDependencies_removes_the_outgoing_edges_witness :
  consistent oneEdge ∧
  DependencyGraph.getDependencies (DependencyGraph.removeDependencies "B1" oneEdge) "B1" = [] ∧
  (∀ k, "B1" ∉ DependencyGraph.getDependents (DependencyGraph.removeDependencies "B1" oneEdge) k).
Proof.
  split; [exact oneEdge_consistent|].
  pose proof (removeDependencies_removes_the_outgoing_edges oneEdge "B1" oneEdge_consistent) as W.
  exact (conj (proj1 W) (proj1 (proj2 W))).
Defined.
Section GraphStats.
Import DependencyGraph.

Lemma totalDependencies_insert (m : gmap string (list string)) k l :
  m !! k = None →
  map_fold (λ _ deps sum, sum + length deps) 0 (<[k := l]> m)
  = map_fold (λ _ deps sum, sum + length deps) 0 m + length l.
Proof.
  intros Hk. rewrite map_fold_insert_L; [done| |done]. intros. lia.
Qed.

Lemma totalDependencies_delete (m : gmap string (list string)) k l :
  m !! k = Some l →
  map_fold (λ _ deps sum, sum + length deps) 0 m
  = map_fold (λ _ deps sum, sum + length deps) 0 (delete k m) + length l.
Proof.
  intros Hk. rewrite (map_fold_delete_L _ _ k l m); [done| |done]. intros. lia.
Qed.

Lemma length_setAdd x l :
  length (Js.setAdd x l) = length l + (if decide (x ∈ l) then 0 else 1).
Proof. unfold Js.setAdd. case_decide; [lia|]. rewrite length_app. simpl. lia. Qed.

Lemma dependencies_addDependency_insert a b g :
  dependencies (addDependency a b g)
  = <[a := Js.setAdd b (getDependencies g a)]> (dependencies g).
Proof.
  apply map_eq. intros k. rewrite dependencies_addDependency.
  case_decide as Hk; [subst; by rewrite lookup_insert_eq|by rewrite lookup_insert_ne].
Qed.

Lemma getStats_addDependency a b g :
  getStats (addDependency a b g)
  = {| totalDependencies :=
         totalDependencies (getStats g) + (if decide (b ∈ getDependencies g a) then 0 else 1);
       totalCells :=
         totalCells (getStats g) + (match dependencies g !! a with Some _ => 0 | None => 1 end) |}.
Proof.
  unfold getStats. rewrite dependencies_addDependency_insert. cbn [totalDependencies totalCells].
  unfold getDependencies. rewrite map_size_insert.
  destruct (dependencies g !! a) as [l|] eqn:Ea; simpl.
  - f_equal; [|lia]. rewrite <- insert_delete_eq.
    rewrite totalDependencies_insert by apply lookup_delete_eq.
    rewrite (totalDependencies_delete _ a l Ea), length_setAdd. lia.
  - f_equal; [|lia]. rewrite totalDependencies_insert by done.
    rewrite length_setAdd. done.
Qed.

Lemma getStats_removeDependencies a g :
  getStats (removeDependencies a g)
  = {| totalDependencies := totalDependencies (getStats g) - length (getDependencies g a);
       totalCells := totalCells (getStats g) - (match dependencies g !! a with Some _ => 1 | None => 0 end) |}.
Proof.
  unfold getStats. rewrite dependencies_removeDependencies. cbn [totalDependencies totalCells].
  unfold getDependencies. rewrite map_size_delete.
  destruct (dependencies g !! a) as [l|] eqn:Ea; simpl.
  - f_equal; [|lia]. rewrite (totalDependencies_delete _ a l Ea). lia.
  - rewrite delete_id by done. f_equal; lia.
Qed.

End GraphStats.

(** X8: the counters of [getStats] follow the edits of the graph:
    [addDependency] raises the number of dependencies by one exactly when
    the edge is new and the number of cells by one exactly when the
    dependent had no entry; [removeDependencies] lowers them by the number
    of dependencies of the cell and by its entry; an empty or cleared graph
    counts nothing. *)
Theorem getStats_follows_the_edits (g : DependencyGraph.Graph) (a b : string) :
  DependencyGraph.getStats (DependencyGraph.addDependency a b g)
  = {| DependencyGraph.totalDependencies :=
         DependencyGraph.totalDependencies (DependencyGraph.getStats g)
         + (if decide (b ∈ DependencyGraph.getDependencies g a) then 0 else 1);
       DependencyGraph.totalCells :=
         DependencyGraph.totalCells (DependencyGraph.getStats g)
         + (match DependencyGraph.dependencies g !! a with Some _ => 0 | None => 1 end) |} ∧
  DependencyGraph.getStats (DependencyGraph.removeDependencies a g)
  = {| DependencyGraph.totalDependencies :=
         DependencyGraph.totalDependencies (DependencyGraph.getStats g)
         - length (DependencyGraph.getDependencies g a);
       DependencyGraph.totalCells :=
         DependencyGraph.totalCells (DependencyGraph.getStats g)
         - (match DependencyGraph.dependencies g !! a with Some _ => 1 | None => 0 end) |} ∧
  DependencyGraph.getStats (DependencyGraph.clear g)
  = {| DependencyGraph.totalDependencies := 0; DependencyGraph.totalCells := 0 |}.
Proof.
  split_and!; [apply getStats_addDependency|apply getStats_removeDependencies|].
  unfold DependencyGraph.getStats, DependencyGraph.clear, DependencyGraph.empty. simpl.
  by rewrite map_fold_empty, map_size_empty.
Qed.

Section Dependents.
Import DependencyGraph.

Lemma elem_of_getAllDependents g c x :
  x ∈ getAllDependents g c ↔ tc (dependentEdge g) c x.
Proof.
  destruct (getAllDependents_run g c) as [V Hrun].
  apply collectDependents_spec in Hrun
    as (HcV & N & L & -> & HN & _ & HL' & HL & Hcl & Hr).
  simpl in HL', HL. subst L.
  assert (HNr : ∀ v, v ∈ N ↔ rtc (dependentEdge g) c v).
  { intros v. split.
    - intros Hv. destruct (Hr v Hv) as (r & Hrc & Hrv).
      apply list_elem_of_singleton in Hrc as ->. done.
    - revert v. apply rtc_ind_r.
      + set_solver.
      + intros y z _ Hyz IH. specialize (Hcl y IH z Hyz). set_solver. }
  rewrite HL, tc_rtc_step, list_elem_of_join. split.
  - intros (l & Hxl & Hl). apply list_elem_of_fmap in Hl as (v & -> & Hv).
    exists v. split; [by apply HNr|done].
  - intros (v & Hv & Hvx). exists (getDependents g v). split; [done|].
    apply list_elem_of_fmap. exists v. split; [done|]. by apply HNr.
Qed.

Lemma tc_flip {A} (R1 R2 : relation A) x y :
  (∀ a b, R1 a b → R2 b a) → tc R1 x y → tc R2 y x.
Proof.
  intros H Hxy. induction Hxy as [x y Hxy|x z y Hxz _ IH].
  - by apply tc_once, H.
  - eapply tc_r; [exact IH|]. by apply H.
Qed.

Lemma getAllDependents_forward g c x :
  consistent g →
  x ∈ getAllDependents g c ↔ tc (dependsOn (dependencies g)) x c.
Proof.
  intros Hc. rewrite elem_of_getAllDependents. split; apply tc_flip; intros a b Hab.
  - by apply Hc.
  - by apply Hc.
Qed.

End Dependents.

(** X9: on a graph whose maps mirror each other, [getAllDependents(c)]
    lists exactly the cells that refer to [c] through one or more forward
    references; when the graph has no cycle, [c] itself is never listed. *)
Theorem getAllDependents_lists_the_cells_that_read (g : DependencyGraph.Graph) (c : string) :
  consistent g →
  (∀ x, x ∈ DependencyGraph.getAllDependents g c
        ↔ tc (dependsOn (DependencyGraph.dependencies g)) x c) ∧
  (acyclic (DependencyGraph.dependencies g) → c ∉ DependencyGraph.getAllDependents g c).
Proof.
  intros Hc. split.
  - intros x. by apply getAllDependents_forward.
  - intros Ha Hin. apply (Ha c). by apply getAllDependents_forward.
Qed.

Lemma getAllDependents_lists_the_cells_that_read_witness :
  consistent oneEdge ∧
  (∀ x, x ∈ DependencyGraph.getAllDependents oneEdge "A1"
        ↔ tc (dependsOn (DependencyGraph.dependencies oneEdge)) x "A1") ∧
  "A1" ∉ DependencyGraph.getAllDependents oneEdge "A1".
Proof.
  split; [exact oneEdge_consistent|].
  pose proof (getAllDependents_lists_the_cells_that_read oneEdge "A1" oneEdge_consistent) as W.
  exact (conj (proj1 W) (proj2 W oneEdge_acyclic)).
Defined.
(** ** The formula parser *)

Section ParserFacts.
Import FormulaParser.

Lemma elem_of_fold_setAdd_map {A} (f : A → string) (l : list A) x : ∀ acc,
  x ∈ fold_left (λ acc m, Js.setAdd (f m) acc) l acc ↔ x ∈ acc ∨ x ∈ f <$> l.
Proof.
  induction l as [|y l IH]; intros acc; cbn [fold_left].
  - rewrite fmap_nil, elem_of_nil. tauto.
  - rewrite IH, elem_of_setAdd, fmap_cons, elem_of_cons. tauto.
Qed.

Lemma fold_setAdd_extends {A} (f : A → string) (l : list A) : ∀ acc,
  ∃ extra, fold_left (λ acc m, Js.setAdd (f m) acc) l acc = acc ++ extra.
Proof.
  induction l as [|y l IH]; intros acc; simpl.
  - exists []. by rewrite app_nil_r.
  - destruct (IH (Js.setAdd (f y) acc)) as [extra ->]. unfold Js.setAdd.
    case_decide; [by exists extra|]. exists (f y :: extra). by rewrite <- app_assoc.
Qed.

Lemma extractCellReferences_members formula x :
  x ∈ extractCellReferences formula ↔
  x ∈ (snd <$> Js.matchAll CELL_REGEX formula) ∨
  ∃ m, m ∈ Js.matchAll RANGE_REGEX formula ∧ x ∈ expandRange m.2.1.2 m.2.2.
Proof.
  unfold extractCellReferences.
  generalize (Js.matchAll RANGE_REGEX formula). intros ranges.
  assert (Hgen : ∀ acc,
    x ∈ fold_left
          (λ acc (m : nat * (string * string * string)),
             let '(_, start, end_) := m.2 in
             fold_left (λ acc' cell, Js.setAdd cell acc') (expandRange start end_) acc)
          ranges acc
    ↔ x ∈ acc ∨ ∃ m, m ∈ ranges ∧ x ∈ expandRange m.2.1.2 m.2.2).
  { induction ranges as [|[i [[t a] b]] ranges IH]; intros acc; simpl.
    - split; [by left|]. intros [|(m & []%elem_of_nil & _)]; done.
    - rewrite IH, elem_of_fold_setAdd. split.
      + intros [[|]|(m & Hm & Hx)]; [by left| |].
        * right. exists (i, (t, a, b)). split; [by left|done].
        * right. exists m. split; [by right|done].
      + intros [|(m & [->|Hm]%elem_of_cons & Hx)]; [by left;left| |].
        * left. by right.
        * right. by exists m. }
  rewrite Hgen, elem_of_fold_setAdd_map, elem_of_nil. tauto.
Qed.

Lemma extractCellReferences_prefix formula :
  ∃ extra,
    extractCellReferences formula
    = DependencyGraph.setOfList (snd <$> Js.matchAll CELL_REGEX formula) ++ extra.
Proof.
  unfold extractCellReferences, DependencyGraph.setOfList.
  change (snd <$> Js.matchAll CELL_REGEX formula)
    with (map snd (Js.matchAll CELL_REGEX formula)).
  rewrite (fold_left_fmap (λ acc x, Js.setAdd x acc) snd).
  generalize (fold_left (λ acc m, Js.setAdd m.2 acc) (Js.matchAll CELL_REGEX formula) []).
  generalize (Js.matchAll RANGE_REGEX formula). intros ranges.
  induction ranges as [|[i [[t a] b]] ranges IH]; intros acc; simpl.
  - exists []. by rewrite app_nil_r.
  - destruct (fold_setAdd_extends id (expandRange a b) acc) as [e1 He1].
    simpl in He1. rewrite He1.
    destruct (IH (acc ++ e1)) as [e2 ->]. exists (e1 ++ e2). by rewrite app_assoc.
Qed.

End ParserFacts.

(** X10: [extractCellReferences] lists each referenced cell once: the
    cells matched in the text, in the order of their first occurrence,
    followed by the members of the matched ranges that were not yet listed;
    it lists nothing else. *)
Theorem extractCellReferences_lists_each_reference_once (formula : string) :
  NoDup (FormulaParser.extractCellReferences formula) ∧
  (∀ x, x ∈ FormulaParser.extractCellReferences formula ↔
        x ∈ (snd <$> Js.matchAll FormulaParser.CELL_REGEX formula) ∨
        ∃ m, m ∈ Js.matchAll FormulaParser.RANGE_REGEX formula ∧
             x ∈ FormulaParser.expandRange m.2.1.2 m.2.2) ∧
  ∃ extra,
    FormulaParser.extractCellReferences formula
    = DependencyGraph.setOfList (snd <$> Js.matchAll FormulaParser.CELL_REGEX formula) ++ extra.
Proof.
  split_and!.
  - apply extractCellReferences_NoDup.
  - apply extractCellReferences_members.
  - apply extractCellReferences_prefix.
Qed.

(** X11: [expandRange] does not depend on the direction of the range:
    swapping the two corners gives the same cells in the same order. *)
Theorem expandRange_ignores_direction (start end_ : string) :
  FormulaParser.expandRange start end_ = FormulaParser.expandRange end_ start.
Proof.
  unfold FormulaParser.expandRange.
  destruct (FormulaParser.cellParts start) as [[c1 r1]|],
           (FormulaParser.cellParts end_) as [[c2 r2]|]; try done.
  destruct (decide (c1 = c2)) as [->|Hc].
  - rewrite decide_True by done. by rewrite N.min_comm, N.max_comm.
  - rewrite (decide_False (P := c2 = c1)) by done.
    destruct (decide (Js.parseDigits r1 = Js.parseDigits r2)) as [Hr|Hr].
    + rewrite decide_True by done. rewrite Hr. by rewrite Nat.min_comm, Nat.max_comm.
    + by rewrite decide_False.
Qed.
Section EvaluationFacts.
Import FormulaParser.
Context {host : JsHost}.

Lemma evaluateExpression_cases expression :
  (∃ n, evaluateExpression expression = VNum n) ∨
  (∃ code, evaluateExpression expression = VStr code ∧ code ∈ expressionErrorCodes).
Proof.
  unfold evaluateExpression, expressionErrorCodes.
  destruct (negb _ && _).
  - destruct (runExpression expression) as [n| |].
    + destruct (PrimFloat.is_finite n); [left; by eexists|].
      right. eexists. split; [done|]. by left.
    + right. eexists. split; [done|]. by left.
    + right. eexists. split; [done|]. do 2 right. by left.
  - right. eexists. split; [done|]. right. by left.
Qed.

Lemma expressionErrorCodes_hash code :
  code ∈ expressionErrorCodes → Js.startsWith code "#" = true.
Proof.
  unfold expressionErrorCodes. rewrite !elem_of_cons, elem_of_nil.
  intros [->|[->|[->|[]]]]; reflexivity.
Qed.

Lemma errorCode_evaluateExpression expression :
  match evaluateExpression expression with
  | VNum _ => errorCode (evaluateExpression expression) = None
  | VStr code => errorCode (evaluateExpression expression) = Some code
                 ∧ Js.startsWith code "#" = true
  end.
Proof.
  destruct (evaluateExpression_cases expression) as [[n ->]|(code & -> & Hc)]; [done|].
  apply expressionErrorCodes_hash in Hc. simpl. by rewrite Hc.
Qed.

Lemma startsWith_truthy s p c : Js.startsWith s (String c p) = true → truthy (Some s) = true.
Proof. by destruct s. Qed.

(** X13: on a formula text, [evaluateFormula] sets an error message
    exactly when the value it returns is a text; that text then starts with
    [#] and the message is not empty, so the test [if (result.error)] of the
    engine separates numeric results from error codes. *)
Theorem evaluateFormula_error_goes_with_error_code formula getCellValue :
  Js.startsWith formula "=" = true →
  match value (evaluateFormula formula getCellValue) with
  | VNum _ => error (evaluateFormula formula getCellValue) = None
  | VStr code =>
      Js.startsWith code "#" = true ∧
      ∃ e, error (evaluateFormula formula getCellValue) = Some e ∧ truthy (Some e) = true
  end.
Proof.
  intros Hf. unfold evaluateFormula. rewrite Hf. simpl negb. cbv iota.
  destruct (List.find _ _) as [dep|].
  { simpl. split; [done|]. by eexists. }
  destruct (0 <? _)%nat.
  - destruct (Js.startsWith (fold_left _ _ _) "#") eqn:Hp.
    + simpl. split; [done|]. eexists. split; [done|]. by eapply startsWith_truthy.
    + pose proof (errorCode_evaluateExpression
                    (fold_left (substituteCall getCellValue (Js.sliceFrom 1 formula))
                       (Js.matchAll FUNCTION_REGEX (Js.sliceFrom 1 formula))
                       (Js.sliceFrom 1 formula))) as He.
      destruct (evaluateExpression _) as [n|code] eqn:Ev.
      * rewrite He. done.
      * destruct He as [-> Hh]. simpl. split; [done|]. eexists. split; [done|].
        by eapply startsWith_truthy.
  - destruct (substituteReferences _ _ _) as [processed|[cellRef cellValue]].
    + pose proof (errorCode_evaluateExpression processed) as He. simpl.
      destruct (evaluateExpression processed) as [n|code] eqn:Ev; [done|].
      destruct He as [-> Hh]. split; [done|]. eexists. split; [done|].
      by eapply startsWith_truthy.
    + simpl. split; [done|]. by eexists.
Qed.

Lemma validateFormula_find formula :
  validateFormula formula = None → Js.startsWith formula "=" = true →
  List.find (λ r, negb (isValidCellReference r))
    (extractCellReferences (Js.sliceFrom 1 formula)) = None.
Proof.
  unfold validateFormula. intros Hv Hf. rewrite Hf in Hv. simpl in Hv.
  destruct (parenBalance _ _); [|discriminate].
  destruct (negb _); [discriminate|].
  by destruct (List.find _ _).
Qed.

Lemma evaluateFormula_dependencies formula getCellValue :
  validateFormula formula = None →
  dependencies (evaluateFormula formula getCellValue)
  = parsed_dependencies (parseFormula formula).
Proof.
  intros Hv. unfold evaluateFormula, parseFormula.
  destruct (Js.startsWith formula "=") eqn:Hf; [|done].
  simpl negb. cbv iota. rewrite (validateFormula_find _ Hv Hf).
  destruct (0 <? _)%nat.
  - destruct (Js.startsWith _ "#"); [done|]. by destruct (errorCode _).
  - by destruct (substituteReferences _ _ _) as [?|[? ?]].
Qed.

Lemma validateFormula_references formula d :
  validateFormula formula = None →
  d ∈ parsed_dependencies (parseFormula formula) → isValidCellReference d = true.
Proof.
  intros Hv. unfold parseFormula.
  destruct (Js.startsWith formula "=") eqn:Hf; [|by intros []%elem_of_nil].
  simpl. intros Hd. pose proof (validateFormula_find _ Hv Hf) as Hfind.
  apply list_elem_of_In in Hd. apply (find_none _ _ Hfind d) in Hd.
  by apply negb_false_iff in Hd.
Qed.

End EvaluationFacts.

(** X12: for a formula that [validateFormula] accepts, [evaluateFormula]
    reports the same dependencies as [parseFormula], whatever the cells
    hold, and each of them is a cell of the address space. *)
Theorem evaluateFormula_reports_the_parsed_dependencies {host : JsHost}
    (formula : string) (getCellValue : string → option Value) :
  FormulaParser.validateFormula formula = None →
  FormulaParser.dependencies (FormulaParser.evaluateFormula formula getCellValue)
  = FormulaParser.parsed_dependencies (FormulaParser.parseFormula formula) ∧
  ∀ d, d ∈ FormulaParser.parsed_dependencies (FormulaParser.parseFormula formula) →
       inAddressSpace d.
Proof.
  intros Hv. split; [by apply evaluateFormula_dependencies|].
  intros d Hd. apply isValidCellReference_inAddressSpace.
  by eapply validateFormula_references.
Qed.

Lemma evaluateFormula_reports_the_parsed_dependencies_witness :
  FormulaParser.validateFormula "=A1+SUM(B1:B3)" = None ∧
  FormulaParser.dependencies
    (FormulaParser.evaluateFormula (host := IntegerHost.integerHost) "=A1+SUM(B1:B3)" textOnly)
  = FormulaParser.parsed_dependencies (FormulaParser.parseFormula "=A1+SUM(B1:B3)").
Proof.
  assert (H : FormulaParser.validateFormula "=A1+SUM(B1:B3)" = None)
    by (vm_compute; reflexivity).
  split; [exact H|].
  exact (proj1 (evaluateFormula_reports_the_parsed_dependencies
                  (host := IntegerHost.integerHost) "=A1+SUM(B1:B3)" textOnly H)).
Defined.

Lemma evaluateFormula_error_goes_with_error_code_witness :
  Js.startsWith "=A2+1" "=" = true ∧
  match FormulaParser.value
          (FormulaParser.evaluateFormula (host := IntegerHost.integerHost) "=A2+1" textOnly) with
  | VNum _ =>
      FormulaParser.error
        (FormulaParser.evaluateFormula (host := IntegerHost.integerHost) "=A2+1" textOnly) = None
  | VStr code =>
      Js.startsWith code "#" = true ∧
      ∃ e, FormulaParser.error
             (FormulaParser.evaluateFormula (host := IntegerHost.integerHost) "=A2+1" textOnly)
           = Some e ∧ truthy (Some e) = true
  end.
Proof.
  split; [reflexivity|].
  exact (evaluateFormula_error_goes_with_error_code
           (host := IntegerHost.integerHost) "=A2+1" textOnly eq_refl).
Defined.

(** X14: [evaluateExpression] returns a number or one of the codes
    [#NUM!], [#VALUE!] and [#ERROR!]; it returns [#VALUE!] without running
    anything when the text is empty or holds a character outside digits,
    the four operators, the dot, parentheses and the space. *)
Theorem evaluateExpression_returns_a_number_or_a_code {host : JsHost} (expression : string) :
  ((∃ n, FormulaParser.evaluateExpression expression = VNum n) ∨
   (∃ code, FormulaParser.evaluateExpression expression = VStr code
            ∧ code ∈ expressionErrorCodes)) ∧
  (Js.forallb FormulaParser.isExpressionChar expression = false ∨ expression = EmptyString →
   FormulaParser.evaluateExpression expression = VStr "#VALUE!").
Proof.
  split; [apply evaluateExpression_cases|].
  unfold FormulaParser.evaluateExpression. intros [->| ->].
  - by rewrite andb_false_r.
  - done.
Qed.

Lemma evaluateExpression_returns_a_number_or_a_code_witness :
  (Js.forallb (FormulaParser.isExpressionChar) "1+x" = false ∨ "1+x" = EmptyString) ∧
  FormulaParser.evaluateExpression (host := IntegerHost.integerHost) "1+x" = VStr "#VALUE!".
Proof.
  assert (H : Js.forallb (FormulaParser.isExpressionChar) "1+x" = false ∨ "1+x" = EmptyString)
    by (left; vm_compute; reflexivity).
  split; [exact H|].
  exact (proj2 (evaluateExpression_returns_a_number_or_a_code
                  (host := IntegerHost.integerHost) "1+x") H).
Defined.

Section FunctionNames.
Import FormulaParser.
Context {host : JsHost}.

Lemma toUpperChar_idemp c : Js.toUpperChar (Js.toUpperChar c) = Js.toUpperChar c.
Proof. destruct c as [[] [] [] [] [] [] [] []]; reflexivity. Qed.

Lemma toUpperCase_idemp s : Js.toUpperCase (Js.toUpperCase s) = Js.toUpperCase s.
Proof. induction s as [|c s IH]; simpl; [done|]. by rewrite toUpperChar_idemp, IH. Qed.

Lemma evaluateFunction_upper name args :
  evaluateFunction (Js.toUpperCase name) args = evaluateFunction name args.
Proof. unfold evaluateFunction. by rewrite toUpperCase_idemp. Qed.

Lemma evaluateFunction_known name args :
  Js.toUpperCase name ∈ aggregateNames → ∃ n, evaluateFunction name args = VNum n.
Proof.
  unfold aggregateNames, evaluateFunction. rewrite !elem_of_cons, elem_of_nil.
  intros H. repeat (case_decide; [by eexists|]). exfalso. tauto.
Qed.

Lemma evaluateFunction_unknown name args :
  Js.toUpperCase name ∉ aggregateNames → evaluateFunction name args = VStr "#NAME!".
Proof.
  unfold aggregateNames, evaluateFunction. rewrite !elem_of_cons, elem_of_nil.
  intros H. repeat (case_decide; [exfalso; tauto|]). done.
Qed.

End FunctionNames.

(** X15: [evaluateFunction] matches the function name without regard to
    case; it returns a number for the five aggregates and [#NAME!] for every
    other name, whatever the arguments. *)
Theorem evaluateFunction_matches_names_case_insensitively {host : JsHost}
    (functionName : string) (args : list float) :
  FormulaParser.evaluateFunction (Js.toUpperCase functionName) args
  = FormulaParser.evaluateFunction functionName args ∧
  (Js.toUpperCase functionName ∈ aggregateNames →
   ∃ n, FormulaParser.evaluateFunction functionName args = VNum n) ∧
  (Js.toUpperCase functionName ∉ aggregateNames →
   FormulaParser.evaluateFunction functionName args = VStr "#NAME!").
Proof.
  split_and!.
  - apply evaluateFunction_upper.
  - apply evaluateFunction_known.
  - apply evaluateFunction_unknown.
Qed.

Section Parentheses.
Import FormulaParser.

Lemma parenBalance_count expression : ∀ parenCount n,
  parenBalance expression parenCount = Some n →
  (0 ≤ parenCount)%Z →
  n = (parenCount + countChar "(" expression - countChar ")" expression)%Z ∧
  ∀ k, (countChar ")" (String.substring 0 k expression)
        ≤ parenCount + countChar "(" (String.substring 0 k expression))%Z.
Proof.
  induction expression as [|c rest IH]; intros parenCount n; simpl.
  - intros [= <-] Hc. split; [lia|]. intros [|k]; simpl; lia.
  - destruct (_ <? 0)%Z eqn:Hlt; [discriminate|]. apply Z.ltb_ge in Hlt.
    intros Hrest Hc. apply IH in Hrest as [-> Hpre]; [|done].
    assert (Hne : ¬ (c = "("%char ∧ c = ")"%char)) by (intros [-> [=]]).
    split.
    + repeat case_bool_decide; try tauto; lia.
    + intros [|k]; simpl; [lia|]. specialize (Hpre k).
      repeat case_bool_decide; try tauto; lia.
Qed.

Lemma startsWith_cons formula c :
  Js.startsWith formula (String c EmptyString) = true →
  formula = String c (Js.sliceFrom 1 formula).
Proof.
  destruct formula as [|c' rest]; [discriminate|]. unfold Js.startsWith. simpl.
  destruct (ascii_dec c c') as [->|]; [done|discriminate].
Qed.

(** X16: in a formula that [validateFormula] accepts the parentheses are
    balanced: the text holds as many opening as closing parentheses, and no
    prefix of it closes more than it has opened. *)
Theorem validateFormula_accepts_only_balanced_parentheses formula :
  validateFormula formula = None → Js.startsWith formula "=" = true →
  countChar "(" formula = countChar ")" formula ∧
  ∀ k, (countChar ")" (String.substring 0 k formula)
        ≤ countChar "(" (String.substring 0 k formula))%Z.
Proof.
  intros Hv Hf. pose proof (startsWith_cons _ _ Hf) as Heq.
  unfold validateFormula in Hv. rewrite Hf in Hv. simpl in Hv.
  destruct (parenBalance _ _) as [n|] eqn:Hb; [|discriminate].
  destruct (n =? 0)%Z eqn:Hn; [|discriminate]. apply Z.eqb_eq in Hn. subst n.
  apply parenBalance_count in Hb as [Hcount Hpre]; [|lia].
  rewrite Heq. split.
  - simpl. repeat case_bool_decide; try discriminate. lia.
  - intros [|k]; simpl; [lia|]. specialize (Hpre k).
    repeat case_bool_decide; try discriminate. lia.
Qed.

End Parentheses.

Lemma validateFormula_accepts_only_balanced_parentheses_witness :
  FormulaParser.validateFormula "=(A1+SUM(B1:B3))*2" = None ∧
  Js.startsWith "=(A1+SUM(B1:B3))*2" "=" = true ∧
  countChar "(" "=(A1+SUM(B1:B3))*2" = countChar ")" "=(A1+SUM(B1:B3))*2".
Proof.
  assert (H : FormulaParser.validateFormula "=(A1+SUM(B1:B3))*2" = None)
    by (vm_compute; reflexivity).
  split; [exact H|]. split; [reflexivity|].
  exact (proj1 (validateFormula_accepts_only_balanced_parentheses
                  "=(A1+SUM(B1:B3))*2" H eq_refl)).
Defined.
(** ** The engine *)

Section EngineFacts.
Context {host : JsHost}.

Lemma lookupCell_recalculateCell cs d k :
  Engine.lookupCell k (Engine.recalculateCell cs d)
  = if decide (k = d) then recalculated cs <$> Engine.lookupCell d cs
    else Engine.lookupCell k cs.
Proof.
  unfold Engine.recalculateCell, recalculated.
  destruct (Engine.lookupCell d cs) as [c|] eqn:E.
  - destruct (truthy (Engine.formula c)) eqn:Hf.
    + case_decide as Hk.
      * subst. rewrite lookupCell_storeCell_eq. simpl. by rewrite Hf.
      * by apply lookupCell_storeCell_ne.
    + case_decide as Hk; [|done]. subst. rewrite E. simpl. by rewrite Hf.
  - case_decide as Hk; [|done]. subst. by rewrite E.
Qed.

Lemma sameButResult_refl c : sameButResult c c.
Proof. done. Qed.

Lemma sameButResult_recalculated cs c : sameButResult c (recalculated cs c).
Proof. unfold recalculated. by destruct (truthy _). Qed.

Lemma sameButResult_trans c1 c2 c3 :
  sameButResult c1 c2 → sameButResult c2 c3 → sameButResult c1 c3.
Proof. unfold sameButResult. intros (-> & -> & -> & ->) (-> & -> & -> & ->). done. Qed.

(** What the loop of [recalculateDependents] does to the record of a cell:
    nothing when the cell is absent, not among the dependents or without a
    formula; otherwise it replaces value and error only. *)
Lemma recalculate_lookup ds : ∀ cs k,
  match Engine.lookupCell k cs with
  | None => Engine.lookupCell k (fold_left Engine.recalculateCell ds cs) = None
  | Some c =>
      ∃ c', Engine.lookupCell k (fold_left Engine.recalculateCell ds cs) = Some c'
            ∧ sameButResult c c'
            ∧ (k ∉ ds ∨ truthy (Engine.formula c) = false → c' = c)
  end.
Proof.
  induction ds as [|d ds IH]; intros cs k; cbn [fold_left].
  - destruct (Engine.lookupCell k cs) as [c|]; [|done]. by exists c.
  - specialize (IH (Engine.recalculateCell cs d) k).
    rewrite lookupCell_recalculateCell in IH.
    destruct (decide (k = d)) as [->|Hne].
    + destruct (Engine.lookupCell d cs) as [c|]; [|done]. simpl in IH.
      destruct IH as (c' & Hc' & Hsame & Hkeep). exists c'. split; [done|]. split.
      * eapply sameButResult_trans; [apply sameButResult_recalculated|done].
      * intros [Hnot|Hf]; [exfalso; apply Hnot; by left|].
        assert (Hr : recalculated cs c = c) by (unfold recalculated; by rewrite Hf).
        rewrite Hr in Hkeep. apply Hkeep. by right.
    + destruct (Engine.lookupCell k cs) as [c|]; [|done].
      destruct IH as (c' & Hc' & Hsame & Hkeep). exists c'. split; [done|]. split; [done|].
      intros [Hnot|Hf]; apply Hkeep; [left|by right].
      intros Hin. apply Hnot. by right.
Qed.

Lemma recalculate_lookup_None ds cs k :
  Engine.lookupCell k cs = None →
  Engine.lookupCell k (fold_left Engine.recalculateCell ds cs) = None.
Proof. intros H. pose proof (recalculate_lookup ds cs k) as L. by rewrite H in L. Qed.

Lemma recalculate_lookup_kept ds cs k c :
  Engine.lookupCell k cs = Some c → k ∉ ds ∨ truthy (Engine.formula c) = false →
  Engine.lookupCell k (fold_left Engine.recalculateCell ds cs) = Some c.
Proof.
  intros H Hk. pose proof (recalculate_lookup ds cs k) as L. rewrite H in L.
  destruct L as (c' & -> & _ & Hkeep). f_equal. by apply Hkeep.
Qed.

Lemma recalculate_formula ds cs k :
  Engine.lookupCell k (fold_left Engine.recalculateCell ds cs) ≫= Engine.formula
  = Engine.lookupCell k cs ≫= Engine.formula.
Proof.
  pose proof (recalculate_lookup ds cs k) as L.
  destruct (Engine.lookupCell k cs) as [c|]; [|by rewrite L].
  destruct L as (c' & -> & (_ & Hf & _) & _). done.
Qed.

End EngineFacts.

(** X17: the index checks of [isValidCellId] never fire: the function
    agrees with the pattern test [isValidCellReference] on every string. *)
Theorem isValidCellId_is_the_pattern_test (cellId : string) :
  Engine.isValidCellId cellId = FormulaParser.isValidCellReference cellId.
Proof.
  destruct (FormulaParser.isValidCellReference cellId) eqn:E.
  - by apply inAddressSpace_isValidCellId, isValidCellReference_inAddressSpace.
  - unfold Engine.isValidCellId. destruct cellId as [|col [|row [|]]]; try done.
    by rewrite E.
Qed.

Section Accounting.
Context {host : JsHost}.

Lemma set_accounting s cellId v f now :
  let r := Engine.set s cellId v f now in
  Engine.version (Engine.data r.1)
    = (if r.2 then (Engine.version (Engine.data s) + 1)%float
       else Engine.version (Engine.data s)) ∧
  Engine.lastModified (Engine.data r.1)
    = (if r.2 then now else Engine.lastModified (Engine.data s)) ∧
  Engine.notifications r.1
    = Engine.notifications s + (if Engine.isValidCellId cellId then 1 else 0).
Proof.
  cbv zeta. unfold Engine.set.
  destruct (Engine.isValidCellId cellId); simpl negb; cbv iota.
  2:{ simpl. split_and!; [done|done|lia]. }
  fold (detached s cellId).
  destruct (truthy f).
  - destruct (FormulaParser.validateFormula _).
    { simpl. rewrite data_detached, notifications_detached. split_and!; [done|done|lia]. }
    destruct (DependencyGraph.checkCircularReference _ _ _).
    { simpl. rewrite data_detached, notifications_detached. split_and!; [done|done|lia]. }
    destruct (truthy (FormulaParser.error _)).
    + simpl. rewrite data_detached, notifications_detached. split_and!; [done|done|lia].
    + simpl. rewrite data_detached, notifications_detached. split_and!; [done|done|lia].
  - simpl. rewrite data_detached, notifications_detached. split_and!; [done|done|lia].
Qed.

Lemma set_keeps_records s cellId v f now k :
  is_Some (Engine.get s k) → is_Some (Engine.get (Engine.set s cellId v f now).1 k).
Proof.
  assert (Hstore : ∀ c cs, is_Some (Engine.lookupCell k cs) →
            is_Some (Engine.lookupCell k (Engine.storeCell cellId c cs))).
  { intros c cs Hk. destruct (decide (k = cellId)) as [->|Hne].
    - by rewrite lookupCell_storeCell_eq.
    - by rewrite lookupCell_storeCell_ne. }
  assert (Hrec : ∀ ds cs, is_Some (Engine.lookupCell k cs) →
            is_Some (Engine.lookupCell k (fold_left Engine.recalculateCell ds cs))).
  { intros ds cs [c Hc]. pose proof (recalculate_lookup ds cs k) as L. rewrite Hc in L.
    destruct L as (c' & -> & _). done. }
  unfold Engine.get, Engine.set. intros Hk.
  destruct (Engine.isValidCellId cellId); simpl negb; cbv iota; [|done].
  fold (detached s cellId).
  destruct (truthy f).
  - destruct (FormulaParser.validateFormula _).
    { simpl. rewrite data_detached. by apply Hstore. }
    destruct (DependencyGraph.checkCircularReference _ _ _).
    { simpl. rewrite data_detached. by apply Hstore. }
    destruct (truthy (FormulaParser.error _)); simpl; rewrite data_detached.
    + by apply Hstore.
    + by apply Hrec, Hstore.
  - simpl. rewrite data_detached. by apply Hrec, Hstore.
Qed.

Lemma set_leaves_a_record s cellId v f now :
  Engine.isValidCellId cellId = true →
  is_Some (Engine.get (Engine.set s cellId v f now).1 cellId).
Proof.
  assert (Hrec : ∀ ds cs, is_Some (Engine.lookupCell cellId cs) →
            is_Some (Engine.lookupCell cellId (fold_left Engine.recalculateCell ds cs))).
  { intros ds cs [c Hc]. pose proof (recalculate_lookup ds cs cellId) as L. rewrite Hc in L.
    destruct L as (c' & -> & _). done. }
  unfold Engine.get, Engine.set. intros ->. simpl negb. cbv iota.
  fold (detached s cellId).
  destruct (truthy f).
  - destruct (FormulaParser.validateFormula _).
    { simpl. by rewrite lookupCell_storeCell_eq. }
    destruct (DependencyGraph.checkCircularReference _ _ _).
    { simpl. by rewrite lookupCell_storeCell_eq. }
    destruct (truthy (FormulaParser.error _)); simpl.
    + by rewrite lookupCell_storeCell_eq.
    + apply Hrec. by rewrite lookupCell_storeCell_eq.
  - simpl. apply Hrec. by rewrite lookupCell_storeCell_eq.
Qed.

End Accounting.

(** X18: the counters of a write whose formula, if any, names rows of at
    most six digits: [set] replaces the version by its binary64 sum with 1
    and stamps the time exactly when it returns true, leaves both as they
    were when it returns false, and notifies the observers once for every
    identifier of the address space, accepted or not; it never removes a
    record, and after a write on a valid identifier that cell has one. *)
Theorem set_counts_accepted_writes {host : JsHost}
    (s : Engine.State) (cellId : string) (v : option Value) (f : option string) (now : Z) :
  shortRows f →
  let r := Engine.set s cellId v f now in
  Engine.version (Engine.data r.1)
    = (if r.2 then (Engine.version (Engine.data s) + 1)%float
       else Engine.version (Engine.data s)) ∧
  Engine.lastModified (Engine.data r.1)
    = (if r.2 then now else Engine.lastModified (Engine.data s)) ∧
  Engine.notifications r.1
    = Engine.notifications s + (if Engine.isValidCellId cellId then 1 else 0) ∧
  (∀ k, is_Some (Engine.get s k) → is_Some (Engine.get r.1 k)) ∧
  (Engine.isValidCellId cellId = true → is_Some (Engine.get r.1 cellId)).
Proof.
  intros _. cbv zeta. pose proof (set_accounting s cellId v f now) as (Hv & Ht & Hn).
  split_and!; [done|done|done| |].
  - intros k. apply set_keeps_records.
  - apply set_leaves_a_record.
Qed.

Lemma shortRows_B1 : shortRows (Some "=B1").
Proof.
  unfold shortRows.
  replace (Js.matchAll FormulaParser.CELL_REGEX (Js.sliceFrom 1 (default EmptyString (Some "=B1"))))
    with [(0, "B1")] by (vm_compute; reflexivity).
  apply Forall_singleton. simpl. lia.
Qed.

Lemma set_counts_accepted_writes_witness :
  shortRows (Some "=B1") ∧
  Engine.notifications
    (Engine.set (host := IntegerHost.integerHost) freshEngine "A1" None (Some "=B1") 1).1
  = Engine.notifications freshEngine
    + (if Engine.isValidCellId "A1" then 1 else 0).
Proof.
  split; [exact shortRows_B1|].
  exact (proj1 (proj2 (proj2
    (set_counts_accepted_writes (host := IntegerHost.integerHost)
       freshEngine "A1" None (Some "=B1") 1 shortRows_B1)))).
Defined.

Section Writes.
Context {host : JsHost}.

Lemma getRawValue_plain d cellId c :
  Engine.lookupCell cellId (Engine.cells d) = Some c →
  truthy (Engine.error c) = false →
  Engine.getRawValue d cellId = Engine.value c.
Proof. intros Hc He. unfold Engine.getRawValue. by rewrite Hc, He. Qed.

Lemma getRawValue_message d cellId c :
  Engine.lookupCell cellId (Engine.cells d) = Some c →
  truthy (Engine.error c) = true → Engine.value c = None →
  Engine.getRawValue d cellId = VStr <$> Engine.error c.
Proof. intros Hc He Hv. unfold Engine.getRawValue. by rewrite Hc, He, Hv. Qed.

(** The other cells after a loop of [recalculateDependents] over cells in
    which [cellId] was stored. *)
Lemma recalculate_others ds cs cellId cell k :
  k ≠ cellId →
  match Engine.lookupCell k cs with
  | None =>
      Engine.lookupCell k
        (fold_left Engine.recalculateCell ds (Engine.storeCell cellId cell cs)) = None
  | Some c =>
      ∃ c', Engine.lookupCell k
              (fold_left Engine.recalculateCell ds (Engine.storeCell cellId cell cs)) = Some c'
            ∧ sameButResult c c'
  end.
Proof.
  intros Hne. pose proof (recalculate_lookup ds (Engine.storeCell cellId cell cs) k) as L.
  rewrite lookupCell_storeCell_ne in L by done.
  destruct (Engine.lookupCell k cs) as [c|]; [|done].
  destruct L as (c' & Hc' & Hsame & _). by exists c'.
Qed.

Lemma set_literal s cellId v f now :
  inAddressSpace cellId → truthy f = false →
  Engine.set s cellId v f now
  = (Engine.notifyChange
       (Engine.recalculateDependents cellId
          (Engine.touch now
             (Engine.setCells
                (Engine.storeCell cellId (literalCell s cellId v)
                   (Engine.cells (Engine.data s)))
                (detached s cellId)))), true).
Proof.
  intros Hin Hf. unfold Engine.set.
  rewrite (inAddressSpace_isValidCellId _ Hin). simpl negb. cbv iota. rewrite Hf.
  fold (detached s cellId). by rewrite data_detached.
Qed.

Lemma set_rejected_by_validation s cellId v f now e :
  inAddressSpace cellId → truthy (Some f) = true →
  FormulaParser.validateFormula f = Some e →
  Engine.set s cellId v (Some f) now
  = (Engine.notifyChange
       (Engine.setCells
          (Engine.storeCell cellId (rejectedCell s cellId f (FormulaParser.message e))
             (Engine.cells (Engine.data s)))
          (detached s cellId)), false).
Proof.
  intros Hin Hf Hv. unfold Engine.set.
  rewrite (inAddressSpace_isValidCellId _ Hin). simpl negb. cbv iota. rewrite Hf.
  simpl default. rewrite Hv. fold (detached s cellId). by rewrite data_detached.
Qed.

Lemma set_rejected_by_cycle s cellId v f now e :
  inAddressSpace cellId → truthy (Some f) = true →
  FormulaParser.validateFormula f = None →
  DependencyGraph.checkCircularReference
    (Engine.dependencyGraph (detached s cellId)) cellId (formulaDependencies f) = Some e →
  Engine.set s cellId v (Some f) now
  = (Engine.notifyChange
       (Engine.setCells
          (Engine.storeCell cellId (rejectedCell s cellId f (FormulaParser.message e))
             (Engine.cells (Engine.data s)))
          (detached s cellId)), false).
Proof.
  intros Hin Hf Hv Hc. unfold Engine.set.
  rewrite (inAddressSpace_isValidCellId _ Hin). simpl negb. cbv iota. rewrite Hf.
  simpl default. rewrite Hv. fold (detached s cellId). fold (formulaDependencies f).
  rewrite Hc. by rewrite data_detached.
Qed.

Lemma validateFormula_message f e :
  FormulaParser.validateFormula f = Some e → truthy (Some (FormulaParser.message e)) = true.
Proof.
  unfold FormulaParser.validateFormula. destruct (negb _); [discriminate|].
  destruct (FormulaParser.parenBalance _ _); [|by intros [= <-]].
  destruct (negb _); [by intros [= <-]|].
  destruct (List.find _ _); [by intros [= <-]|discriminate].
Qed.

Lemma checkCircularReference_message g cell deps e :
  DependencyGraph.checkCircularReference g cell deps = Some e →
  truthy (Some (FormulaParser.message e)) = true
  ∧ ∃ chain, e = FormulaParser.CircularReferenceError
                   ("Circular reference detected: " +:+ DependencyGraph.join " → " chain) chain.
Proof.
  unfold DependencyGraph.checkCircularReference, DependencyGraph.searchCycle.
  destruct (DependencyGraph.hasCycle _ _ _ _) as [[[] st]|]; simpl; try discriminate.
  intros [= <-]. split; [done|]. by eexists.
Qed.

(** The state that a rejected formula write leaves. *)
Lemma rejected_state s cellId f msg :
  truthy (Some msg) = true →
  let s' := Engine.notifyChange
              (Engine.setCells
                 (Engine.storeCell cellId (rejectedCell s cellId f msg)
                    (Engine.cells (Engine.data s)))
                 (detached s cellId)) in
  Engine.get s' cellId = Some (rejectedCell s cellId f msg) ∧
  Engine.getRawValue (Engine.data s') cellId = Some (VStr msg) ∧
  Engine.getDisplayValue s' cellId = msg ∧
  (∀ k, k ≠ cellId → Engine.get s' k = Engine.get s k) ∧
  Engine.dependencyGraph s' = Engine.dependencyGraph (detached s cellId) ∧
  Engine.version (Engine.data s') = Engine.version (Engine.data s) ∧
  Engine.lastModified (Engine.data s') = Engine.lastModified (Engine.data s) ∧
  Engine.notifications s' = S (Engine.notifications s).
Proof.
  intros Hmsg. cbv zeta.
  assert (Hget : Engine.lookupCell cellId
                   (Engine.storeCell cellId (rejectedCell s cellId f msg)
                      (Engine.cells (Engine.data s)))
                 = Some (rejectedCell s cellId f msg)) by apply lookupCell_storeCell_eq.
  split_and!.
  - exact Hget.
  - rewrite (getRawValue_message _ cellId (rejectedCell s cellId f msg));
      [done|exact Hget|exact Hmsg|done].
  - unfold Engine.getDisplayValue. cbn [Engine.notifyChange Engine.setCells Engine.data Engine.cells].
    rewrite Hget. cbn [rejectedCell Engine.error]. by rewrite Hmsg.
  - intros k Hk. unfold Engine.get. simpl. by apply lookupCell_storeCell_ne.
  - done.
  - simpl. by rewrite data_detached.
  - simpl. by rewrite data_detached.
  - simpl. by rewrite notifications_detached.
Qed.

End Writes.

(** X19: a literal write on an identifier of the address space is always
    accepted: it returns true, stores the value without formula or error,
    and the value reads back unchanged, whatever the recalculation of the
    dependents does; the old outgoing edges of the cell are removed, and
    every other cell keeps its record up to value and error. *)
Theorem literal_write_reads_back {host : JsHost}
    (s : Engine.State) (cellId : string) (v : option Value) (f : option string) (now : Z) :
  inAddressSpace cellId → truthy f = false →
  let r := Engine.set s cellId v f now in
  r.2 = true ∧
  Engine.get r.1 cellId = Some (literalCell s cellId v) ∧
  Engine.getRawValue (Engine.data r.1) cellId = v ∧
  Engine.getFormula r.1 cellId = None ∧
  Engine.dependencyGraph r.1 = Engine.dependencyGraph (detached s cellId) ∧
  ∀ k, k ≠ cellId →
       match Engine.get s k with
       | None => Engine.get r.1 k = None
       | Some c => ∃ c', Engine.get r.1 k = Some c' ∧ sameButResult c c'
       end.
Proof.
  intros Hin Hf. cbv zeta. rewrite (set_literal _ _ _ _ _ Hin Hf).
  cbn [fst snd].
  assert (Hget : Engine.lookupCell cellId
            (fold_left Engine.recalculateCell
               (DependencyGraph.getAllDependents
                  (Engine.dependencyGraph (detached s cellId)) cellId)
               (Engine.storeCell cellId (literalCell s cellId v)
                  (Engine.cells (Engine.data s))))
          = Some (literalCell s cellId v)).
  { apply recalculate_lookup_kept; [apply lookupCell_storeCell_eq|by right]. }
  split_and!.
  - done.
  - exact Hget.
  - rewrite (getRawValue_plain _ cellId (literalCell s cellId v)); [done|exact Hget|done].
  - unfold Engine.getFormula. simpl. unfold Engine.get in Hget. simpl in Hget.
    by rewrite Hget.
  - done.
  - intros k Hk. unfold Engine.get. simpl. by apply recalculate_others.
Qed.

Lemma literal_write_reads_back_witness :
  inAddressSpace "A1" ∧ truthy None = false ∧
  Engine.getRawValue
    (Engine.data
       (Engine.set (host := IntegerHost.integerHost) freshEngine "A1" (Some (VNum 5)) None 1).1)
    "A1" = Some (VNum 5).
Proof.
  split; [exact A1_inside|]. split; [reflexivity|].
  exact (proj1 (proj2 (proj2
    (literal_write_reads_back (host := IntegerHost.integerHost)
       freshEngine "A1" (Some (VNum 5)) None 1 A1_inside eq_refl)))).
Defined.
(** X20: a formula write that [validateFormula] turns down returns false
    and stores the formula text with the message of the validation error
    and no value; [getRawValue] and [getDisplayValue] then return that
    message.  The old outgoing edges of the cell are removed all the same,
    while the version, the timestamp and every other cell stay as they
    were, and the observers are notified once. *)
Theorem set_rejected_by_validation_stores_the_message {host : JsHost}
    (s : Engine.State) (cellId : string) (v : option Value) (f : string) (now : Z)
    (e : FormulaParser.SpreadsheetError) :
  inAddressSpace cellId → truthy (Some f) = true →
  FormulaParser.validateFormula f = Some e →
  let r := Engine.set s cellId v (Some f) now in
  r.2 = false ∧
  Engine.get r.1 cellId = Some (rejectedCell s cellId f (FormulaParser.message e)) ∧
  Engine.getRawValue (Engine.data r.1) cellId = Some (VStr (FormulaParser.message e)) ∧
  Engine.getDisplayValue r.1 cellId = FormulaParser.message e ∧
  (∀ k, k ≠ cellId → Engine.get r.1 k = Engine.get s k) ∧
  Engine.dependencyGraph r.1 = Engine.dependencyGraph (detached s cellId) ∧
  Engine.version (Engine.data r.1) = Engine.version (Engine.data s) ∧
  Engine.lastModified (Engine.data r.1) = Engine.lastModified (Engine.data s) ∧
  Engine.notifications r.1 = S (Engine.notifications s).
Proof.
  intros Hin Hf Hv. cbv zeta. rewrite (set_rejected_by_validation _ _ _ _ _ _ Hin Hf Hv).
  split; [done|]. apply rejected_state. by eapply validateFormula_message.
Qed.

Lemma set_rejected_by_validation_stores_the_message_witness :
  inAddressSpace "A1" ∧ truthy (Some "=(B1") = true ∧
  FormulaParser.validateFormula "=(B1"
    = Some (FormulaParser.FormulaError "Unmatched opening parenthesis") ∧
  Engine.getRawValue
    (Engine.data
       (Engine.set (host := IntegerHost.integerHost) freshEngine "A1" None (Some "=(B1") 1).1)
    "A1" = Some (VStr "Unmatched opening parenthesis").
Proof.
  assert (H : FormulaParser.validateFormula "=(B1"
              = Some (FormulaParser.FormulaError "Unmatched opening parenthesis"))
    by (vm_compute; reflexivity).
  split; [exact A1_inside|]. split; [reflexivity|]. split; [exact H|].
  exact (proj1 (proj2 (proj2
    (set_rejected_by_validation_stores_the_message (host := IntegerHost.integerHost)
       freshEngine "A1" None "=(B1" 1 _ A1_inside eq_refl H)))).
Defined.

(** X21: a formula write that the cycle check turns down returns false
    and stores the formula text with the message [Circular reference
    detected: ...] over the reported chain and no value; [getRawValue] then
    returns that message.  The old outgoing edges of the cell are removed and
    none of the new formula is registered; the version, the timestamp and
    every other cell stay as they were. *)
Theorem set_rejected_by_cycle_check_stores_the_chain {host : JsHost}
    (s : Engine.State) (cellId : string) (v : option Value) (f : string) (now : Z)
    (e : FormulaParser.SpreadsheetError) :
  inAddressSpace cellId → truthy (Some f) = true →
  FormulaParser.validateFormula f = None →
  DependencyGraph.checkCircularReference
    (Engine.dependencyGraph (detached s cellId)) cellId (formulaDependencies f) = Some e →
  let r := Engine.set s cellId v (Some f) now in
  (∃ chain, FormulaParser.message e
            = "Circular reference detected: " +:+ DependencyGraph.join " → " chain) ∧
  r.2 = false ∧
  Engine.get r.1 cellId = Some (rejectedCell s cellId f (FormulaParser.message e)) ∧
  Engine.getRawValue (Engine.data r.1) cellId = Some (VStr (FormulaParser.message e)) ∧
  Engine.getDisplayValue r.1 cellId = FormulaParser.message e ∧
  (∀ k, k ≠ cellId → Engine.get r.1 k = Engine.get s k) ∧
  Engine.dependencyGraph r.1 = Engine.dependencyGraph (detached s cellId) ∧
  Engine.version (Engine.data r.1) = Engine.version (Engine.data s) ∧
  Engine.lastModified (Engine.data r.1) = Engine.lastModified (Engine.data s) ∧
  Engine.notifications r.1 = S (Engine.notifications s).
Proof.
  intros Hin Hf Hv Hc. cbv zeta.
  rewrite (set_rejected_by_cycle _ _ _ _ _ _ Hin Hf Hv Hc).
  destruct (checkCircularReference_message _ _ _ _ Hc) as (Hmsg & chain & ->).
  split; [by exists chain|]. split; [done|]. by apply rejected_state.
Qed.

Lemma set_rejected_by_cycle_check_stores_the_chain_witness :
  inAddressSpace "A1" ∧ truthy (Some "=A1+1") = true ∧
  FormulaParser.validateFormula "=A1+1" = None ∧
  DependencyGraph.checkCircularReference
    (Engine.dependencyGraph (detached freshEngine "A1")) "A1" (formulaDependencies "=A1+1")
  = Some (FormulaParser.CircularReferenceError
            "Circular reference detected: A1 → A1" ["A1"; "A1"]) ∧
  Engine.getRawValue
    (Engine.data
       (Engine.set (host := IntegerHost.integerHost) freshEngine "A1" None (Some "=A1+1") 1).1)
    "A1" = Some (VStr "Circular reference detected: A1 → A1").
Proof.
  assert (H1 : FormulaParser.validateFormula "=A1+1" = None) by (vm_compute; reflexivity).
  assert (H2 : DependencyGraph.checkCircularReference
                 (Engine.dependencyGraph (detached freshEngine "A1")) "A1"
                 (formulaDependencies "=A1+1")
               = Some (FormulaParser.CircularReferenceError
                         "Circular reference detected: A1 → A1" ["A1"; "A1"]))
    by (vm_compute; reflexivity).
  split; [exact A1_inside|]. split; [reflexivity|]. split; [exact H1|]. split; [exact H2|].
  exact (proj1 (proj2 (proj2 (proj2
    (set_rejected_by_cycle_check_stores_the_chain (host := IntegerHost.integerHost)
       freshEngine "A1" None "=A1+1" 1 _ A1_inside eq_refl H1 H2))))).
Defined.

(** X22: [clearCell] on a stored cell of the address space returns true,
    removes the record and the outgoing edges of the cell, replaces the
    version by its binary64 sum with 1, stamps the time and notifies once;
    every other cell keeps its record up to value and error. *)
Theorem clearCell_removes_the_record {host : JsHost}
    (s : Engine.State) (cellId : string) (now : Z) (c : Engine.CellData) :
  inAddressSpace cellId →
  Engine.get s cellId = Some c →
  let r := Engine.clearCell s cellId now in
  r.2 = true ∧
  Engine.get r.1 cellId = None ∧
  Engine.getRawValue (Engine.data r.1) cellId = None ∧
  Engine.dependencyGraph r.1
    = DependencyGraph.removeDependencies cellId (Engine.dependencyGraph s) ∧
  Engine.version (Engine.data r.1) = (Engine.version (Engine.data s) + 1)%float ∧
  Engine.lastModified (Engine.data r.1) = now ∧
  Engine.notifications r.1 = S (Engine.notifications s) ∧
  ∀ k, k ≠ cellId →
       match Engine.get s k with
       | None => Engine.get r.1 k = None
       | Some c0 => ∃ c', Engine.get r.1 k = Some c' ∧ sameButResult c0 c'
       end.
Proof.
  intros Hin Hc. cbv zeta. unfold Engine.clearCell, Engine.get in *.
  rewrite (inAddressSpace_isValidCellId _ Hin), Hc. simpl negb. cbv iota.
  cbn [fst snd].
  assert (Hgone : Engine.lookupCell cellId
            (fold_left Engine.recalculateCell
               (DependencyGraph.getAllDependents
                  (DependencyGraph.removeDependencies cellId (Engine.dependencyGraph s)) cellId)
               (Engine.deleteCell cellId (Engine.cells (Engine.data s)))) = None).
  { apply recalculate_lookup_None. rewrite lookupCell_deleteCell. by rewrite decide_True. }
  split_and!; try done.
  - unfold Engine.getRawValue. simpl. unfold Engine.get in Hgone. simpl in Hgone.
    by rewrite Hgone.
  - intros k Hk. simpl.
    pose proof (recalculate_lookup
      (DependencyGraph.getAllDependents
         (DependencyGraph.removeDependencies cellId (Engine.dependencyGraph s)) cellId)
      (Engine.deleteCell cellId (Engine.cells (Engine.data s))) k) as L.
    rewrite lookupCell_deleteCell, decide_False in L by done.
    destruct (Engine.lookupCell k (Engine.cells (Engine.data s))) as [c0|]; [|done].
    destruct L as (c' & Hc' & Hsame & _). by exists c'.
Qed.

Lemma clearCell_removes_the_record_witness :
  inAddressSpace "A1" ∧
  Engine.get erroredEngine "A1" = Some erroredCell ∧
  Engine.get (Engine.clearCell (host := IntegerHost.integerHost) erroredEngine "A1" 9).1 "A1"
    = None.
Proof.
  split; [exact A1_inside|]. split; [reflexivity|].
  exact (proj1 (proj2
    (clearCell_removes_the_record (host := IntegerHost.integerHost)
       erroredEngine "A1" 9 erroredCell A1_inside eq_refl))).
Defined.

(** X23: [recalculateDependents] rewrites results only: the graph, the
    version, the timestamp, the notification count and the keys of the cell
    store are left as they were, and the record of a cell changes at most in
    value and error, and only for a cell that holds a formula and is listed
    by [getAllDependents]. *)
Theorem recalculateDependents_rewrites_results_only {host : JsHost}
    (s : Engine.State) (cellId : string) :
  let s' := Engine.recalculateDependents cellId s in
  Engine.dependencyGraph s' = Engine.dependencyGraph s ∧
  Engine.version (Engine.data s') = Engine.version (Engine.data s) ∧
  Engine.lastModified (Engine.data s') = Engine.lastModified (Engine.data s) ∧
  Engine.notifications s' = Engine.notifications s ∧
  (Engine.cells (Engine.data s')).*1 = (Engine.cells (Engine.data s)).*1 ∧
  ∀ k, match Engine.get s k with
       | None => Engine.get s' k = None
       | Some c =>
           ∃ c', Engine.get s' k = Some c' ∧ sameButResult c c' ∧
                 (k ∉ DependencyGraph.getAllDependents (Engine.dependencyGraph s) cellId
                  ∨ truthy (Engine.formula c) = false → c' = c)
       end.
Proof.
  cbv zeta. split_and!; try done.
  - simpl. apply recalculate_keys.
  - intros k. unfold Engine.get. simpl. apply recalculate_lookup.
Qed.
Section Invariant.
Context {host : JsHost}.

Lemma truthy_Some f : truthy f = true → f = Some (default EmptyString f).
Proof. by destruct f. Qed.

(** The shape of the state after a write on a valid identifier. *)
Lemma set_shape s cellId v f now :
  Engine.isValidCellId cellId = true →
  ∃ c ds,
    Engine.cells (Engine.data (Engine.set s cellId v f now).1)
    = fold_left Engine.recalculateCell ds
        (Engine.storeCell cellId c (Engine.cells (Engine.data s))) ∧
    (Engine.dependencyGraph (Engine.set s cellId v f now).1
       = Engine.dependencyGraph (detached s cellId) ∨
     ∃ text,
       Engine.dependencyGraph (Engine.set s cellId v f now).1
         = Engine.dependencyGraph (registered s cellId text) ∧
       Engine.formula c = Some text ∧ truthy (Some text) = true ∧
       DependencyGraph.checkCircularReference
         (Engine.dependencyGraph (detached s cellId)) cellId (formulaDependencies text) = None).
Proof.
  intros Hvalid. unfold Engine.set. rewrite Hvalid. simpl negb. cbv iota.
  fold (detached s cellId).
  destruct (truthy f) eqn:Hf.
  - pose proof (truthy_Some _ Hf) as Hsome.
    set (text := default EmptyString f) in *.
    assert (Htext : truthy (Some text) = true) by (by rewrite <- Hsome).
    destruct (FormulaParser.validateFormula text).
    { eexists _, []. simpl. rewrite data_detached. split; [done|by left]. }
    fold (formulaDependencies text).
    destruct (DependencyGraph.checkCircularReference _ _ _) eqn:Hcheck.
    { eexists _, []. simpl. rewrite data_detached. split; [done|by left]. }
    fold (registered s cellId text).
    destruct (truthy (FormulaParser.error _)).
    + eexists _, []. simpl. rewrite data_detached. split; [done|].
      right. by exists text.
    + eexists _, _. simpl. rewrite data_detached. split; [done|].
      right. by exists text.
  - eexists _, _. simpl. rewrite data_detached. split; [done|by left].
Qed.

Lemma detached_key s cellId :
  keysHaveFormulas s →
  DependencyGraph.dependencies (Engine.dependencyGraph (detached s cellId)) !! cellId = None.
Proof.
  intros Hk. unfold detached.
  destruct (truthy (Engine.lookupCell cellId _ ≫= Engine.formula)) eqn:Hf; simpl.
  - rewrite dependencies_removeDependencies. apply lookup_delete_eq.
  - destruct (DependencyGraph.dependencies (Engine.dependencyGraph s) !! cellId) eqn:E;
      [|done].
    rewrite Hk in Hf; [discriminate|]. by rewrite E.
Qed.

Lemma detached_other s cellId k :
  k ≠ cellId →
  DependencyGraph.dependencies (Engine.dependencyGraph (detached s cellId)) !! k
  = DependencyGraph.dependencies (Engine.dependencyGraph s) !! k.
Proof.
  intros Hne. unfold detached. destruct (truthy _); simpl; [|done].
  rewrite dependencies_removeDependencies. by apply lookup_delete_ne.
Qed.

Lemma consistent_detached s cellId :
  consistent (Engine.dependencyGraph s) → consistent (Engine.dependencyGraph (detached s cellId)).
Proof.
  intros Hc. unfold detached. destruct (truthy _); simpl; [|done].
  by apply consistent_removeDependencies.
Qed.

Lemma acyclic_detached s cellId :
  acyclic (DependencyGraph.dependencies (Engine.dependencyGraph s)) →
  acyclic (DependencyGraph.dependencies (Engine.dependencyGraph (detached s cellId))).
Proof.
  intros Ha. unfold detached. destruct (truthy _); simpl; [|done].
  rewrite dependencies_removeDependencies. by apply acyclic_delete.
Qed.

Lemma consistent_register cell deps : ∀ g,
  consistent g →
  consistent (fold_left (λ g dep, DependencyGraph.addDependency cell dep g) deps g).
Proof.
  induction deps as [|d deps IH]; intros g Hg; simpl; [done|].
  by apply IH, consistent_addDependency.
Qed.

Lemma lookup_formula_after ds cellId c cs k :
  k ≠ cellId →
  Engine.lookupCell k (fold_left Engine.recalculateCell ds (Engine.storeCell cellId c cs))
    ≫= Engine.formula
  = Engine.lookupCell k cs ≫= Engine.formula.
Proof. intros Hne. by rewrite recalculate_formula, lookupCell_storeCell_ne. Qed.

Lemma wellFormed_set s cellId v f now :
  wellFormed s → wellFormed (Engine.set s cellId v f now).1.
Proof.
  intros (Hu & Hc & Ha & Hk).
  destruct (Engine.isValidCellId cellId) eqn:Hvalid.
  2:{ unfold Engine.set. rewrite Hvalid. done. }
  destruct (set_shape s cellId v f now Hvalid) as (c & ds & Hcells & Hgraph).
  unfold wellFormed, uniqueKeys, keysHaveFormulas. rewrite Hcells.
  split; [rewrite recalculate_keys; by apply storeCell_keys_NoDup|].
  destruct Hgraph as [->|(text & -> & Hform & Htext & Hcheck)].
  - split; [by apply consistent_detached|]. split; [by apply acyclic_detached|].
    intros k Hkey. destruct (decide (k = cellId)) as [->|Hne].
    + rewrite detached_key in Hkey by done. by destruct Hkey.
    + rewrite lookup_formula_after by done. apply Hk.
      by rewrite <- (detached_other s cellId k).
  - unfold registered. cbn [Engine.setGraph Engine.dependencyGraph].
    split; [by apply consistent_register, consistent_detached|].
    split; [apply register_acyclic; [by apply acyclic_detached|by apply detached_key|done]|].
    intros k Hkey. rewrite dependencies_register in Hkey.
    destruct (decide (k = cellId)) as [->|Hne].
    + rewrite recalculate_formula, lookupCell_storeCell_eq. simpl. by rewrite Hform.
    + rewrite lookup_formula_after by done. apply Hk.
      by rewrite <- (detached_other s cellId k).
Qed.

Lemma wellFormed_clearCell s cellId now :
  wellFormed s → wellFormed (Engine.clearCell s cellId now).1.
Proof.
  intros (Hu & Hc & Ha & Hk). unfold Engine.clearCell.
  destruct (Engine.isValidCellId cellId); simpl negb; cbv iota; [|done].
  destruct (Engine.lookupCell cellId _) eqn:Hcell; [|done].
  unfold wellFormed, uniqueKeys, keysHaveFormulas. simpl.
  split; [rewrite recalculate_keys; by apply deleteCell_keys_NoDup|].
  split; [by apply consistent_removeDependencies|].
  split; [rewrite dependencies_removeDependencies; by apply acyclic_delete|].
  intros k. rewrite dependencies_removeDependencies, recalculate_formula, lookupCell_deleteCell.
  destruct (decide (k = cellId)) as [->|Hne].
  - rewrite lookup_delete_eq. by intros [].
  - rewrite lookup_delete_ne by done. apply Hk.
Qed.

Lemma wellFormed_clear s now : wellFormed (Engine.clear s now).
Proof.
  unfold wellFormed, uniqueKeys, keysHaveFormulas, Engine.clear. simpl.
  split; [apply NoDup_nil_2|]. split; [apply consistent_empty|].
  split; [apply acyclic_empty|]. intros k. rewrite lookup_empty. by intros [].
Qed.

Lemma wellFormed_fresh now : wellFormed (Engine.createSpreadsheetEngine None now).
Proof.
  unfold wellFormed, uniqueKeys, keysHaveFormulas. simpl.
  split; [apply NoDup_nil_2|]. split; [apply consistent_empty|].
  split; [apply acyclic_empty|]. intros k. rewrite lookup_empty. by intros [].
Qed.

(** X24: every state that an engine created without initial data reaches
    through [set], [clearCell] and [clear], whether the writes are accepted
    or rejected, keeps one record per key, keeps the two maps of the graph
    mirror images of each other, keeps the graph free of cycles, and gives
    outgoing edges only to cells that hold a formula. *)
Theorem reachable_states_are_well_formed s : reachable s → wellFormed s.
Proof.
  induction 1 as [now|s cellId v f now _ IH|s cellId now _ IH|s now _ IH].
  - apply wellFormed_fresh.
  - by apply wellFormed_set.
  - by apply wellFormed_clearCell.
  - apply wellFormed_clear.
Qed.

End Invariant.

Lemma recovery2_reachable {host : JsHost} t1 t2 : reachable (recovery2 t1 t2).1.
Proof. unfold recovery2, recovery1, freshEngine. do 2 apply reachable_set. apply reachable_fresh. Qed.

Lemma reachable_states_are_well_formed_witness :
  reachable (host := IntegerHost.integerHost)
    (recovery2 (host := IntegerHost.integerHost) 1 2).1 ∧
  wellFormed (recovery2 (host := IntegerHost.integerHost) 1 2).1.
Proof.
  split; [exact (recovery2_reachable 1 2)|].
  exact (reachable_states_are_well_formed (host := IntegerHost.integerHost) _
           (recovery2_reachable 1 2)).
Defined.
Section AcceptedWrites.
Context {host : JsHost}.

Lemma wellFormed_registered s cellId f :
  wellFormed s →
  DependencyGraph.checkCircularReference
    (Engine.dependencyGraph (detached s cellId)) cellId (formulaDependencies f) = None →
  consistent (Engine.dependencyGraph (registered s cellId f)) ∧
  acyclic (DependencyGraph.dependencies (Engine.dependencyGraph (registered s cellId f))) ∧
  DependencyGraph.getDependencies (Engine.dependencyGraph (registered s cellId f)) cellId
  = formulaDependencies f.
Proof.
  intros (Hu & Hc & Ha & Hk) Hcheck. unfold registered.
  cbn [Engine.setGraph Engine.dependencyGraph]. split_and!.
  - by apply consistent_register, consistent_detached.
  - apply register_acyclic; [by apply acyclic_detached|by apply detached_key|done].
  - unfold DependencyGraph.getDependencies. rewrite dependencies_register, decide_True by done.
    rewrite detached_key by done.
    pose proof (formulaDependencies_NoDup f) as Hnd.
    destruct (formulaDependencies f) as [|d deps] eqn:E; [done|].
    rewrite <- E in *. simpl. by apply (fold_setAdd_fresh _ []).
Qed.

(** X25: in a state that satisfies the invariant of the engine, an
    accepted formula write returns true and leaves the target holding the
    value of the evaluation, its formula text and, in the graph, exactly the
    references of the formula: the recalculation of the dependents never
    comes back to the cell that was written. *)
Theorem accepted_formula_write_stores_the_evaluation s cellId v f now :
  wellFormed s → reachesEvaluation s cellId f →
  truthy (FormulaParser.error (evaluated s cellId f)) = false →
  let r := Engine.set s cellId v (Some f) now in
  r.2 = true ∧
  Engine.get r.1 cellId = Some (evaluatedCell s cellId f) ∧
  Engine.getRawValue (Engine.data r.1) cellId
    = Some (FormulaParser.value (evaluated s cellId f)) ∧
  Engine.getFormula r.1 cellId = Some f ∧
  DependencyGraph.getDependencies (Engine.dependencyGraph r.1) cellId
    = formulaDependencies f.
Proof.
  intros Hwf Hreach Herr. cbv zeta.
  rewrite (set_reaching_evaluation _ _ _ _ _ Hreach). cbv zeta. rewrite Herr.
  destruct Hreach as (Hin & Hf & Hval & Hcheck).
  destruct (wellFormed_registered s cellId f Hwf Hcheck) as (Hc & Ha & Hdeps).
  cbn [fst snd].
  assert (Hnot : cellId ∉ DependencyGraph.getAllDependents
                             (Engine.dependencyGraph (registered s cellId f)) cellId).
  { intros Hself. apply (Ha cellId). by apply getAllDependents_forward. }
  assert (Hget : Engine.lookupCell cellId
            (fold_left Engine.recalculateCell
               (DependencyGraph.getAllDependents
                  (Engine.dependencyGraph (registered s cellId f)) cellId)
               (Engine.storeCell cellId (evaluatedCell s cellId f)
                  (Engine.cells (Engine.data s))))
          = Some (evaluatedCell s cellId f)).
  { apply recalculate_lookup_kept; [apply lookupCell_storeCell_eq|by left]. }
  split_and!.
  - done.
  - exact Hget.
  - rewrite (getRawValue_plain _ cellId (evaluatedCell s cellId f)); [done|exact Hget|done].
  - unfold Engine.getFormula. simpl. unfold Engine.get in Hget. simpl in Hget.
    by rewrite Hget.
  - exact Hdeps.
Qed.

End AcceptedWrites.

Lemma fresh_evaluates :
  truthy (FormulaParser.error
            (evaluated (host := IntegerHost.integerHost) freshEngine "A1" "=B1")) = false.
Proof. vm_compute. reflexivity. Qed.

Lemma accepted_formula_write_stores_the_evaluation_witness :
  wellFormed freshEngine ∧ reachesEvaluation freshEngine "A1" "=B1" ∧
  truthy (FormulaParser.error
            (evaluated (host := IntegerHost.integerHost) freshEngine "A1" "=B1")) = false ∧
  (Engine.set (host := IntegerHost.integerHost) freshEngine "A1" None (Some "=B1") 1).2 = true.
Proof.
  split; [exact (wellFormed_fresh 0)|]. split; [exact fresh_reaches|].
  split; [exact fresh_evaluates|].
  exact (proj1 (accepted_formula_write_stores_the_evaluation (host := IntegerHost.integerHost)
                  freshEngine "A1" None "=B1" 1 (wellFormed_fresh 0) fresh_reaches
                  fresh_evaluates)).
Defined.

(** X26: [importData] replaces the data by the imported record and
    rebuilds the graph from it alone: the exported data is the imported
    record, the graph is the one that [createSpreadsheetEngine] builds over
    the same data, whatever the engine held before, and the observers are
    notified once. *)
Theorem importData_rebuilds_as_creation
    (s : Engine.State) (newData : Engine.SpreadsheetData) (now : Z) :
  Engine.exportData (Engine.importData s newData) = newData ∧
  Engine.dependencyGraph (Engine.importData s newData)
    = Engine.dependencyGraph (Engine.createSpreadsheetEngine (Some newData) now) ∧
  Engine.notifications (Engine.importData s newData) = S (Engine.notifications s) ∧
  (NoDup (Engine.cells newData).*1 → graphMatchesFormulas (Engine.importData s newData)).
Proof.
  split_and!.
  - by destruct newData.
  - done.
  - done.
  - apply importData_matches.
Qed.
(** ** Cell identifiers and grid positions *)

Section Positions.
Import CellIds.

Lemma getCellId_parseCellId r c cellId :
  getCellId r c = Some cellId →
  parseCellId cellId = Some {| row := r; col := c |} ∧ inAddressSpace cellId.
Proof.
  unfold getCellId. destruct (_ || _) eqn:Hguard; [discriminate|].
  rewrite !orb_false_iff in Hguard. destruct Hguard as [[[Hr0 Hr1] Hc0] Hc1].
  apply Z.ltb_ge in Hr0, Hc0. rewrite Z.geb_leb in Hr1, Hc1. apply Z.leb_gt in Hr1, Hc1.
  unfold Engine.GRID_ROWS in Hr1. unfold Engine.GRID_COLS in Hc1.
  assert (Hrs : (r = 0 ∨ r = 1 ∨ r = 2 ∨ r = 3 ∨ r = 4)%Z) by lia.
  assert (Hcs : (c = 0 ∨ c = 1 ∨ c = 2 ∨ c = 3 ∨ c = 4 ∨ c = 5 ∨ c = 6 ∨ c = 7 ∨ c = 8 ∨ c = 9)%Z)
    by lia.
  clear Hr0 Hr1 Hc0 Hc1. intros [= <-].
  destruct Hrs as [-> | [-> | [-> | [-> | ->]]]];
    destruct Hcs as [-> | [-> | [-> | [-> | [-> | [-> | [-> | [-> | [-> | ->]]]]]]]]];
    (split; [vm_compute; reflexivity|
             apply isValidCellReference_inAddressSpace; vm_compute; reflexivity]).
Qed.

Lemma inAddressSpace_cases cellId :
  inAddressSpace cellId →
  ∃ i j, i ≤ 9 ∧ j ≤ 4 ∧
    cellId = String (ascii_of_nat (65 + i)) (String (ascii_of_nat (49 + j)) EmptyString).
Proof.
  intros (col & row & -> & Hc & Hr).
  destruct (ascii_between col 65 9) as (i & Hi & ->); [lia|].
  destruct (ascii_between row 49 4) as (j & Hj & ->); [lia|].
  by exists i, j.
Qed.

Lemma parseCellId_getCellId cellId p :
  parseCellId cellId = Some p → getCellId (row p) (col p) = Some cellId.
Proof.
  intros Hp.
  assert (Hin : inAddressSpace cellId).
  { apply isValidCellReference_inAddressSpace. unfold parseCellId in Hp.
    destruct cellId as [|c [|r [|]]]; try discriminate.
    by destruct (FormulaParser.isValidCellReference _). }
  destruct (inAddressSpace_cases _ Hin) as (i & j & Hi & Hj & ->).
  do 10 (destruct i as [|i];
    [do 5 (destruct j as [|j];
       [vm_compute in Hp; injection Hp as <-; vm_compute; reflexivity|]); lia|]).
  lia.
Qed.

Lemma parseCellId_defined cellId :
  inAddressSpace cellId → is_Some (parseCellId cellId).
Proof.
  intros Hin. destruct (inAddressSpace_cases _ Hin) as (i & j & Hi & Hj & ->).
  do 10 (destruct i as [|i];
    [do 5 (destruct j as [|j]; [vm_compute; by eexists|]); lia|]).
  lia.
Qed.

End Positions.

(** X27: [getCellId] and [parseCellId] are inverse to each other between
    the positions of the grid and the identifiers of the address space:
    an identifier that [getCellId] builds parses back to its row and column,
    a position that [parseCellId] returns builds the identifier again, and
    [parseCellId] answers null exactly outside the address space. *)
Theorem getCellId_and_parseCellId_are_inverse (r c : Z) (cellId : string)
    (p : CellIds.CellPosition) :
  (CellIds.getCellId r c = Some cellId →
   CellIds.parseCellId cellId = Some {| CellIds.row := r; CellIds.col := c |}
   ∧ inAddressSpace cellId) ∧
  (CellIds.parseCellId cellId = Some p →
   CellIds.getCellId (CellIds.row p) (CellIds.col p) = Some cellId) ∧
  (CellIds.parseCellId cellId = None ↔ ¬ inAddressSpace cellId).
Proof.
  split_and!.
  - apply getCellId_parseCellId.
  - apply parseCellId_getCellId.
  - split.
    + intros Hnone Hin. apply parseCellId_defined in Hin as [q Hq]. congruence.
    + intros Hout. destruct (CellIds.parseCellId cellId) as [q|] eqn:Hq; [|done].
      destruct Hout. apply parseCellId_getCellId in Hq.
      by apply getCellId_parseCellId in Hq as [_ ?].
Qed.

Section ArrowKeys.
Import CellIds SpreadsheetGrid.

Lemma currentPos_valid selectedCell c r :
  currentPos selectedCell = Some (c, r) →
  inAddressSpace (String c (String r EmptyString)).
Proof.
  induction selectedCell as [|c0 rest IH]; [discriminate|].
  cbn [currentPos]. destruct rest as [|r0 rest']; [discriminate|].
  destruct (FormulaParser.isValidCellReference (String c0 (String r0 EmptyString))) eqn:Hv.
  - intros [= <- <-]. by apply isValidCellReference_inAddressSpace.
  - exact IH.
Qed.

Lemma arrowTarget_cases key colIndex rowIndex t :
  arrowTarget key colIndex rowIndex = Some t →
  t = (colIndex, Z.max 0 (rowIndex - 1)) ∨
  t = (colIndex, Z.min (Engine.GRID_ROWS - 1) (rowIndex + 1)) ∨
  t = (Z.max 0 (colIndex - 1), rowIndex) ∨
  t = (Z.min (Z.of_nat (length Engine.COLUMNS) - 1) (colIndex + 1), rowIndex).
Proof.
  unfold arrowTarget. repeat case_decide; intros [= <-]; tauto.
Qed.

Lemma handleArrowKeys_moves editingCell selectedCell key newCellId :
  handleArrowKeys editingCell selectedCell key = Some newCellId →
  ∃ c r p q,
    currentPos selectedCell = Some (c, r) ∧
    parseCellId (String c (String r EmptyString)) = Some p ∧
    parseCellId newCellId = Some q ∧ adjacent p q.
Proof.
  unfold handleArrowKeys. destruct (truthy editingCell); [discriminate|].
  destruct (currentPos selectedCell) as [[c r]|] eqn:Hpos; [|discriminate].
  intros Hmove. exists c, r.
  apply currentPos_valid in Hpos as Hin.
  destruct (inAddressSpace_cases _ Hin) as (i & j & Hi & Hj & [= -> ->]).
  destruct (arrowTarget key _ _) as [t|] eqn:Ht; [|discriminate].
  apply arrowTarget_cases in Ht.
  do 10 (destruct i as [|i];
    [do 5 (destruct j as [|j];
       [destruct Ht as [-> | [-> | [-> | ->]]];
        vm_compute in Hmove;
        first [discriminate Hmove
              | injection Hmove as <-;
                do 2 eexists; split; [reflexivity|]; split; [vm_compute; reflexivity|];
                split; vm_compute; reflexivity]|]); lia|]).
  lia.
Qed.

End ArrowKeys.

(** X28: whenever [handleArrowKeys] selects a cell, the selection was on
    a cell of the grid, no cell was being edited, and the newly selected
    identifier is the neighbour of that cell in the direction of the key: a
    cell of the address space one row or one column away.  At the border of
    the grid, and for every other key, nothing is selected. *)
Theorem handleArrowKeys_selects_a_neighbour
    (editingCell : option string) (selectedCell key newCellId : string) :
  SpreadsheetGrid.handleArrowKeys editingCell selectedCell key = Some newCellId →
  truthy editingCell = false ∧ inAddressSpace newCellId ∧
  ∃ c r p q,
    SpreadsheetGrid.currentPos selectedCell = Some (c, r) ∧
    CellIds.parseCellId (String c (String r EmptyString)) = Some p ∧
    CellIds.parseCellId newCellId = Some q ∧ adjacent p q.
Proof.
  intros Hmove.
  destruct (handleArrowKeys_moves _ _ _ _ Hmove) as (c & r & p & q & Hpos & Hp & Hq & Hadj).
  split_and!.
  - unfold SpreadsheetGrid.handleArrowKeys in Hmove. by destruct (truthy editingCell).
  - apply parseCellId_getCellId in Hq. by apply getCellId_parseCellId in Hq as [_ ?].
  - by exists c, r, p, q.
Qed.

Lemma handleArrowKeys_selects_a_neighbour_witness :
  SpreadsheetGrid.handleArrowKeys None "B2" "ArrowRight" = Some "C2" ∧
  inAddressSpace "C2".
Proof.
  assert (H : SpreadsheetGrid.handleArrowKeys None "B2" "ArrowRight" = Some "C2")
    by (vm_compute; reflexivity).
  split; [exact H|].
  exact (proj1 (proj2 (handleArrowKeys_selects_a_neighbour None "B2" "ArrowRight" "C2" H))).
Defined.
Section EmptyGraph.
Import DependencyGraph.

Lemma dependsOn_proposed_empty cell deps x y :
  dependsOn (proposedGraph empty cell deps) x y → x = cell ∧ y ∈ deps.
Proof.
  destruct (decide (x = cell)) as [->|Hne].
  - rewrite dependsOn_proposed_target. intros Hy. by split.
  - rewrite dependsOn_proposed_other by done. unfold dependsOn, empty. simpl.
    rewrite lookup_empty. by intros []%elem_of_nil.
Qed.

(** Over an empty graph the cycle check turns down exactly the proposals
    that name the target itself. *)
Lemma checkCircularReference_empty cell deps :
  checkCircularReference empty cell deps = None ↔ cell ∉ deps.
Proof.
  rewrite checkCircularReference_None. split.
  - intros Hno Hself. apply (Hno cell); [done|].
    by apply tc_once, dependsOn_proposed_target.
  - intros Hself n _ Hn.
    apply tc_rtc_step in Hn as (y & Hny & Hyn).
    apply dependsOn_proposed_empty in Hyn as [-> Hn].
    destruct (rtc_inv _ _ Hny) as [->|(z & Hnz & _)]; [done|].
    apply dependsOn_proposed_empty in Hnz as [-> _]. done.
Qed.

End EmptyGraph.

(** X29: [clear] empties the engine: no cell of the grid is left, the
    reads [getRawValue], [getDisplayValue] and [getFormula] answer as for a
    missing cell on every key, the graph is empty and the statistics are
    zero; the version is replaced by its binary64 sum with 1, the time is
    stamped and the observers are notified once.  On the cleared engine the
    cycle check turns down exactly the formulas that name their own cell. *)
Theorem clear_empties_the_engine {host : JsHost} (s : Engine.State) (now : Z) :
  let s' := Engine.clear s now in
  (∀ k, inAddressSpace k → Engine.get s' k = None) ∧
  (∀ k, Engine.getRawValue (Engine.data s') k = None ∧
        Engine.getDisplayValue s' k = EmptyString ∧ Engine.getFormula s' k = None) ∧
  Engine.dependencyGraph s' = DependencyGraph.empty ∧
  Engine.getStats s'
    = {| Engine.totalCells := 0; Engine.formulaCells := 0; Engine.calculations := 0 |} ∧
  Engine.exportData s'
    = {| Engine.cells := []; Engine.lastModified := now;
         Engine.version := (Engine.version (Engine.data s) + 1)%float |} ∧
  Engine.notifications s' = S (Engine.notifications s) ∧
  (∀ cellId cellDependencies,
     DependencyGraph.checkCircularReference
       (Engine.dependencyGraph (detached s' cellId)) cellId cellDependencies = None
     ↔ cellId ∉ cellDependencies).
Proof.
  cbv zeta. split_and!; try done.
  intros cellId deps. apply checkCircularReference_empty.
Qed.

Section Tokens.
Import FormulaParser.

Lemma forallb_rev_app p s : ∀ acc,
  Js.forallb p (String.rev_app s acc) = Js.forallb p s && Js.forallb p acc.
Proof.
  induction s as [|c s IH]; intros acc; simpl; [done|].
  rewrite IH. simpl. destruct (p c), (Js.forallb p s); done.
Qed.

Lemma forallb_rev p s : Js.forallb p (String.rev s) = Js.forallb p s.
Proof. unfold String.rev. rewrite forallb_rev_app. simpl. by rewrite andb_true_r. Qed.

Lemma forallb_dropWhile p q s :
  Js.forallb p s = true → Js.forallb p (Js.dropWhile q s) = true.
Proof.
  induction s as [|c s IH]; simpl; [done|].
  intros [Hc Hs]%andb_true_iff. destruct (q c); [by apply IH|]. simpl. by rewrite Hc, Hs.
Qed.

Lemma forallb_trim p s : Js.forallb p s = true → Js.forallb p (trim s) = true.
Proof.
  intros H. unfold trim. rewrite forallb_rev. apply forallb_dropWhile.
  rewrite forallb_rev. by apply forallb_dropWhile.
Qed.

Lemma forallb_snoc p s c :
  Js.forallb p (s +:+ String c EmptyString) = Js.forallb p s && p c.
Proof.
  induction s as [|c0 s IH]; simpl; [by rewrite andb_true_r|].
  unfold String.app in *. simpl. rewrite IH. by rewrite andb_assoc.
Qed.

Lemma flush_tokens current tokens :
  Forall isToken tokens → Js.forallb isTokenChar current = true →
  Forall isToken (flush current tokens).1 ∧
  Js.forallb isTokenChar (flush current tokens).2 = true.
Proof.
  intros Ht Hc. unfold flush. pose proof (forallb_trim _ _ Hc) as Htrim.
  destruct (trim current) as [|c t] eqn:E; [done|]. simpl. split; [|done].
  apply Forall_app. split; [done|]. apply Forall_singleton. right. done.
Qed.

Lemma tokenizeFrom_tokens expression : ∀ tokens current,
  Forall isToken tokens → Js.forallb isTokenChar current = true →
  Forall isToken (tokenizeFrom expression tokens current).
Proof.
  induction expression as [|char rest IH]; intros tokens current Ht Hc; simpl.
  - by apply flush_tokens.
  - pose proof (flush_tokens current tokens Ht Hc) as [Hft Hfc].
    destruct (flush current tokens) as [tokens' current']. simpl in Hft, Hfc.
    case_bool_decide as Hop.
    + apply IH; [|done]. apply Forall_app. split; [done|].
      apply Forall_singleton. left. by exists char.
    + case_bool_decide as Hsp.
      * by apply IH.
      * apply IH; [done|]. rewrite forallb_snoc, Hc. unfold isTokenChar.
        by rewrite !bool_decide_eq_false_2.
Qed.

End Tokens.

(** X30: every token that [tokenize], and so [parseFormula] on a formula
    text, produces is well formed: it is a single operator character, or a
    non-empty text that holds no operator and no space. *)
Theorem tokenize_produces_well_formed_tokens (expression : string) :
  Forall isToken (FormulaParser.tokenize expression) ∧
  Forall isToken
    (FormulaParser.tokens (FormulaParser.parseFormula (String "="%char expression))).
Proof.
  split.
  - by apply tokenizeFrom_tokens.
  - unfold FormulaParser.parseFormula, Js.startsWith.
    destruct expression; simpl; by apply tokenizeFrom_tokens.
Qed.
